(** * Block cluster tree of the repulsive-curves solver

    A shallow embedding of [src/product/block_cluster_tree.cpp]: the
    classification of cluster pairs into admissible and inadmissible blocks
    and the three matrix-vector products built on it, in exact real
    arithmetic ([double] is read as [R]). *)

From Stdlib Require Import Reals Lra List ZArith Lia Bool Arith Permutation.
Import ListNotations.

Open Scope R_scope.

(** ** Geometry: [Vector2], [Vector3], [norm], [pow] *)

Record Vector2 : Type := mkVector2 { v2x : R; v2y : R }.

Record Vector3 : Type := mkVector3 { vx : R; vy : R; vz : R }.

Module Vec.

Definition zero : Vector3 := mkVector3 0 0 0.

Definition add (a b : Vector3) : Vector3 :=
  mkVector3 (vx a + vx b) (vy a + vy b) (vz a + vz b).

Definition sub (a b : Vector3) : Vector3 :=
  mkVector3 (vx a - vx b) (vy a - vy b) (vz a - vz b).

Definition scale (c : R) (a : Vector3) : Vector3 :=
  mkVector3 (c * vx a) (c * vy a) (c * vz a).

(** [v / c] on a vector divides every coordinate. *)
Definition divs (a : Vector3) (c : R) : Vector3 :=
  mkVector3 (vx a / c) (vy a / c) (vz a / c).

(** Coordinate [k] of a vector, [k] in 0..2 (a column of an N x 3 matrix). *)
Definition coord (k : nat) (a : Vector3) : R :=
  match k with O => vx a | S O => vy a | _ => vz a end.

End Vec.

(** Modelled from the spec: [norm] comes with the vector type, which is not
    in src/; the distance dist(a, b) of the specification is
    [norm (a - b)], the Euclidean length. *)
Definition norm (a : Vector3) : R :=
  sqrt (vx a * vx a + vy a * vy a + vz a * vz a).

(** Outcome of an arithmetic operation that may hit a zero divisor. *)
Inductive checked (A : Type) : Type :=
| Ok (a : A)
| DivideByZero.
Arguments Ok {A} a.
Arguments DivideByZero {A}.

Definition bind {A B : Type} (c : checked A) (k : A -> checked B) : checked B :=
  match c with
  | Ok a => k a
  | DivideByZero => DivideByZero
  end.

(** [std::pow] on a base that is a norm (never negative): a zero base gives
    0 for a positive exponent, 1 for exponent 0 and a pole (the
    divide-by-zero exception) for a negative one. *)
Definition pow_checked (x y : R) : checked R :=
  if Req_dec_T x 0 then
    if Rlt_dec 0 y then Ok 0
    else if Req_dec_T y 0 then Ok 1
    else DivideByZero
  else Ok (Rpower x y).

Definition div_checked (a b : R) : checked R :=
  if Req_dec_T b 0 then DivideByZero else Ok (a / b).

(** [std::pow] as a total real function, the reading used by the products
    below; it agrees with [pow_checked] wherever that one has a value (at
    the pole it is 1, a value no statement depends on).  The quotient
    [1.0 / d] is read as the real [1 / d]. *)
Definition pow (x y : R) : R :=
  if Req_dec_T x 0 then
    if Rlt_dec 0 y then 0 else 1
  else Rpower x y.

(** ** The hierarchy and the curve (collaborators of the tree) *)

(** Modelled from the spec: the class [BVHNode3D] is not in src/; a node
    carries the members the block cluster tree reads (element count,
    children, center of mass, total mass, leaf flag and vertex index,
    cluster indices, the mass vector [fillClusterMassVector] writes, the
    viewspace extent seen from a point, and the per-element masses).
    [nodeAddr] is the address of the heap object: the tree holds
    [BVHNode3D*] and compares them with [==].  The scratch members [V_I],
    [B_I] and [aIJ_VJ] are mutable and live in [MVFields] below, keyed by
    [nodeAddr]. *)
#[warnings="-register-all"]
Inductive BVHNode3D : Type := mkBVHNode3D {
  nodeAddr : nat;
  NumElements : Z;                          (* int NumElements() *)
  children : list BVHNode3D;
  centerOfMass : Vector3;
  totalMass : R;
  IsLeaf : bool;
  VertexIndex : nat;
  clusterIndices : list nat;
  clusterMasses : list R;                   (* what fillClusterMassVector writes *)
  viewspaceBounds : Vector3 -> Vector2;
  fullMasses : nat -> R
}.

Record ClusterPair : Type := mkClusterPair {
  cluster1 : BVHNode3D;
  cluster2 : BVHNode3D
}.

(** Modelled from the spec: [PointOnCurve] and [PolyCurveGroup] are not in
    src/.  A point handle names the curve it lies on and its index there,
    and [==] compares both; the group gives the handle of an element, the
    next point of a handle and its position. *)
Record PointOnCurve : Type := mkPointOnCurve {
  pCurve : nat;
  pIndex : nat
}.

Definition point_eqb (p q : PointOnCurve) : bool :=
  Nat.eqb (pCurve p) (pCurve q) && Nat.eqb (pIndex p) (pIndex q).

Record PolyCurveGroup : Type := mkPolyCurveGroup {
  NumVertices : nat;
  GetCurvePoint : nat -> PointOnCurve;
  Next : PointOnCurve -> PointOnCurve;
  Position : PointOnCurve -> Vector3
}.

(** ** The tree *)

Inductive BlockTreeMode : Type := MatrixOnly.

(** Modelled from the spec: the class declaration is not in src/; the
    members are those the member functions use. *)
Record BlockClusterTree : Type := mkBlockClusterTree {
  curves : PolyCurveGroup;
  tree_root : BVHNode3D;
  alpha : R;
  beta : R;
  separationCoeff : R;
  epsilon : R;
  nVerts : nat;
  constraintsSet : bool;
  mode : BlockTreeMode;
  admissiblePairs : list ClusterPair;
  unresolvedPairs : list ClusterPair;
  inadmissiblePairs : list ClusterPair
}.

(** *** Classification of cluster pairs *)

(** The range of a C++ [int] (32 bits, two's complement), and the value an
    [int] operation yields for the mathematical result [z]: [z] itself
    when it is in range, and [z] reduced modulo 2^32 into the range when it
    is not, which is what the addition of the machine does. *)
Definition INT_MIN : Z := (-2147483648)%Z.
Definition INT_MAX : Z := 2147483647%Z.

Definition wrapInt (z : Z) : Z := ((z - INT_MIN) mod 4294967296 + INT_MIN)%Z.

Definition fitsInt (z : Z) : Prop := (INT_MIN <= z <= INT_MAX)%Z.

(** [isPairSmallEnough]: [(s1 <= 1) || (s2 <= 1) || (s1 + s2 <= 8)] on two
    [int]s; the sum [s1 + s2] is an [int] sum. *)
Definition isPairSmallEnough (pair : ClusterPair) : bool :=
  let s1 := NumElements (cluster1 pair) in
  let s2 := NumElements (cluster2 pair) in
  ((s1 <=? 1) || (s2 <=? 1) || (wrapInt (s1 + s2) <=? 8))%Z.

Definition Rltb (a b : R) : bool := if Rlt_dec a b then true else false.

(** [isPairAdmissible]: the pointer test, then the larger viewspace extent
    against [theta] times the distance of the centers of mass. *)
Definition isPairAdmissible (pair : ClusterPair) (theta : R) : bool :=
  if Nat.eqb (nodeAddr (cluster1 pair)) (nodeAddr (cluster2 pair)) then false
  else
    let c1spread := viewspaceBounds (cluster1 pair) (centerOfMass (cluster2 pair)) in
    let c2spread := viewspaceBounds (cluster2 pair) (centerOfMass (cluster1 pair)) in
    let maxRadial := Rmax (v2x c1spread) (v2x c2spread) in
    let maxLinear := Rmax (v2y c1spread) (v2y c2spread) in
    let distance :=
      norm (Vec.sub (centerOfMass (cluster1 pair)) (centerOfMass (cluster2 pair))) in
    let isAdm := Rltb (Rmax maxRadial maxLinear) (theta * distance) in
    isAdm.

Definition set_pairs (t : BlockClusterTree)
    (adm unres inadm : list ClusterPair) : BlockClusterTree :=
  mkBlockClusterTree (curves t) (tree_root t) (alpha t) (beta t)
    (separationCoeff t) (epsilon t) (nVerts t) (constraintsSet t) (mode t)
    adm unres inadm.

Definition push_admissible (t : BlockClusterTree) (pair : ClusterPair) :=
  set_pairs t (admissiblePairs t ++ [pair]) (unresolvedPairs t) (inadmissiblePairs t).

Definition push_inadmissible (t : BlockClusterTree) (pair : ClusterPair) :=
  set_pairs t (admissiblePairs t) (unresolvedPairs t) (inadmissiblePairs t ++ [pair]).

(** The two nested loops of the last branch: the pairs of a child of
    [cluster1] with a child of [cluster2], in the order they are pushed. *)
Definition childPairs (pair : ClusterPair) : list ClusterPair :=
  flat_map (fun ci => map (fun cj => mkClusterPair ci cj) (children (cluster2 pair)))
           (children (cluster1 pair)).

(** Body of the loop of [splitInadmissibleNodes], on the tree and the local
    [nextPairs]. *)
Definition splitBody (acc : BlockClusterTree * list ClusterPair)
    (pair : ClusterPair) : BlockClusterTree * list ClusterPair :=
  let (t, nextPairs) := acc in
  if ((NumElements (cluster1 pair) =? 0) || (NumElements (cluster2 pair) =? 0))%Z
  then (t, nextPairs)
  else if ((NumElements (cluster1 pair) =? 1) && (NumElements (cluster2 pair) =? 1))%Z
  then (push_inadmissible t pair, nextPairs)
  else if isPairAdmissible pair (separationCoeff t)
  then (push_admissible t pair, nextPairs)
  else if isPairSmallEnough pair
  then (push_inadmissible t pair, nextPairs)
  else (t, nextPairs ++ childPairs pair).

Definition splitInadmissibleNodes (t : BlockClusterTree) : BlockClusterTree :=
  let (t', nextPairs) := fold_left splitBody (unresolvedPairs t) (t, []) in
  set_pairs t' (admissiblePairs t') nextPairs (inadmissiblePairs t').

(** The constructor up to its loop ([mode] has a single value, so setting
    it after the loop is the same as setting it here). *)
Definition initialTree (cg : PolyCurveGroup) (tree : BVHNode3D)
    (sepCoeff a b e : R) : BlockClusterTree :=
  mkBlockClusterTree cg tree a b sepCoeff e (NumVertices cg) false MatrixOnly
    [] [mkClusterPair tree tree] [].

(** [while (unresolvedPairs.size() > 0) splitInadmissibleNodes();] with a
    bound on the number of rounds: [None] when the bound is too small. *)
Fixpoint classifyLoop (fuel : nat) (t : BlockClusterTree) : option BlockClusterTree :=
  match unresolvedPairs t with
  | [] => Some t
  | _ :: _ =>
      match fuel with
      | O => None
      | S fuel' => classifyLoop fuel' (splitInadmissibleNodes t)
      end
  end.

Definition BlockClusterTree_new (fuel : nat) (cg : PolyCurveGroup) (tree : BVHNode3D)
    (sepCoeff a b e : R) : option BlockClusterTree :=
  classifyLoop fuel (initialTree cg tree sepCoeff a b e).

(** *** Bookkeeping for the statements: nodes of a subtree, index blocks *)

(** All nodes below (and including) a node, parents first. *)
Fixpoint subnodes (n : BVHNode3D) : list BVHNode3D :=
  n :: flat_map subnodes (children n).

(** The block of the implicit matrix a pair stands for. *)
Definition indexBlock (pair : ClusterPair) : list (nat * nat) :=
  list_prod (clusterIndices (cluster1 pair)) (clusterIndices (cluster2 pair)).

Definition hasEmptySide (pair : ClusterPair) : bool :=
  ((NumElements (cluster1 pair) =? 0) || (NumElements (cluster2 pair) =? 0))%Z.

(** The pairs the loop discards on its first branch (the code keeps no
    record of them): those of every round, in the order of the rounds. *)
Fixpoint droppedPairs (fuel : nat) (t : BlockClusterTree) : list ClusterPair :=
  match unresolvedPairs t with
  | [] => []
  | _ :: _ =>
      match fuel with
      | O => []
      | S fuel' =>
          filter hasEmptySide (unresolvedPairs t)
            ++ droppedPairs fuel' (splitInadmissibleNodes t)
      end
  end.

(** *** The five rules, as the specification words them *)

Inductive Rule : Type :=
| Drop
| SingletonInadmissible
| Admissible
| SmallInadmissible
| Subdivide.

Section Rules.

Variable theta : R.
Variable pair : ClusterPair.

Let s1 := NumElements (cluster1 pair).
Let s2 := NumElements (cluster2 pair).

Definition someSideEmpty : Prop := (s1 = 0 \/ s2 = 0)%Z.
Definition bothSingletons : Prop := (s1 = 1 /\ s2 = 1)%Z.
Definition smallEnough : Prop := (s1 <= 1 \/ s2 <= 1 \/ s1 + s2 <= 8)%Z.

(** The first rule that applies, in the priority order 1 to 5. *)
Inductive appliesRule : Rule -> Prop :=
| rule1 : someSideEmpty -> appliesRule Drop
| rule2 : ~ someSideEmpty -> bothSingletons -> appliesRule SingletonInadmissible
| rule3 : ~ someSideEmpty -> ~ bothSingletons ->
          isPairAdmissible pair theta = true -> appliesRule Admissible
| rule4 : ~ someSideEmpty -> ~ bothSingletons ->
          isPairAdmissible pair theta = false ->
          smallEnough -> appliesRule SmallInadmissible
| rule5 : ~ someSideEmpty -> ~ bothSingletons ->
          isPairAdmissible pair theta = false ->
          ~ smallEnough -> appliesRule Subdivide.

End Rules.

(** The full cartesian product of the children of the two sides. *)
Definition childrenProduct (pair : ClusterPair) : list ClusterPair :=
  map (fun ab => mkClusterPair (fst ab) (snd ab))
      (list_prod (children (cluster1 pair)) (children (cluster2 pair))).

(** What a rule does, as the specification words it: the tree with the
    pair appended to the inadmissible or to the admissible collection and
    nothing else changed, or the next worklist with the cartesian product
    of the children appended. *)
Definition ruleEffect (r : Rule) (t : BlockClusterTree) (nextPairs : list ClusterPair)
    (pair : ClusterPair) : BlockClusterTree * list ClusterPair :=
  match r with
  | Drop => (t, nextPairs)
  | SingletonInadmissible | SmallInadmissible =>
      (mkBlockClusterTree (curves t) (tree_root t) (alpha t) (beta t)
         (separationCoeff t) (epsilon t) (nVerts t) (constraintsSet t) (mode t)
         (admissiblePairs t) (unresolvedPairs t) (inadmissiblePairs t ++ [pair]),
       nextPairs)
  | Admissible =>
      (mkBlockClusterTree (curves t) (tree_root t) (alpha t) (beta t)
         (separationCoeff t) (epsilon t) (nVerts t) (constraintsSet t) (mode t)
         (admissiblePairs t ++ [pair]) (unresolvedPairs t) (inadmissiblePairs t),
       nextPairs)
  | Subdivide => (t, nextPairs ++ childrenProduct pair)
  end.

(** The combined element count of a pair is in the range of [int]. *)
Definition countsFitInt (pair : ClusterPair) : Prop :=
  fitsInt (NumElements (cluster1 pair) + NumElements (cluster2 pair)).

(** The test of [isPairSmallEnough] as a proposition, with the sum the
    code computes. *)
Definition smallEnoughInt (pair : ClusterPair) : Prop :=
  (NumElements (cluster1 pair) <= 1
   \/ NumElements (cluster2 pair) <= 1
   \/ wrapInt (NumElements (cluster1 pair) + NumElements (cluster2 pair)) <= 8)%Z.

(** The rule the code takes, read off the branches of [splitBody]. *)
Definition ruleOf (theta : R) (pair : ClusterPair) : Rule :=
  if hasEmptySide pair then Drop
  else if ((NumElements (cluster1 pair) =? 1) && (NumElements (cluster2 pair) =? 1))%Z
  then SingletonInadmissible
  else if isPairAdmissible pair theta then Admissible
  else if isPairSmallEnough pair then SmallInadmissible
  else Subdivide.

Definition isRule (r r' : Rule) : bool :=
  match r, r' with
  | Drop, Drop | SingletonInadmissible, SingletonInadmissible
  | Admissible, Admissible | SmallInadmissible, SmallInadmissible
  | Subdivide, Subdivide => true
  | _, _ => false
  end.

Definition goesInadmissible (theta : R) (pair : ClusterPair) : bool :=
  isRule (ruleOf theta pair) SingletonInadmissible
  || isRule (ruleOf theta pair) SmallInadmissible.

Definition goesAdmissible (theta : R) (pair : ClusterPair) : bool :=
  isRule (ruleOf theta pair) Admissible.

Definition goesSubdivide (theta : R) (pair : ClusterPair) : bool :=
  isRule (ruleOf theta pair) Subdivide.

(** Every child has strictly fewer elements than its parent, all over the
    hierarchy. *)
Definition shrinkingHierarchy (root : BVHNode3D) : Prop :=
  Forall (fun n => Forall (fun c => (NumElements c < NumElements n)%Z) (children n))
         (subnodes root).

(** The measure of the termination argument: the first side of a pair sits
    in a shrinking hierarchy and has at most [m] elements. *)
Definition shrinksBelow (m : Z) (p : ClusterPair) : Prop :=
  shrinkingHierarchy (cluster1 p) /\ (NumElements (cluster1 p) <= m)%Z.

(** Height of a node in the hierarchy (a leaf has height 1). *)
Fixpoint height (n : BVHNode3D) : nat :=
  S (list_max (map height (children n))).

(** The admissibility test as the specification words it: the largest of
    the angular and linear extents of both clusters, each seen from the
    center of mass of the other one, and the distance of the two centers. *)
Definition maxExtent (pair : ClusterPair) : R :=
  let seenFrom2 := viewspaceBounds (cluster1 pair) (centerOfMass (cluster2 pair)) in
  let seenFrom1 := viewspaceBounds (cluster2 pair) (centerOfMass (cluster1 pair)) in
  Rmax (v2x seenFrom2) (Rmax (v2y seenFrom2) (Rmax (v2x seenFrom1) (v2y seenFrom1))).

Definition centroidDistance (pair : ClusterPair) : R :=
  norm (Vec.sub (centerOfMass (cluster1 pair)) (centerOfMass (cluster2 pair))).

Definition sameReference (pair : ClusterPair) : Prop :=
  nodeAddr (cluster1 pair) = nodeAddr (cluster2 pair).

(** The index lists of the hierarchy are consistent: a node with at least
    two elements holds exactly the indices of its children. *)
Definition partitionedHierarchy (root : BVHNode3D) : Prop :=
  Forall (fun n => (2 <= NumElements n)%Z ->
                   Permutation (clusterIndices n) (flat_map clusterIndices (children n)))
         (subnodes root).

Definition index_pair_eq_dec (x y : nat * nat) : {x = y} + {x <> y}.
Proof. decide equality; apply Nat.eq_dec. Defined.

(** In how many places the blocks of a collection of pairs represent the
    entry [(i, j)] of the implicit matrix. *)
Definition representations (ij : nat * nat) (ps : list ClusterPair) : nat :=
  count_occ index_pair_eq_dec (flat_map indexBlock ps) ij.

Definition bothPartitioned (p : ClusterPair) : Prop :=
  partitionedHierarchy (cluster1 p) /\ partitionedHierarchy (cluster2 p).


(** ** The matrix-vector products *)

(** An [Eigen::VectorXd] and an N x 3 [Eigen::MatrixXd], read through their
    index: entry [i], respectively row [i].  The sizes are not modelled;
    every index the code uses is taken to be in range (Eigen does not check
    it in release builds). *)
Definition VectorXd : Type := nat -> R.
Definition MatrixXd : Type := nat -> Vector3.

Definition setZero : VectorXd := fun _ => 0.
Definition setOnes : VectorXd := fun _ => 1.
Definition zeroMatrix : MatrixXd := fun _ => Vec.zero.

(** Modelled from the spec: [SelectRow] and [AddToRow] of utils.h are not
    in src/; the first reads the 3-vector of an element, the second adds a
    3-vector to the output at an element. *)
Definition SelectRow (m : MatrixXd) (i : nat) : Vector3 := m i.

Definition AddToRow (m : MatrixXd) (i : nat) (toAdd : Vector3) : MatrixXd :=
  fun r => if Nat.eqb r i then Vec.add (m r) toAdd else m r.

(** [m.col(k)] and the assignment [m.col(k) = c]. *)
Definition col (k : nat) (m : MatrixXd) : VectorXd := fun r => Vec.coord k (m r).

Definition setCol (k : nat) (m : MatrixXd) (c : VectorXd) : MatrixXd :=
  fun r =>
    match k with
    | O => mkVector3 (c r) (vy (m r)) (vz (m r))
    | S O => mkVector3 (vx (m r)) (c r) (vz (m r))
    | _ => mkVector3 (vx (m r)) (vy (m r)) (c r)
    end.

(** *** Exact product of one pair: [AfFullProduct] *)

Definition isNeighbors (cg : PolyCurveGroup) (p1 p2 : PointOnCurve) : bool :=
  point_eqb p1 p2 || point_eqb (Next cg p1) p2
  || point_eqb p1 (Next cg p2) || point_eqb (Next cg p1) (Next cg p2).

(** The body of the inner loop up to the two accumulations: [af_ij] for the
    elements [e1index] and [e2index]. *)
Definition af_ij (t : BlockClusterTree) (pow_s : R) (e1index e2index : nat) : R :=
  let p1 := GetCurvePoint (curves t) e1index in
  let p2 := GetCurvePoint (curves t) e2index in
  let mid1 := Vec.divs (Vec.add (Position (curves t) p1)
                                (Position (curves t) (Next (curves t) p1))) 2 in
  let mid2 := Vec.divs (Vec.add (Position (curves t) p2)
                                (Position (curves t) (Next (curves t) p2))) 2 in
  let l1 := norm (Vec.sub (Position (curves t) p1)
                          (Position (curves t) (Next (curves t) p1))) in
  let l2 := norm (Vec.sub (Position (curves t) p2)
                          (Position (curves t) (Next (curves t) p2))) in
  if isNeighbors (curves t) p1 p2 then 0
  else (l1 * l2) / pow (norm (Vec.sub mid1 mid2)) pow_s.

(** The inner loop: [a_times_one[i]] and [a_times_v[i]], both from zero. *)
Definition fullRow (t : BlockClusterTree) (pow_s : R) (pair : ClusterPair)
    (v_hat : MatrixXd) (e1index : nat) : R * Vector3 :=
  fold_left
    (fun acc e2index =>
       let af := af_ij t pow_s e1index e2index in
       (fst acc + af, Vec.add (snd acc) (Vec.scale af (SelectRow v_hat e2index))))
    (clusterIndices (cluster2 pair)) (0, Vec.zero).

Definition AfFullProduct (t : BlockClusterTree) (pair : ClusterPair)
    (v_hat result : MatrixXd) : MatrixXd :=
  let pow_s := beta t - alpha t in
  fold_left
    (fun result e1index =>
       let (a_times_one, a_times_v) := fullRow t pow_s pair v_hat e1index in
       let toAdd :=
         Vec.scale 2 (Vec.sub (Vec.scale a_times_one (SelectRow v_hat e1index))
                              a_times_v) in
       AddToRow result e1index toAdd)
    (clusterIndices (cluster1 pair)) result.

(** *** Monopole product of one pair: [AfApproxProduct] *)

(** [1.0 / pow(norm(c1 - c2), pow_s)], as [AfApproxProduct] and [SetBIs]
    both compute it. *)
Definition a_IJ (t : BlockClusterTree) (pair : ClusterPair) : R :=
  let pow_s := beta t - alpha t in
  1 / pow (norm (Vec.sub (centerOfMass (cluster1 pair))
                         (centerOfMass (cluster2 pair)))) pow_s.

(** The same scalar with its two operations checked for a zero divisor. *)
Definition a_IJ_checked (t : BlockClusterTree) (pair : ClusterPair) : checked R :=
  let pow_s := beta t - alpha t in
  bind (pow_checked (norm (Vec.sub (centerOfMass (cluster1 pair))
                                   (centerOfMass (cluster2 pair)))) pow_s)
       (fun d => div_checked 1 d).

(** The admissibility test under the same reading: it takes maxima, one
    norm, one product and one comparison, and no quotient or power. *)
Definition isPairAdmissible_checked (pair : ClusterPair) (theta : R) : checked bool :=
  if Nat.eqb (nodeAddr (cluster1 pair)) (nodeAddr (cluster2 pair)) then Ok false
  else
    let c1spread := viewspaceBounds (cluster1 pair) (centerOfMass (cluster2 pair)) in
    let c2spread := viewspaceBounds (cluster2 pair) (centerOfMass (cluster1 pair)) in
    let maxRadial := Rmax (v2x c1spread) (v2x c2spread) in
    let maxLinear := Rmax (v2y c1spread) (v2y c2spread) in
    let distance :=
      norm (Vec.sub (centerOfMass (cluster1 pair)) (centerOfMass (cluster2 pair))) in
    Ok (Rltb (Rmax maxRadial maxLinear) (theta * distance)).

(** [wf.sum()]. *)
Definition massSum (w : list R) : R := fold_left Rplus w 0.

(** Entry [k] of a mass vector and of an index list; the code reads both
    at the positions of the mass vector (a position past the end of the
    index list is out of range there; it reads as 0 here). *)
Definition massAt (w : list R) (k : nat) : R := nth k w 0.
Definition indexAt (l : list nat) (k : nat) : nat := nth k l O.

Definition AfApproxProduct (t : BlockClusterTree) (pair : ClusterPair)
    (v_hat result : MatrixXd) : MatrixXd :=
  let wf_i := clusterMasses (cluster1 pair) in
  let wf_j := clusterMasses (cluster2 pair) in
  let a := a_IJ t pair in
  let a_wf_1 := a * massSum wf_j in
  let a_wf_J :=
    Vec.scale a
      (fold_left
         (fun acc j =>
            Vec.add acc
              (Vec.scale (massAt wf_j j)
                 (SelectRow v_hat (indexAt (clusterIndices (cluster2 pair)) j))))
         (seq 0 (length wf_j)) Vec.zero) in
  fold_left
    (fun result i =>
       let row := indexAt (clusterIndices (cluster1 pair)) i in
       let toAdd :=
         Vec.scale (massAt wf_i i * 2)
           (Vec.sub (Vec.scale a_wf_1 (SelectRow v_hat row)) a_wf_J) in
       AddToRow result row toAdd)
    (seq 0 (length wf_i)) result.

Definition MultiplyAdmissible (t : BlockClusterTree) (v_hat b_hat : MatrixXd) : MatrixXd :=
  fold_left (fun b_hat pair => AfApproxProduct t pair v_hat b_hat)
            (admissiblePairs t) b_hat.

Definition MultiplyInadmissible (t : BlockClusterTree) (v_hat b_hat : MatrixXd) : MatrixXd :=
  fold_left (fun b_hat pair => AfFullProduct t pair v_hat b_hat)
            (inadmissiblePairs t) b_hat.

(** *** Upward and downward passes: [MultiplyAf] *)

(** The scratch members of the nodes, by node address. *)
Record MVFields : Type := mkMVFields {
  V_I : nat -> R;
  B_I : nat -> R;
  aIJ_VJ : nat -> R
}.

Definition upd (f : nat -> R) (a : nat) (x : R) : nat -> R :=
  fun a' => if Nat.eqb a' a then x else f a'.

Definition set_V_I (s : MVFields) (a : nat) (x : R) : MVFields :=
  mkMVFields (upd (V_I s) a x) (B_I s) (aIJ_VJ s).

Definition set_B_I (s : MVFields) (a : nat) (x : R) : MVFields :=
  mkMVFields (V_I s) (upd (B_I s) a x) (aIJ_VJ s).

Definition set_aIJ_VJ (s : MVFields) (a : nat) (x : R) : MVFields :=
  mkMVFields (V_I s) (B_I s) (upd (aIJ_VJ s) a x).

(** Modelled from the spec: [recursivelyZeroMVFields] of the hierarchy is
    not in src/; it resets the three scratch fields of every node below the
    one it is called on. *)
Definition recursivelyZeroMVFields (node : BVHNode3D) (s : MVFields) : MVFields :=
  fold_left
    (fun s n => set_aIJ_VJ (set_B_I (set_V_I s (nodeAddr n) 0) (nodeAddr n) 0)
                           (nodeAddr n) 0)
    (subnodes node) s.

Fixpoint SetVIs (node : BVHNode3D) (v_hat : VectorXd) (s : MVFields) : MVFields :=
  if IsLeaf node then
    let index := VertexIndex node in
    let w_j := totalMass node in
    let v_hat_j := v_hat index in
    set_V_I s (nodeAddr node) (w_j * v_hat_j)
  else
    fold_left
      (fun s child =>
         let s' := SetVIs child v_hat s in
         set_V_I s' (nodeAddr node) (V_I s' (nodeAddr node) + V_I s' (nodeAddr child)))
      (children node)
      (set_V_I s (nodeAddr node) 0).

Fixpoint PropagateBIs (node : BVHNode3D) (parent_BI : R)
    (sb : MVFields * VectorXd) : MVFields * VectorXd :=
  let s := set_B_I (fst sb) (nodeAddr node)
                   (parent_BI + aIJ_VJ (fst sb) (nodeAddr node)) in
  if IsLeaf node then
    (s, upd (snd sb) (VertexIndex node) (B_I s (nodeAddr node)))
  else
    fold_left
      (fun sb child => PropagateBIs child (B_I (fst sb) (nodeAddr node)) sb)
      (children node)
      (s, snd sb).

(** The loop of [SetBIs] over the admissible pairs. *)
Definition accumulateFarField (t : BlockClusterTree) (s : MVFields) : MVFields :=
  fold_left
    (fun s pair =>
       let a := a_IJ t pair in
       set_aIJ_VJ s (nodeAddr (cluster1 pair))
         (aIJ_VJ s (nodeAddr (cluster1 pair)) + a * V_I s (nodeAddr (cluster2 pair))))
    (admissiblePairs t) s.

Definition SetBIs (t : BlockClusterTree) (node : BVHNode3D)
    (sb : MVFields * VectorXd) : MVFields * VectorXd :=
  PropagateBIs node 0 (accumulateFarField t (fst sb), snd sb).

(** [MultiplyAf] returns its result and leaves the scratch fields changed. *)
Definition MultiplyAf (t : BlockClusterTree) (v : VectorXd) (s : MVFields)
    : VectorXd * MVFields :=
  let s0 := recursivelyZeroMVFields (tree_root t) s in
  let result := setZero in
  let s1 := SetVIs (tree_root t) v s0 in
  let sb := SetBIs t (tree_root t) (s1, result) in
  (fun i => fullMasses (tree_root t) i * snd sb i, fst sb).

Definition MultiplyAdmissibleFast (t : BlockClusterTree) (v_hat b_hat : MatrixXd)
    (s : MVFields) : MatrixXd * MVFields :=
  let ones := setOnes in
  let (h_f, s0) := MultiplyAf t ones s in
  let loop :=
    fold_left
      (fun (acc : MatrixXd * MVFields) i =>
         let v_col := col i v_hat in
         let (r, s') := MultiplyAf t v_col (snd acc) in
         (setCol i (fst acc) r, s'))
      (seq 0 3) (b_hat, s0) in
  (fun r => Vec.scale 2 (Vec.sub (Vec.scale (h_f r) (v_hat r)) (fst loop r)),
   snd loop).

(** ** Notions of the specification used in the statements *)

Definition Rsum (l : list R) : R := fold_right Rplus 0 l.
Definition Vsum (l : list Vector3) : Vector3 := fold_right Vec.add Vec.zero l.

(** The segment of element [i]: from its point to the next one. *)
Definition segmentLength (cg : PolyCurveGroup) (i : nat) : R :=
  norm (Vec.sub (Position cg (GetCurvePoint cg i))
                (Position cg (Next cg (GetCurvePoint cg i)))).

Definition segmentMidpoint (cg : PolyCurveGroup) (i : nat) : Vector3 :=
  Vec.divs (Vec.add (Position cg (GetCurvePoint cg i))
                    (Position cg (Next cg (GetCurvePoint cg i)))) 2.

(** Identical elements, or one the successor of the other, in either
    direction. *)
Definition identicalOrAdjacent (cg : PolyCurveGroup) (i j : nat) : Prop :=
  GetCurvePoint cg i = GetCurvePoint cg j
  \/ Next cg (GetCurvePoint cg i) = GetCurvePoint cg j
  \/ GetCurvePoint cg i = Next cg (GetCurvePoint cg j).

(** The two segments have an end point in common. *)
Definition shareEndpoint (cg : PolyCurveGroup) (i j : nat) : Prop :=
  identicalOrAdjacent cg i j
  \/ Next cg (GetCurvePoint cg i) = Next cg (GetCurvePoint cg j).

(** The entry a(i, j) of the implicit operator as the exact product
    computes it. *)
Definition kernelEntry (t : BlockClusterTree) (i j : nat) : R :=
  af_ij t (beta t - alpha t) i j.

(** What [AfFullProduct] adds at the row of the element [i]. *)
Definition fullContribution (t : BlockClusterTree) (pair : ClusterPair)
    (v_hat : MatrixXd) (i : nat) : Vector3 :=
  Vec.scale 2
    (Vec.sub
       (Vec.scale (Rsum (map (kernelEntry t i) (clusterIndices (cluster2 pair)))) (v_hat i))
       (Vsum (map (fun j => Vec.scale (kernelEntry t i j) (v_hat j))
                  (clusterIndices (cluster2 pair))))).


(** Mass-weighted sum of a field over the second side of a pair, at the
    positions of its mass vector. *)
Definition weightedSum (pair : ClusterPair) (v_hat : MatrixXd) : Vector3 :=
  Vsum (map (fun j => Vec.scale (massAt (clusterMasses (cluster2 pair)) j)
                        (v_hat (indexAt (clusterIndices (cluster2 pair)) j)))
            (seq 0 (length (clusterMasses (cluster2 pair))))).

(** What [AfApproxProduct] adds for position [k] of the first mass vector. *)
Definition approxContribution (t : BlockClusterTree) (pair : ClusterPair)
    (v_hat : MatrixXd) (k : nat) : Vector3 :=
  Vec.scale (massAt (clusterMasses (cluster1 pair)) k * 2)
    (Vec.sub
       (Vec.scale (a_IJ t pair * Rsum (clusterMasses (cluster2 pair)))
                  (v_hat (indexAt (clusterIndices (cluster1 pair)) k)))
       (Vec.scale (a_IJ t pair) (weightedSum pair v_hat))).

(** What the two products over a collection add to row [r], in all. *)
Definition fullRowTotal (t : BlockClusterTree) (pair : ClusterPair)
    (v_hat : MatrixXd) (r : nat) : Vector3 :=
  Vsum (map (fun i => if Nat.eqb r i then fullContribution t pair v_hat i else Vec.zero)
            (clusterIndices (cluster1 pair))).

Definition approxRowTotal (t : BlockClusterTree) (pair : ClusterPair)
    (v_hat : MatrixXd) (r : nat) : Vector3 :=
  Vsum (map (fun k => if Nat.eqb r (indexAt (clusterIndices (cluster1 pair)) k)
                      then approxContribution t pair v_hat k else Vec.zero)
            (seq 0 (length (clusterMasses (cluster1 pair))))).

(** The field [v1 + c v2]. *)
Definition axpy (v1 : MatrixXd) (c : R) (v2 : MatrixXd) : MatrixXd :=
  fun r => Vec.add (v1 r) (Vec.scale c (v2 r)).

(** The addresses of the nodes of a subtree. *)
Definition addrs (n : BVHNode3D) : list nat := map nodeAddr (subnodes n).

(** Both sides of a pair are nodes of the hierarchy under [root]. *)
Definition pairInTree (root : BVHNode3D) (p : ClusterPair) : Prop :=
  In (cluster1 p) (subnodes root) /\ In (cluster2 p) (subnodes root).

(** [f12 = f1 + c f2] on a set of addresses, and the same for the three
    scratch fields at once. *)
Definition combines (c : R) (A : list nat) (f1 f2 f12 : nat -> R) : Prop :=
  forall a, In a A -> f12 a = f1 a + c * f2 a.

Definition storesCombine (c : R) (A : list nat) (s1 s2 s12 : MVFields) : Prop :=
  combines c A (V_I s1) (V_I s2) (V_I s12)
  /\ combines c A (B_I s1) (B_I s2) (B_I s12)
  /\ combines c A (aIJ_VJ s1) (aIJ_VJ s2) (aIJ_VJ s12).

Definition vectorsCombine (c : R) (b1 b2 b12 : VectorXd) : Prop :=
  forall r, b12 r = b1 r + c * b2 r.

(** A pair with its sides exchanged. *)
Definition swapPair (p : ClusterPair) : ClusterPair :=
  mkClusterPair (cluster2 p) (cluster1 p).

(** A collection that holds a pair as often as the exchanged pair. *)
Definition swapClosed (ps : list ClusterPair) : Prop :=
  Permutation (map swapPair ps) ps.

(** The field that is [u] at element [i] and zero elsewhere. *)
Definition oneHot (i : nat) (u : Vector3) : MatrixXd :=
  fun r => if Nat.eqb r i then u else Vec.zero.

(** The full product of the specification: the monopole product over the
    admissible pairs and the exact product over the inadmissible ones,
    accumulated into one zero-initialised output. *)
Definition fullMultiply (t : BlockClusterTree) (v_hat : MatrixXd) : MatrixXd :=
  MultiplyInadmissible t v_hat (MultiplyAdmissible t v_hat zeroMatrix).

(** Total mass a node lists for the element [r]. *)
Definition massOf (n : BVHNode3D) (r : nat) : R :=
  Rsum (map (fun k => if Nat.eqb (indexAt (clusterIndices n) k) r
                      then massAt (clusterMasses n) k else 0)
            (seq 0 (length (clusterMasses n)))).

(** ** The hierarchy contract behind the propagation product *)

(** The leaves the two passes reach below a node, left to right. *)
Fixpoint leaves (n : BVHNode3D) : list BVHNode3D :=
  if IsLeaf n then [n] else flat_map leaves (children n).

Definition leafIndices (n : BVHNode3D) : list nat := map VertexIndex (leaves n).

(** What the hierarchy and its mass data promise: the nodes are different
    heap objects; a leaf has no children; a node lists the elements of the
    leaves below it; its mass vector holds the masses of the elements it
    lists; the mass of a leaf is the mass of its element; no element sits
    in two leaves. *)
Record wellFormedHierarchy (root : BVHNode3D) : Prop := mkWellFormed {
  wf_addrs : NoDup (addrs root);
  wf_leaf_children :
    Forall (fun n => IsLeaf n = true -> children n = []) (subnodes root);
  wf_indices :
    Forall (fun n => Permutation (clusterIndices n) (leafIndices n)) (subnodes root);
  wf_masses :
    Forall (fun n => clusterMasses n = map (fullMasses root) (clusterIndices n))
           (subnodes root);
  wf_leaf_mass :
    Forall (fun l => totalMass l = fullMasses root (VertexIndex l)) (leaves root);
  wf_leaf_indices : NoDup (leafIndices root)
}.

(** The upward partial sum of a node: its leaves' mass times input. *)
Definition upwardSum (n : BVHNode3D) (v : VectorXd) : R :=
  Rsum (map (fun l => totalMass l * v (VertexIndex l)) (leaves n)).

(** The element [r] belongs to a leaf below the node. *)
Definition covers (n : BVHNode3D) (r : nat) : bool :=
  existsb (Nat.eqb r) (leafIndices n).

(** Sum of a scratch field over the nodes below [n] that cover [r]: what
    the downward pass has accumulated when it reaches the leaf of [r]. *)
Definition pathSum (f : nat -> R) (n : BVHNode3D) (r : nat) : R :=
  Rsum (map (fun m => if covers m r then f (nodeAddr m) else 0) (subnodes n)).

(** The far field at element [r]: over the admissible pairs whose first
    side covers [r], the scalar of the pair times the upward sum of the
    second side. *)
Definition farField (t : BlockClusterTree) (v : VectorXd) (r : nat) : R :=
  Rsum (map (fun p => if covers (cluster1 p) r
                      then a_IJ t p * upwardSum (cluster2 p) v else 0)
            (admissiblePairs t)).

(** What the upward pass establishes on the subtree of a node: every node
    holds its upward sum, and nothing else has changed. *)
Definition upwardDone (v : VectorXd) (n : BVHNode3D) : Prop :=
  NoDup (addrs n) ->
  Forall (fun m => IsLeaf m = true -> children m = []) (subnodes n) ->
  forall s,
    (forall m, In m (subnodes n) -> V_I (SetVIs n v s) (nodeAddr m) = upwardSum m v)
    /\ (forall a, ~ In a (addrs n) -> V_I (SetVIs n v s) a = V_I s a)
    /\ B_I (SetVIs n v s) = B_I s
    /\ aIJ_VJ (SetVIs n v s) = aIJ_VJ s.

(** The body of the loop of [SetVIs] over the children of the node at
    address [a0]. *)
Definition upwardStep (v : VectorXd) (a0 : nat) (s : MVFields) (child : BVHNode3D)
    : MVFields :=
  let s' := SetVIs child v s in
  set_V_I s' a0 (V_I s' a0 + V_I s' (nodeAddr child)).

(** What the downward pass establishes on the subtree of a node: the
    output at the element of every leaf is the value handed down plus the
    pending contributions on the way, and nothing else has changed. *)
Definition downwardDone (n : BVHNode3D) : Prop :=
  NoDup (addrs n) ->
  Forall (fun m => IsLeaf m = true -> children m = []) (subnodes n) ->
  NoDup (leafIndices n) ->
  forall (parent_BI : R) (s : MVFields) (b : VectorXd),
    (forall r, In r (leafIndices n) ->
               snd (PropagateBIs n parent_BI (s, b)) r
               = parent_BI + pathSum (aIJ_VJ s) n r)
    /\ (forall r, ~ In r (leafIndices n) ->
                  snd (PropagateBIs n parent_BI (s, b)) r = b r)
    /\ (forall a, ~ In a (addrs n) ->
                  B_I (fst (PropagateBIs n parent_BI (s, b))) a = B_I s a)
    /\ V_I (fst (PropagateBIs n parent_BI (s, b))) = V_I s
    /\ aIJ_VJ (fst (PropagateBIs n parent_BI (s, b))) = aIJ_VJ s.

(** The loop of [PropagateBIs] over the children of the node at [a0]. *)
Definition propagateChildren (a0 : nat) (cs : list BVHNode3D)
    (sb : MVFields * VectorXd) : MVFields * VectorXd :=
  fold_left (fun sb child => PropagateBIs child (B_I (fst sb) a0) sb) cs sb.

(** ** A small instance: five unit segments on a line *)

Module Example.

Definition unitMass : nat -> R := fun _ => 1.
Definition noExtent : Vector3 -> Vector2 := fun _ => mkVector2 0 0.

(** The leaf of element [i], at address [a], centered at [(x, 0, 0)]. *)
Definition leaf (a i : nat) (x : R) : BVHNode3D :=
  mkBVHNode3D a 1 [] (mkVector3 x 0 0) 1 true i [i] [1] noExtent unitMass.

Definition inner (a : nat) (cs : list BVHNode3D) (x : R) (idx : list nat)
    : BVHNode3D :=
  mkBVHNode3D a (Z.of_nat (length idx)) cs (mkVector3 x 0 0) (INR (length idx))
    false O idx (map unitMass idx) noExtent unitMass.

Definition L0 : BVHNode3D := leaf 0 0 (1 / 2).
Definition L1 : BVHNode3D := leaf 1 1 (3 / 2).
Definition L2 : BVHNode3D := leaf 2 2 (5 / 2).
Definition L3 : BVHNode3D := leaf 3 3 (7 / 2).
Definition L4 : BVHNode3D := leaf 4 4 (9 / 2).
Definition A1 : BVHNode3D := inner 5 [L0; L1] 1 [0; 1]%nat.
Definition A : BVHNode3D := inner 6 [A1; L2] (3 / 2) [0; 1; 2]%nat.
Definition B : BVHNode3D := inner 7 [L3; L4] 4 [3; 4]%nat.
Definition root : BVHNode3D := inner 8 [A; B] (5 / 2) [0; 1; 2; 3; 4]%nat.

(** The points 0..5 of one open curve, point [k] at [(k, 0, 0)]. *)
Definition curve : PolyCurveGroup :=
  mkPolyCurveGroup 5
    (fun i => mkPointOnCurve 0 i)
    (fun p => mkPointOnCurve (pCurve p) (S (pIndex p)))
    (fun p => mkVector3 (INR (pIndex p)) 0 0).

Definition AA : ClusterPair := mkClusterPair A A.
Definition AB : ClusterPair := mkClusterPair A B.
Definition BA : ClusterPair := mkClusterPair B A.
Definition BB : ClusterPair := mkClusterPair B B.

(** The tree the constructor builds for separation coefficient 1 and the
    exponents alpha = 2, beta = 4. *)
Definition tree : BlockClusterTree :=
  mkBlockClusterTree curve root 2 4 1 0 5 false MatrixOnly [AB; BA] [] [AA; BB].

(** Two leaves at different addresses with one center of mass. *)
Definition twin1 : BVHNode3D := leaf 10 0 1.
Definition twin2 : BVHNode3D := leaf 11 1 1.
Definition twins : ClusterPair := mkClusterPair twin1 twin2.

Definition zeroFields : MVFields :=
  mkMVFields (fun _ => 0) (fun _ => 0) (fun _ => 0).

Definition unitX : Vector3 := mkVector3 1 0 0.

End Example.

(** ** Further notions: constant fields, counts that match the index lists *)

(** The field that is [u] at every element. *)
Definition constField (u : Vector3) : MatrixXd := fun _ => u.

(** A node without elements lists no index, all over the hierarchy. *)
Definition emptyNodesListNothing (root : BVHNode3D) : Prop :=
  Forall (fun n => NumElements n = 0%Z -> clusterIndices n = []) (subnodes root).

(** What holds of a pair the loop has stored as admissible, and as
    inadmissible, for the separation coefficient [theta]. *)
Definition storedAdmissible (theta : R) (p : ClusterPair) : Prop :=
  ~ someSideEmpty p /\ ~ bothSingletons p /\ ~ sameReference p
  /\ maxExtent p < theta * centroidDistance p.

Definition storedInadmissible (theta : R) (p : ClusterPair) : Prop :=
  ~ someSideEmpty p
  /\ (bothSingletons p \/ (isPairAdmissible p theta = false /\ smallEnoughInt p)).

(** More instances: a node without elements. *)
Module Instances.

Definition emptyNode : BVHNode3D :=
  mkBVHNode3D 20 0 [] (mkVector3 0 0 0) 0 false O [] [] Example.noExtent Example.unitMass.

(** A node of 2^30 elements with two children of 2^29 elements each (the
    lists of the elements are not read by the classifier and left out),
    and the pair of the node with itself. *)
Definition hugeChild (a : nat) : BVHNode3D :=
  mkBVHNode3D a 536870912 [] (mkVector3 0 0 0) 0 false O [] []
    Example.noExtent Example.unitMass.

Definition hugeNode : BVHNode3D :=
  mkBVHNode3D 30 1073741824 [hugeChild 31; hugeChild 32] (mkVector3 0 0 0) 0 false O [] []
    Example.noExtent Example.unitMass.

Definition hugePair : ClusterPair := mkClusterPair hugeNode hugeNode.

End Instances.

(** ** The quadratic form of the operator *)

Definition dot (a b : Vector3) : R := vx a * vx b + vy a * vy b + vz a * vz b.

(** The sum over the rows 0..N-1 of input row times output row. *)
Definition energy (N : nat) (v_hat out : MatrixXd) : R :=
  Rsum (map (fun r => dot (v_hat r) (out r)) (seq 0 N)).

(** Squared distance of the input at two elements. *)
Definition sqDist (v_hat : MatrixXd) (i j : nat) : R :=
  dot (Vec.sub (v_hat i) (v_hat j)) (Vec.sub (v_hat i) (v_hat j)).

(** The sum of [f i j] over the index block of a pair. *)
Definition blockSum (f : nat -> nat -> R) (p : ClusterPair) : R :=
  Rsum (map (fun i => Rsum (map (fun j => f i j) (clusterIndices (cluster2 p))))
            (clusterIndices (cluster1 p))).

(** ** The accuracy validator: [AfFullBlock], [AfApproxBlock], [CompareBlocks] *)

(** Modelled from the spec: [VertexBody6D] is not in src/; a constituent of
    a cluster with its position ([pt.position]), its mass and the index of
    its element ([vertIndex1]). *)
Record VertexBody6D : Type := mkVertexBody6D {
  pt_position : Vector3;
  mass : R;
  vertIndex1 : nat
}.

(** A dense block, row by row, and [block(i, j)] (0 outside the block). *)
Definition Block : Type := list (list R).

Definition entry (B : Block) (i j : nat) : R := nth j (nth i B []) 0.

(** [B.norm()]: the Frobenius norm. *)
Definition sumSquares (B : Block) : R := Rsum (map (fun x => x * x) (concat B)).
Definition blockNorm (B : Block) : R := sqrt (sumSquares B).

(** [B1 - B2] for two blocks of one shape. *)
Definition blockSub (B1 B2 : Block) : Block :=
  map (fun rows => map (fun xy => fst xy - snd xy) (combine (fst rows) (snd rows)))
      (combine B1 B2).

(** What [CompareBlocks] prints at its end, and the pairs it has printed on
    the way; the quotient of the last line is [DivideByZero] when the total
    norm is zero. *)
Record Report : Type := mkReport {
  printedPairs : list ClusterPair;
  totalError : R;
  totalNorm : R;
  totalRelative : checked R
}.

Section Validator.

(** Modelled from the spec: [accumulateChildren] of the hierarchy is not in
    src/; it gives the constituents of a cluster. *)
Variable accumulateChildren : BVHNode3D -> list VertexBody6D.

Definition AfFullBlock (t : BlockClusterTree) (pair : ClusterPair) : Block :=
  let children1 := accumulateChildren (cluster1 pair) in
  let children2 := accumulateChildren (cluster2 pair) in
  let pow_s := beta t - alpha t in
  map (fun bi =>
         map (fun bj =>
                let p1 := GetCurvePoint (curves t) (vertIndex1 bi) in
                let p2 := GetCurvePoint (curves t) (vertIndex1 bj) in
                let w_i := mass bi in
                let w_j := mass bj in
                let c_i := pt_position bi in
                let c_j := pt_position bj in
                if isNeighbors (curves t) p1 p2 then 0
                else - w_i * w_j / pow (norm (Vec.sub c_i c_j)) pow_s)
             children2)
      children1.

Definition AfApproxBlock (t : BlockClusterTree) (pair : ClusterPair) : Block :=
  let children1 := accumulateChildren (cluster1 pair) in
  let children2 := accumulateChildren (cluster2 pair) in
  let wf_i := map mass children1 in
  let wf_j := map mass children2 in
  let a := a_IJ t pair in
  map (fun wi => map (fun wj => - wi * a * wj) wf_j) wf_i.

(** [fullBlock - approxBlock] of the second loop. *)
Definition diffBlock (t : BlockClusterTree) (pair : ClusterPair) : Block :=
  blockSub (AfFullBlock t pair) (AfApproxBlock t pair).

(** [relative > 50] for [relative = 100 * normDiff / normFull]: with a zero
    divisor the quotient of the code is infinite for a positive dividend
    (the pair is printed) and not a number for a zero one (it is not). *)
Definition exceedsHalf (normDiff normFull : R) : bool :=
  match div_checked (100 * normDiff) normFull with
  | Ok relative => Rltb 50 relative
  | DivideByZero => Rltb 0 normDiff
  end.

(** The first loop: the squared norms of the inadmissible blocks. *)
Definition inadmissibleNorms (t : BlockClusterTree) : R :=
  fold_left
    (fun totalNorm pair =>
       let fullBlock := AfFullBlock t pair in
       let normFull := blockNorm fullBlock in
       totalNorm + normFull * normFull)
    (inadmissiblePairs t) 0.

(** The second loop, on the printed pairs, [totalError] and [totalNorm]. *)
Definition compareAdmissible (t : BlockClusterTree)
    (acc : list ClusterPair * R * R) (pair : ClusterPair) : list ClusterPair * R * R :=
  let '(printed, totalError, totalNorm) := acc in
  let fullBlock := AfFullBlock t pair in
  let approxBlock := AfApproxBlock t pair in
  let normFull := blockNorm fullBlock in
  let normDiff := blockNorm (blockSub fullBlock approxBlock) in
  let printed' := if exceedsHalf normDiff normFull then printed ++ [pair] else printed in
  (printed', totalError + normDiff * normDiff, totalNorm + normFull * normFull).

Definition CompareBlocks (t : BlockClusterTree) : Report :=
  let '(printed, totalError, totalNorm) :=
    fold_left (compareAdmissible t) (admissiblePairs t) ([], 0, inadmissibleNorms t) in
  let totalError := sqrt totalError in
  let totalNorm := sqrt totalNorm in
  mkReport printed totalError totalNorm (div_checked (100 * totalError) totalNorm).

End Validator.

(** A constituent that stands for the segment of its element: its mass is
    the length of the segment and its position the midpoint. *)
Definition bodyOfElement (cg : PolyCurveGroup) (b : VertexBody6D) : Prop :=
  mass b = segmentLength cg (vertIndex1 b)
  /\ pt_position b = segmentMidpoint cg (vertIndex1 b).

(** The constituents of a node of the instance: one per listed element,
    of unit mass, at the midpoint of its segment. *)
Definition elementBodies (n : BVHNode3D) : list VertexBody6D :=
  map (fun i => mkVertexBody6D (segmentMidpoint Example.curve i) 1 i) (clusterIndices n).

(** The viewspace extents of the nodes of a hierarchy are never negative,
    from whatever point they are seen. *)
Definition nonnegativeExtents (root : BVHNode3D) : Prop :=
  Forall (fun n => forall c : Vector3,
                     0 <= v2x (viewspaceBounds n c) /\ 0 <= v2y (viewspaceBounds n c))
         (subnodes root).

(** ** The quadratic form of the monopole product *)

(** The sum of [f k l] over the positions of the two mass vectors of a
    pair. *)
Definition positionSum (f : nat -> nat -> R) (p : ClusterPair) : R :=
  Rsum (map (fun k => Rsum (map (fun l => f k l)
                                (seq 0 (length (clusterMasses (cluster2 p))))))
            (seq 0 (length (clusterMasses (cluster1 p))))).

(** The entry the monopole product applies at the positions [k] and [l] of
    a pair, [wf_i[k] * a_IJ * wf_j[l]], and the squared distance of the
    input at the elements of the two positions. *)
Definition monopoleEntry (t : BlockClusterTree) (p : ClusterPair) (k l : nat) : R :=
  massAt (clusterMasses (cluster1 p)) k * a_IJ t p * massAt (clusterMasses (cluster2 p)) l.

Definition sqDistAt (v_hat : MatrixXd) (p : ClusterPair) (k l : nat) : R :=
  sqDist v_hat (indexAt (clusterIndices (cluster1 p)) k)
               (indexAt (clusterIndices (cluster2 p)) l).

(** No node of the hierarchy holds a negative mass in its mass vector. *)
Definition nonnegativeMasses (root : BVHNode3D) : Prop :=
  Forall (fun n => Forall (fun w => 0 <= w) (clusterMasses n)) (subnodes root).

(** ** Facts about the classifier *)

Lemma childPairs_product (pair : ClusterPair) :
  childPairs pair = childrenProduct pair.
Proof.
  unfold childPairs, childrenProduct.
  induction (children (cluster1 pair)) as [|c cs IH]; simpl; [reflexivity|].
  rewrite map_app, map_map, IH. reflexivity.
Qed.

Lemma splitBody_ruleOf (t : BlockClusterTree) (nextPairs : list ClusterPair)
    (pair : ClusterPair) :
  splitBody (t, nextPairs) pair
  = ruleEffect (ruleOf (separationCoeff t) pair) t nextPairs pair.
Proof.
  unfold splitBody, ruleOf, hasEmptySide.
  destruct (_ || _)%bool; [reflexivity|].
  destruct (_ && _)%bool; [reflexivity|].
  destruct (isPairAdmissible _ _); [reflexivity|].
  destruct (isPairSmallEnough _); [reflexivity|].
  simpl. rewrite childPairs_product. reflexivity.
Qed.

Lemma hasEmptySide_iff (pair : ClusterPair) :
  hasEmptySide pair = true <-> someSideEmpty pair.
Proof.
  unfold hasEmptySide, someSideEmpty.
  rewrite orb_true_iff, !Z.eqb_eq. tauto.
Qed.

Lemma wrapInt_fits (z : Z) : fitsInt z -> wrapInt z = z.
Proof.
  unfold fitsInt, wrapInt, INT_MIN, INT_MAX. intros H.
  rewrite Z.mod_small by lia. lia.
Qed.

Lemma isPairSmallEnough_iff (pair : ClusterPair) :
  isPairSmallEnough pair = true <-> smallEnoughInt pair.
Proof.
  unfold isPairSmallEnough, smallEnoughInt. cbv zeta.
  rewrite !orb_true_iff, !Z.leb_le. tauto.
Qed.

Lemma smallEnoughInt_fits (pair : ClusterPair) :
  countsFitInt pair -> (smallEnoughInt pair <-> smallEnough pair).
Proof.
  unfold countsFitInt, smallEnoughInt, smallEnough. intros H.
  rewrite (wrapInt_fits _ H). tauto.
Qed.

Lemma ruleOf_applies (theta : R) (pair : ClusterPair) :
  countsFitInt pair ->
  appliesRule theta pair (ruleOf theta pair).
Proof.
  intros Hfit. unfold ruleOf.
  destruct (hasEmptySide pair) eqn:He.
  { apply rule1, hasEmptySide_iff, He. }
  assert (Hne : ~ someSideEmpty pair).
  { rewrite <- hasEmptySide_iff, He. discriminate. }
  destruct (_ && _)%bool eqn:Hs.
  { apply rule2; [exact Hne|].
    apply andb_true_iff in Hs. rewrite !Z.eqb_eq in Hs. exact Hs. }
  assert (Hns : ~ bothSingletons pair).
  { unfold bothSingletons. rewrite <- !Z.eqb_eq, <- andb_true_iff, Hs. discriminate. }
  destruct (isPairAdmissible pair theta) eqn:Ha.
  { apply rule3; assumption. }
  destruct (isPairSmallEnough pair) eqn:Hm.
  - apply rule4; try assumption.
    apply (smallEnoughInt_fits pair Hfit), isPairSmallEnough_iff, Hm.
  - apply rule5; try assumption.
    rewrite <- (smallEnoughInt_fits pair Hfit), <- isPairSmallEnough_iff, Hm. discriminate.
Qed.

Lemma appliesRule_deterministic (theta : R) (pair : ClusterPair) (r r' : Rule) :
  appliesRule theta pair r -> appliesRule theta pair r' -> r = r'.
Proof.
  intros H H'. destruct H; destruct H'; try reflexivity; try contradiction; congruence.
Qed.

(** *** One round of [splitInadmissibleNodes] *)

Lemma set_pairs_same (t : BlockClusterTree) :
  set_pairs t (admissiblePairs t) (unresolvedPairs t) (inadmissiblePairs t) = t.
Proof. destruct t; reflexivity. Qed.

Lemma fold_splitBody (ps : list ClusterPair) :
  forall (t : BlockClusterTree) (nextPairs : list ClusterPair),
    fold_left splitBody ps (t, nextPairs)
    = (set_pairs t
         (admissiblePairs t ++ filter (goesAdmissible (separationCoeff t)) ps)
         (unresolvedPairs t)
         (inadmissiblePairs t ++ filter (goesInadmissible (separationCoeff t)) ps),
       nextPairs ++ flat_map childrenProduct (filter (goesSubdivide (separationCoeff t)) ps)).
Proof.
  induction ps as [|p ps IH]; intros t nextPairs; cbn [fold_left filter flat_map].
  - rewrite !app_nil_r, set_pairs_same. reflexivity.
  - rewrite splitBody_ruleOf.
    unfold goesAdmissible, goesInadmissible, goesSubdivide.
    destruct (ruleOf (separationCoeff t) p) eqn:Hr; cbn [ruleEffect]; rewrite IH;
      unfold goesAdmissible, goesInadmissible, goesSubdivide; simpl;
      rewrite <- ?app_assoc; reflexivity.
Qed.

Lemma split_admissible (t : BlockClusterTree) :
  admissiblePairs (splitInadmissibleNodes t)
  = admissiblePairs t ++ filter (goesAdmissible (separationCoeff t)) (unresolvedPairs t).
Proof. unfold splitInadmissibleNodes. rewrite fold_splitBody. reflexivity. Qed.

Lemma split_inadmissible (t : BlockClusterTree) :
  inadmissiblePairs (splitInadmissibleNodes t)
  = inadmissiblePairs t ++ filter (goesInadmissible (separationCoeff t)) (unresolvedPairs t).
Proof. unfold splitInadmissibleNodes. rewrite fold_splitBody. reflexivity. Qed.

Lemma split_unresolved (t : BlockClusterTree) :
  unresolvedPairs (splitInadmissibleNodes t)
  = flat_map childrenProduct (filter (goesSubdivide (separationCoeff t)) (unresolvedPairs t)).
Proof. unfold splitInadmissibleNodes. rewrite fold_splitBody. reflexivity. Qed.

Lemma split_params (t : BlockClusterTree) :
  separationCoeff (splitInadmissibleNodes t) = separationCoeff t
  /\ tree_root (splitInadmissibleNodes t) = tree_root t
  /\ curves (splitInadmissibleNodes t) = curves t
  /\ alpha (splitInadmissibleNodes t) = alpha t
  /\ beta (splitInadmissibleNodes t) = beta t.
Proof. unfold splitInadmissibleNodes. rewrite fold_splitBody. simpl. tauto. Qed.

Lemma in_childrenProduct (pair q : ClusterPair) :
  In q (childrenProduct pair) <->
  In (cluster1 q) (children (cluster1 pair)) /\ In (cluster2 q) (children (cluster2 pair)).
Proof.
  unfold childrenProduct. rewrite in_map_iff. split.
  - intros [[a b] [<- Hin]]. apply in_prod_iff in Hin. exact Hin.
  - intros [H1 H2]. exists (cluster1 q, cluster2 q). split.
    + destruct q; reflexivity.
    + apply in_prod_iff. split; assumption.
Qed.

Lemma in_split_unresolved (t : BlockClusterTree) (q : ClusterPair) :
  In q (unresolvedPairs (splitInadmissibleNodes t)) <->
  exists p, In p (unresolvedPairs t)
            /\ ruleOf (separationCoeff t) p = Subdivide
            /\ In (cluster1 q) (children (cluster1 p))
            /\ In (cluster2 q) (children (cluster2 p)).
Proof.
  rewrite split_unresolved, in_flat_map. split.
  - intros [p [Hp Hq]]. apply filter_In in Hp. destruct Hp as [Hp Hr].
    exists p. apply in_childrenProduct in Hq. repeat split; try tauto.
    unfold goesSubdivide in Hr. destruct (ruleOf _ p); try discriminate. reflexivity.
  - intros [p [Hp [Hr Hq]]]. exists p. split.
    + apply filter_In. split; [exact Hp|]. unfold goesSubdivide. rewrite Hr. reflexivity.
    + apply in_childrenProduct. exact Hq.
Qed.

(** *** Nodes of a subtree *)

Lemma subnodes_unfold (n : BVHNode3D) :
  subnodes n = n :: flat_map subnodes (children n).
Proof. destruct n; reflexivity. Qed.

Lemma subnodes_self (n : BVHNode3D) : In n (subnodes n).
Proof. rewrite subnodes_unfold. left. reflexivity. Qed.

Lemma subnodes_child (n c : BVHNode3D) :
  In c (children n) -> incl (subnodes c) (subnodes n).
Proof.
  intros Hc m Hm. rewrite (subnodes_unfold n). right.
  apply in_flat_map. exists c. split; assumption.
Qed.

Lemma Forall_subnodes_child (P : BVHNode3D -> Prop) (n c : BVHNode3D) :
  In c (children n) -> Forall P (subnodes n) -> Forall P (subnodes c).
Proof.
  intros Hc H. apply Forall_forall. intros m Hm.
  rewrite Forall_forall in H. apply H. eapply subnodes_child; eassumption.
Qed.

Lemma Forall_subnodes_self (P : BVHNode3D -> Prop) (n : BVHNode3D) :
  Forall P (subnodes n) -> P n.
Proof. intros H. rewrite Forall_forall in H. apply H, subnodes_self. Qed.

(** *** Termination of the classification loop *)

Lemma classifyLoop_unresolved (fuel : nat) :
  forall t t', classifyLoop fuel t = Some t' -> unresolvedPairs t' = [].
Proof.
  induction fuel as [|fuel IH]; intros t t' H; simpl in H.
  - destruct (unresolvedPairs t) eqn:Hu; [|discriminate]. congruence.
  - destruct (unresolvedPairs t) eqn:Hu; [congruence|]. eapply IH, H.
Qed.

Lemma classifyLoop_more_fuel (fuel : nat) :
  forall t t' extra, classifyLoop fuel t = Some t' ->
                     classifyLoop (fuel + extra) t = Some t'.
Proof.
  induction fuel as [|fuel IH]; intros t t' extra H; simpl in H.
  - destruct (unresolvedPairs t) eqn:Hu; [|discriminate].
    destruct extra; simpl; rewrite Hu; exact H.
  - simpl. destruct (unresolvedPairs t) eqn:Hu; [exact H|]. apply IH, H.
Qed.

Lemma ruleOf_subdivide_sizes (theta : R) (p : ClusterPair) :
  ruleOf theta p = Subdivide ->
  (2 <= NumElements (cluster1 p) /\ 2 <= NumElements (cluster2 p)
   /\ 8 < NumElements (cluster1 p) + NumElements (cluster2 p))%Z.
Proof.
  unfold ruleOf. destruct (hasEmptySide p); [discriminate|].
  destruct (_ && _)%bool; [discriminate|].
  destruct (isPairAdmissible p theta); [discriminate|].
  destruct (isPairSmallEnough p) eqn:Hm; [discriminate|]. intros _.
  assert (Hn : ~ smallEnoughInt p).
  { rewrite <- isPairSmallEnough_iff, Hm. discriminate. }
  unfold smallEnoughInt in Hn.
  assert (H1 : (2 <= NumElements (cluster1 p))%Z) by lia.
  assert (H2 : (2 <= NumElements (cluster2 p))%Z) by lia.
  split; [exact H1|]. split; [exact H2|].
  destruct (Z_lt_le_dec 8 (NumElements (cluster1 p) + NumElements (cluster2 p)))
    as [Hlt|Hle]; [exact Hlt|].
  rewrite wrapInt_fits in Hn by (unfold fitsInt, INT_MIN, INT_MAX; lia). lia.
Qed.

Lemma split_shrinksBelow (t : BlockClusterTree) (m : Z) :
  Forall (shrinksBelow m) (unresolvedPairs t) ->
  Forall (shrinksBelow (m - 1)) (unresolvedPairs (splitInadmissibleNodes t)).
Proof.
  intros H. apply Forall_forall. intros q Hq.
  apply in_split_unresolved in Hq. destruct Hq as [p [Hp [_ [Hc _]]]].
  rewrite Forall_forall in H. destruct (H p Hp) as [Hs Hm]. split.
  - eapply Forall_subnodes_child; eassumption.
  - apply Forall_subnodes_self in Hs. rewrite Forall_forall in Hs.
    specialize (Hs _ Hc). lia.
Qed.

Lemma split_last_round (t : BlockClusterTree) :
  Forall (shrinksBelow 1) (unresolvedPairs t) ->
  unresolvedPairs (splitInadmissibleNodes t) = [].
Proof.
  intros H. destruct (unresolvedPairs (splitInadmissibleNodes t)) as [|q qs] eqn:Hu;
    [reflexivity|].
  assert (Hq : In q (unresolvedPairs (splitInadmissibleNodes t))) by (rewrite Hu; left; reflexivity).
  apply in_split_unresolved in Hq. destruct Hq as [p [Hp [Hr _]]].
  rewrite Forall_forall in H. destruct (H p Hp) as [_ Hm].
  apply ruleOf_subdivide_sizes in Hr. lia.
Qed.

Lemma classifyLoop_terminates (k : nat) :
  forall t, Forall (shrinksBelow (Z.of_nat k + 1)) (unresolvedPairs t) ->
            exists t', classifyLoop (S k) t = Some t'.
Proof.
  induction k as [|k IH]; intros t H.
  - simpl. destruct (unresolvedPairs t) eqn:Hu; [eexists; reflexivity|].
    rewrite <- Hu in H. rewrite (split_last_round t H). eexists; reflexivity.
  - change (classifyLoop (S (S k)) t)
      with (match unresolvedPairs t with
            | [] => Some t
            | _ :: _ => classifyLoop (S k) (splitInadmissibleNodes t)
            end).
    destruct (unresolvedPairs t) eqn:Hu; [eexists; reflexivity|].
    rewrite <- Hu in H. apply IH.
    apply split_shrinksBelow in H.
    replace (Z.of_nat k + 1)%Z with (Z.of_nat (S k) + 1 - 1)%Z by lia. exact H.
Qed.

(** In this model a hierarchy is a finite tree, so the loop ends on every
    hierarchy: the height of the first sides goes down with every round. *)

Lemma height_unfold (n : BVHNode3D) :
  height n = S (list_max (map height (children n))).
Proof. destruct n; reflexivity. Qed.

Lemma height_child (n c : BVHNode3D) : In c (children n) -> (height c < height n)%nat.
Proof.
  intros Hc. rewrite (height_unfold n).
  assert (H : (list_max (map height (children n)) <= list_max (map height (children n)))%nat)
    by lia.
  apply list_max_le in H. rewrite Forall_forall in H.
  specialize (H (height c) (in_map height _ _ Hc)). lia.
Qed.

Lemma split_height (t : BlockClusterTree) (k : nat) :
  Forall (fun p => (height (cluster1 p) <= S k)%nat) (unresolvedPairs t) ->
  Forall (fun p => (height (cluster1 p) <= k)%nat)
         (unresolvedPairs (splitInadmissibleNodes t)).
Proof.
  intros H. apply Forall_forall. intros q Hq.
  apply in_split_unresolved in Hq. destruct Hq as [p [Hp [_ [Hc _]]]].
  rewrite Forall_forall in H. specialize (H p Hp). cbv beta in H.
  pose proof (height_child _ _ Hc). lia.
Qed.

Lemma classifyLoop_total (k : nat) :
  forall t, Forall (fun p => (height (cluster1 p) <= k)%nat) (unresolvedPairs t) ->
            exists t', classifyLoop k t = Some t'.
Proof.
  induction k as [|k IH]; intros t H.
  - simpl. destruct (unresolvedPairs t) as [|p ps]; [eexists; reflexivity|].
    inversion H as [|? ? Hp _]; subst. rewrite height_unfold in Hp. lia.
  - simpl. destruct (unresolvedPairs t) eqn:Hu; [eexists; reflexivity|].
    rewrite <- Hu in H. apply IH, split_height, H.
Qed.

Lemma constructor_total (cg : PolyCurveGroup) (root : BVHNode3D) (sepCoeff a b e : R) :
  exists t, BlockClusterTree_new (height root) cg root sepCoeff a b e = Some t.
Proof.
  apply classifyLoop_total. simpl. constructor; [simpl; lia|constructor].
Qed.

(** ** The claims on the classifier *)

(** C4: every pair taken from the worklist whose combined element count is
    in the range of [int] is handled by the first of the five rules that
    applies, in the priority order empty side, two singletons, admissible,
    small enough (a side with at most one element, or at most eight
    elements together), subdivide.  Exactly one rule applies, and the loop
    body does what that rule says: it leaves tree and next worklist as they
    are, or returns the tree with the pair appended to the inadmissible or
    to the admissible collection and nothing else changed, or appends the
    full cartesian product of the children of the two sides to the next
    worklist. *)
Theorem C4_rules_in_priority_order
    (t : BlockClusterTree) (nextPairs : list ClusterPair) (pair : ClusterPair) :
  countsFitInt pair ->
  exists r : Rule,
    appliesRule (separationCoeff t) pair r
    /\ (forall r', appliesRule (separationCoeff t) pair r' -> r' = r)
    /\ splitBody (t, nextPairs) pair = ruleEffect r t nextPairs pair.
Proof.
  intros Hfit. exists (ruleOf (separationCoeff t) pair). split; [|split].
  - apply ruleOf_applies, Hfit.
  - intros r' Hr'.
    eapply appliesRule_deterministic; [exact Hr'|apply ruleOf_applies, Hfit].
  - apply splitBody_ruleOf.
Qed.

Lemma Rltb_true_iff (a b : R) : Rltb a b = true <-> a < b.
Proof. unfold Rltb. destruct (Rlt_dec a b); split; intros; try tauto; discriminate. Qed.

Lemma maxExtent_code (pair : ClusterPair) :
  Rmax (Rmax (v2x (viewspaceBounds (cluster1 pair) (centerOfMass (cluster2 pair))))
             (v2x (viewspaceBounds (cluster2 pair) (centerOfMass (cluster1 pair)))))
       (Rmax (v2y (viewspaceBounds (cluster1 pair) (centerOfMass (cluster2 pair))))
             (v2y (viewspaceBounds (cluster2 pair) (centerOfMass (cluster1 pair)))))
  = maxExtent pair.
Proof.
  unfold maxExtent. cbv zeta.
  set (a := v2x _). set (b := v2x _). set (c := v2y _). set (d := v2y _).
  unfold Rmax. repeat destruct (Rle_dec _ _); lra.
Qed.

Lemma isPairAdmissible_true_iff (pair : ClusterPair) (theta : R) :
  isPairAdmissible pair theta = true <->
  ~ sameReference pair /\ maxExtent pair < theta * centroidDistance pair.
Proof.
  unfold isPairAdmissible, sameReference, centroidDistance. cbv zeta.
  rewrite maxExtent_code.
  destruct (Nat.eqb_spec (nodeAddr (cluster1 pair)) (nodeAddr (cluster2 pair))) as [He|Hne].
  - split; [discriminate|]. intros [Hc _]. contradiction.
  - rewrite Rltb_true_iff. tauto.
Qed.

(** C5: the admissibility test answers true exactly when the two sides are
    distinct references and the largest viewspace extent of the two
    clusters, each seen from the other's center of mass, is strictly below
    theta times the distance of the centers; a cluster paired with itself is
    never admissible. *)
Theorem C5_admissibility_test (pair : ClusterPair) (theta : R) :
  (isPairAdmissible pair theta = true <->
     ~ sameReference pair /\ maxExtent pair < theta * centroidDistance pair)
  /\ (forall n : BVHNode3D, isPairAdmissible (mkClusterPair n n) theta = false).
Proof.
  split; [apply isPairAdmissible_true_iff|].
  intros n. unfold isPairAdmissible. simpl. rewrite Nat.eqb_refl. reflexivity.
Qed.

(** C9: in a hierarchy whose every child has strictly fewer elements than
    its parent the classification loop of the constructor terminates: as
    many rounds as the root has elements (and at least one) are enough and
    leave the worklist empty.  A pair is subdivided only when both sides
    have at least two elements and more than eight together, and every
    pair a subdivision generates has fewer elements on its first side. *)
Theorem C9_classification_terminates
    (cg : PolyCurveGroup) (root : BVHNode3D) (sepCoeff a b e : R) (fuel : nat) :
  shrinkingHierarchy root ->
  (1 <= fuel)%nat ->
  (NumElements root <= Z.of_nat fuel)%Z ->
  (exists t : BlockClusterTree,
     BlockClusterTree_new fuel cg root sepCoeff a b e = Some t
     /\ unresolvedPairs t = [])
  /\ (forall p : ClusterPair,
        ruleOf sepCoeff p = Subdivide ->
        (2 <= NumElements (cluster1 p) /\ 2 <= NumElements (cluster2 p)
         /\ 8 < NumElements (cluster1 p) + NumElements (cluster2 p))%Z)
  /\ (forall p q : ClusterPair,
        shrinkingHierarchy (cluster1 p) ->
        In q (childrenProduct p) ->
        (NumElements (cluster1 q) < NumElements (cluster1 p))%Z).
Proof.
  intros Hs Hf Hn. split; [|split].
  - destruct fuel as [|k]; [lia|].
    destruct (classifyLoop_terminates k (initialTree cg root sepCoeff a b e)) as [t Ht].
    + simpl. constructor; [|constructor]. split; [exact Hs|simpl; lia].
    + exists t. split; [exact Ht|]. eapply classifyLoop_unresolved, Ht.
  - intros p Hp. apply (ruleOf_subdivide_sizes sepCoeff p Hp).
  - intros p q Hp Hq. apply in_childrenProduct in Hq. destruct Hq as [Hq _].
    apply Forall_subnodes_self in Hp. rewrite Forall_forall in Hp. apply Hp, Hq.
Qed.

(** *** Counting the entries of the blocks *)

Lemma representations_app (ij : nat * nat) (ps qs : list ClusterPair) :
  representations ij (ps ++ qs) = (representations ij ps + representations ij qs)%nat.
Proof. unfold representations. rewrite flat_map_app, count_occ_app. reflexivity. Qed.

Lemma representations_cons (ij : nat * nat) (p : ClusterPair) (ps : list ClusterPair) :
  representations ij (p :: ps)
  = (count_occ index_pair_eq_dec (indexBlock p) ij + representations ij ps)%nat.
Proof. unfold representations. simpl. rewrite count_occ_app. reflexivity. Qed.

Lemma count_occ_row (x i j : nat) (l : list nat) :
  count_occ index_pair_eq_dec (map (fun y => (x, y)) l) (i, j)
  = if Nat.eq_dec x i then count_occ Nat.eq_dec l j else O.
Proof.
  induction l as [|y l IH]; simpl.
  - destruct (Nat.eq_dec x i); reflexivity.
  - rewrite IH. destruct (index_pair_eq_dec (x, y) (i, j)) as [He|Hne];
      destruct (Nat.eq_dec x i) as [Hx|Hx]; destruct (Nat.eq_dec y j) as [Hy|Hy];
      try reflexivity; try congruence.
Qed.

Lemma count_occ_list_prod (l1 l2 : list nat) (i j : nat) :
  count_occ index_pair_eq_dec (list_prod l1 l2) (i, j)
  = (count_occ Nat.eq_dec l1 i * count_occ Nat.eq_dec l2 j)%nat.
Proof.
  induction l1 as [|x l1 IH]; simpl; [reflexivity|].
  rewrite count_occ_app, count_occ_row, IH.
  destruct (Nat.eq_dec x i); lia.
Qed.

Lemma count_occ_flat_map_indices (cs : list BVHNode3D) (i : nat) :
  count_occ Nat.eq_dec (flat_map clusterIndices cs) i
  = list_sum (map (fun c => count_occ Nat.eq_dec (clusterIndices c) i) cs).
Proof.
  induction cs as [|c cs IH]; simpl; [reflexivity|].
  rewrite count_occ_app, IH. reflexivity.
Qed.

Lemma representations_childrenProduct (p : ClusterPair) (i j : nat) :
  representations (i, j) (childrenProduct p)
  = (count_occ Nat.eq_dec (flat_map clusterIndices (children (cluster1 p))) i
     * count_occ Nat.eq_dec (flat_map clusterIndices (children (cluster2 p))) j)%nat.
Proof.
  unfold childrenProduct.
  induction (children (cluster1 p)) as [|c cs IH]; [reflexivity|].
  cbn [list_prod flat_map]. rewrite map_app, representations_app, IH.
  rewrite count_occ_app, Nat.mul_add_distr_r. f_equal.
  rewrite map_map. cbn [fst snd]. clear IH.
  induction (children (cluster2 p)) as [|d ds IHd];
    [unfold representations; simpl; lia|].
  cbn [map flat_map]. rewrite representations_cons, IHd.
  unfold indexBlock. cbn [cluster1 cluster2].
  rewrite count_occ_list_prod, count_occ_app. lia.
Qed.

Lemma representations_subdivide (theta : R) (p : ClusterPair) (ij : nat * nat) :
  partitionedHierarchy (cluster1 p) -> partitionedHierarchy (cluster2 p) ->
  ruleOf theta p = Subdivide ->
  representations ij (childrenProduct p) = count_occ index_pair_eq_dec (indexBlock p) ij.
Proof.
  intros H1 H2 Hr. destruct ij as [i j].
  apply ruleOf_subdivide_sizes in Hr. destruct Hr as [Hs1 [Hs2 _]].
  apply Forall_subnodes_self in H1. apply Forall_subnodes_self in H2.
  rewrite representations_childrenProduct. unfold indexBlock.
  rewrite count_occ_list_prod.
  rewrite (proj1 (Permutation_count_occ Nat.eq_dec _ _) (H1 Hs1) i).
  rewrite (proj1 (Permutation_count_occ Nat.eq_dec _ _) (H2 Hs2) j).
  reflexivity.
Qed.

Lemma hasEmptySide_ruleOf (theta : R) (p : ClusterPair) :
  hasEmptySide p = isRule (ruleOf theta p) Drop.
Proof.
  unfold ruleOf. destruct (hasEmptySide p); [reflexivity|].
  destruct (_ && _)%bool; [reflexivity|].
  destruct (isPairAdmissible p theta); [reflexivity|].
  destruct (isPairSmallEnough p); reflexivity.
Qed.

(** One round keeps every entry: what the worklist represented is now in the
    next worklist, in what the round stored, or in what it dropped. *)
Lemma representations_round (theta : R) (ij : nat * nat) (ps : list ClusterPair) :
  Forall bothPartitioned ps ->
  representations ij ps
  = (representations ij (flat_map childrenProduct (filter (goesSubdivide theta) ps))
     + representations ij (filter (goesAdmissible theta) ps)
     + representations ij (filter (goesInadmissible theta) ps)
     + representations ij (filter hasEmptySide ps))%nat.
Proof.
  induction 1 as [|p ps [H1 H2] _ IH]; [reflexivity|].
  rewrite representations_cons, IH. cbn [filter].
  unfold goesSubdivide, goesAdmissible, goesInadmissible.
  pose proof (representations_subdivide theta p ij H1 H2) as Hsub.
  rewrite (hasEmptySide_ruleOf theta p).
  destruct (ruleOf theta p); cbn [isRule orb flat_map];
    rewrite ?representations_app, ?representations_cons, ?Hsub by reflexivity; lia.
Qed.

Lemma split_bothPartitioned (t : BlockClusterTree) :
  Forall bothPartitioned (unresolvedPairs t) ->
  Forall bothPartitioned (unresolvedPairs (splitInadmissibleNodes t)).
Proof.
  intros H. apply Forall_forall. intros q Hq.
  apply in_split_unresolved in Hq. destruct Hq as [p [Hp [_ [Hc1 Hc2]]]].
  rewrite Forall_forall in H. destruct (H p Hp) as [H1 H2].
  split; eapply Forall_subnodes_child; eassumption.
Qed.

Lemma representations_loop (ij : nat * nat) (fuel : nat) :
  forall t t',
    classifyLoop fuel t = Some t' ->
    Forall bothPartitioned (unresolvedPairs t) ->
    (representations ij (unresolvedPairs t)
     + representations ij (admissiblePairs t)
     + representations ij (inadmissiblePairs t)
     = representations ij (admissiblePairs t')
       + representations ij (inadmissiblePairs t')
       + representations ij (droppedPairs fuel t))%nat.
Proof.
  induction fuel as [|fuel IH]; intros t t' Hloop Hp; simpl in Hloop |- *.
  - destruct (unresolvedPairs t) eqn:Hu; [|discriminate].
    injection Hloop as <-. unfold representations at 1 6. simpl. lia.
  - destruct (unresolvedPairs t) eqn:Hu.
    + injection Hloop as <-. unfold representations at 1 6. simpl. lia.
    + rewrite <- Hu in *. clear Hu.
      specialize (IH _ _ Hloop (split_bothPartitioned t Hp)).
      rewrite split_unresolved, split_admissible, split_inadmissible in IH.
      rewrite !representations_app in IH. rewrite representations_app.
      rewrite (representations_round (separationCoeff t) ij _ Hp). lia.
Qed.

Lemma droppedPairs_empty_side (fuel : nat) :
  forall t, Forall (fun p => hasEmptySide p = true) (droppedPairs fuel t).
Proof.
  induction fuel as [|fuel IH]; intros t; simpl.
  - destruct (unresolvedPairs t); constructor.
  - destruct (unresolvedPairs t) eqn:Hu; [constructor|]. rewrite <- Hu.
    apply Forall_app. split; [|apply IH].
    apply Forall_forall. intros p Hp. apply filter_In in Hp. tauto.
Qed.

(** C1: when the classification of a hierarchy with consistent index lists
    and pairwise different leaf indices terminates, every ordered pair
    (i, j) of leaf indices is represented in exactly one place: in the
    index block of one admissible pair, or of one inadmissible pair, or of
    one pair the loop dropped for an empty side.  So no entry is counted
    twice, neither inside one collection nor in both, and the pairs that
    dropped it all have a side without elements. *)
Theorem C1_blocks_partition_index_pairs
    (cg : PolyCurveGroup) (root : BVHNode3D) (sepCoeff a b e : R)
    (fuel : nat) (t : BlockClusterTree) (i j : nat) :
  BlockClusterTree_new fuel cg root sepCoeff a b e = Some t ->
  partitionedHierarchy root ->
  NoDup (clusterIndices root) ->
  In i (clusterIndices root) ->
  In j (clusterIndices root) ->
  let dropped := droppedPairs fuel (initialTree cg root sepCoeff a b e) in
  (representations (i, j) (admissiblePairs t)
   + representations (i, j) (inadmissiblePairs t)
   + representations (i, j) dropped = 1)%nat
  /\ Forall (fun p => someSideEmpty p) dropped
  /\ (representations (i, j) (admissiblePairs t) = 0
      \/ representations (i, j) (inadmissiblePairs t) = 0)%nat.
Proof.
  intros Hnew Hpart Hnd Hi Hj dropped.
  cut ((representations (i, j) (admissiblePairs t)
        + representations (i, j) (inadmissiblePairs t)
        + representations (i, j) dropped = 1)%nat
       /\ Forall (fun p => someSideEmpty p) dropped).
  { intros [H1 H2]. split; [exact H1|]. split; [exact H2|lia]. }
  split.
  - unfold dropped. rewrite <- (representations_loop (i, j) fuel _ _ Hnew).
    + unfold representations.
      cbn [initialTree unresolvedPairs admissiblePairs inadmissiblePairs flat_map
           count_occ].
      rewrite app_nil_r, !Nat.add_0_r.
      unfold indexBlock. cbn [cluster1 cluster2].
      rewrite count_occ_list_prod.
      rewrite (proj1 (NoDup_count_occ' Nat.eq_dec _) Hnd i Hi).
      rewrite (proj1 (NoDup_count_occ' Nat.eq_dec _) Hnd j Hj). reflexivity.
    + constructor; [|constructor]. split; exact Hpart.
  - eapply Forall_impl; [|apply droppedPairs_empty_side].
    intros p Hp. apply hasEmptySide_iff, Hp.
Qed.

(** ** Vectors and sums *)

Ltac vec :=
  unfold Vec.add, Vec.sub, Vec.scale, Vec.zero, Vec.divs, Vec.coord; simpl;
  try (f_equal; ring).

Ltac vec_fields :=
  unfold Vec.add, Vec.sub, Vec.scale, Vec.zero, Vec.divs; cbn [vx vy vz];
  f_equal; ring.

Lemma Vector3_eq (a b : Vector3) :
  vx a = vx b -> vy a = vy b -> vz a = vz b -> a = b.
Proof. destruct a, b; simpl; intros -> -> ->; reflexivity. Qed.

Lemma Vector3_coords (a b : Vector3) :
  (forall k, (k < 3)%nat -> Vec.coord k a = Vec.coord k b) -> a = b.
Proof.
  intros H. apply Vector3_eq.
  - apply (H 0%nat). lia.
  - apply (H 1%nat). lia.
  - apply (H 2%nat). lia.
Qed.

Lemma add_zero_r (a : Vector3) : Vec.add a Vec.zero = a.
Proof. destruct a; vec. Qed.

Lemma add_assoc (a b c : Vector3) : Vec.add (Vec.add a b) c = Vec.add a (Vec.add b c).
Proof. vec. Qed.

Lemma Rsum_app (l1 l2 : list R) : Rsum (l1 ++ l2) = Rsum l1 + Rsum l2.
Proof. induction l1 as [|x l1 IH]; simpl; [ring|rewrite IH; ring]. Qed.

Lemma Vsum_app (l1 l2 : list Vector3) : Vsum (l1 ++ l2) = Vec.add (Vsum l1) (Vsum l2).
Proof.
  induction l1 as [|x l1 IH]; simpl.
  - destruct (Vsum l2); vec.
  - rewrite IH, add_assoc. reflexivity.
Qed.

Lemma coord_Vsum (k : nat) (l : list Vector3) :
  Vec.coord k (Vsum l) = Rsum (map (Vec.coord k) l).
Proof.
  induction l as [|x l IH]; simpl.
  - destruct k as [|[|k]]; reflexivity.
  - rewrite <- IH. destruct k as [|[|k]]; reflexivity.
Qed.

Lemma Rsum_ext {A : Type} (f g : A -> R) (l : list A) :
  (forall x, In x l -> f x = g x) -> Rsum (map f l) = Rsum (map g l).
Proof.
  induction l as [|x l IH]; intros H; simpl; [reflexivity|].
  rewrite H by (left; reflexivity). rewrite IH; [reflexivity|].
  intros y Hy. apply H. right. exact Hy.
Qed.

Lemma Vsum_ext {A : Type} (f g : A -> Vector3) (l : list A) :
  (forall x, In x l -> f x = g x) -> Vsum (map f l) = Vsum (map g l).
Proof.
  induction l as [|x l IH]; intros H; simpl; [reflexivity|].
  rewrite H by (left; reflexivity). rewrite IH; [reflexivity|].
  intros y Hy. apply H. right. exact Hy.
Qed.

Lemma Rsum_scale {A : Type} (c : R) (f : A -> R) (l : list A) :
  Rsum (map (fun x => c * f x) l) = c * Rsum (map f l).
Proof. induction l as [|x l IH]; simpl; [ring|rewrite IH; ring]. Qed.

Lemma Rsum_plus {A : Type} (f g : A -> R) (l : list A) :
  Rsum (map (fun x => f x + g x) l) = Rsum (map f l) + Rsum (map g l).
Proof. induction l as [|x l IH]; simpl; [ring|rewrite IH; ring]. Qed.

Lemma Rsum_zero {A : Type} (l : list A) : Rsum (map (fun _ => 0) l) = 0.
Proof. induction l as [|x l IH]; simpl; [reflexivity|rewrite IH; ring]. Qed.

Lemma Vsum_zero {A : Type} (l : list A) : Vsum (map (fun _ => Vec.zero) l) = Vec.zero.
Proof. induction l as [|x l IH]; simpl; [reflexivity|rewrite IH; vec]. Qed.

(** A sum that picks the entries at one index of a list without
    repetition has a single term. *)
Lemma Vsum_pick (f : nat -> Vector3) (r : nat) (l : list nat) :
  NoDup l -> In r l ->
  Vsum (map (fun x => if Nat.eqb r x then f x else Vec.zero) l) = f r.
Proof.
  induction 1 as [|x l Hx Hnd IH]; intros Hin; [contradiction|]. simpl.
  destruct (Nat.eqb_spec r x) as [->|Hne].
  - rewrite (Vsum_ext _ (fun _ => Vec.zero)), Vsum_zero, add_zero_r; [reflexivity|].
    intros y Hy. destruct (Nat.eqb_spec x y) as [->|_]; [contradiction|reflexivity].
  - destruct Hin as [->|Hin]; [contradiction Hne; reflexivity|].
    rewrite IH by exact Hin. destruct (f r); vec.
Qed.

Lemma Vsum_skip (f : nat -> Vector3) (r : nat) (l : list nat) :
  ~ In r l ->
  Vsum (map (fun x => if Nat.eqb r x then f x else Vec.zero) l) = Vec.zero.
Proof.
  intros Hr. rewrite (Vsum_ext _ (fun _ => Vec.zero)), Vsum_zero; [reflexivity|].
  intros y Hy. destruct (Nat.eqb_spec r y) as [->|_]; [contradiction|reflexivity].
Qed.

(** *** Loops that add to rows *)

Lemma fold_left_ext {A B : Type} (f g : A -> B -> A) (l : list B) :
  (forall a b, f a b = g a b) -> forall a, fold_left f l a = fold_left g l a.
Proof.
  intros H. induction l as [|x l IH]; intros a; simpl; [reflexivity|].
  rewrite H. apply IH.
Qed.

Lemma AddToRow_fold {A : Type} (row : A -> nat) (val : A -> Vector3) (l : list A) :
  forall (b : MatrixXd) (r : nat),
    fold_left (fun res x => AddToRow res (row x) (val x)) l b r
    = Vec.add (b r) (Vsum (map (fun x => if Nat.eqb r (row x) then val x else Vec.zero) l)).
Proof.
  induction l as [|x l IH]; intros b r; simpl.
  - rewrite add_zero_r. reflexivity.
  - rewrite IH. unfold AddToRow at 1.
    destruct (Nat.eqb r (row x)); rewrite ?add_assoc; [reflexivity|].
    f_equal. destruct (Vsum _); vec.
Qed.

Lemma accumulate_fold {A : Type} (f : A -> R) (g : A -> Vector3) (l : list A) :
  forall (a : R) (b : Vector3),
    fold_left (fun acc x => (fst acc + f x, Vec.add (snd acc) (g x))) l (a, b)
    = (a + Rsum (map f l), Vec.add b (Vsum (map g l))).
Proof.
  induction l as [|x l IH]; intros a b; simpl.
  - rewrite add_zero_r. f_equal. ring.
  - rewrite IH. f_equal; [ring|apply add_assoc].
Qed.

Lemma fullRow_sums (t : BlockClusterTree) (pow_s : R) (pair : ClusterPair)
    (v_hat : MatrixXd) (i : nat) :
  fullRow t pow_s pair v_hat i
  = (Rsum (map (af_ij t pow_s i) (clusterIndices (cluster2 pair))),
     Vsum (map (fun j => Vec.scale (af_ij t pow_s i j) (v_hat j))
               (clusterIndices (cluster2 pair)))).
Proof.
  unfold fullRow.
  rewrite (accumulate_fold (af_ij t pow_s i)
             (fun j => Vec.scale (af_ij t pow_s i j) (SelectRow v_hat j))).
  unfold SelectRow. f_equal; [ring|]. destruct (Vsum _); vec.
Qed.

Lemma AfFullProduct_rows (t : BlockClusterTree) (pair : ClusterPair)
    (v_hat result : MatrixXd) (r : nat) :
  AfFullProduct t pair v_hat result r
  = Vec.add (result r)
      (Vsum (map (fun i => if Nat.eqb r i then fullContribution t pair v_hat i
                           else Vec.zero)
                 (clusterIndices (cluster1 pair)))).
Proof.
  unfold AfFullProduct. cbv zeta.
  rewrite (fold_left_ext _
    (fun res i => AddToRow res i (fullContribution t pair v_hat i))).
  - apply (AddToRow_fold (fun i => i)).
  - intros res i. rewrite fullRow_sums. reflexivity.
Qed.

Lemma Vsum_doubled_differences {A : Type} (f : A -> R) (g : A -> Vector3)
    (u : Vector3) (l : list A) :
  Vsum (map (fun j => Vec.scale 2 (Vec.sub (Vec.scale (f j) u) (Vec.scale (f j) (g j)))) l)
  = Vec.scale 2 (Vec.sub (Vec.scale (Rsum (map f l)) u)
                         (Vsum (map (fun j => Vec.scale (f j) (g j)) l))).
Proof.
  induction l as [|x l IH]; simpl.
  - vec.
  - rewrite IH. vec.
Qed.

Lemma point_eqb_eq (p q : PointOnCurve) : point_eqb p q = true <-> p = q.
Proof.
  unfold point_eqb. rewrite andb_true_iff, !Nat.eqb_eq.
  destruct p, q; simpl. split.
  - intros [-> ->]. reflexivity.
  - intros H. injection H as -> ->. split; reflexivity.
Qed.

Lemma isNeighbors_iff (cg : PolyCurveGroup) (i j : nat) :
  isNeighbors cg (GetCurvePoint cg i) (GetCurvePoint cg j) = true
  <-> shareEndpoint cg i j.
Proof.
  unfold isNeighbors, shareEndpoint, identicalOrAdjacent.
  rewrite !orb_true_iff, !point_eqb_eq. tauto.
Qed.

Lemma kernelEntry_shared (t : BlockClusterTree) (i j : nat) :
  shareEndpoint (curves t) i j -> kernelEntry t i j = 0.
Proof.
  intros H. apply isNeighbors_iff in H. unfold kernelEntry, af_ij. cbv zeta.
  rewrite H. reflexivity.
Qed.

Lemma kernelEntry_apart (t : BlockClusterTree) (i j : nat) :
  ~ shareEndpoint (curves t) i j ->
  kernelEntry t i j
  = segmentLength (curves t) i * segmentLength (curves t) j
    / pow (norm (Vec.sub (segmentMidpoint (curves t) i) (segmentMidpoint (curves t) j)))
          (beta t - alpha t).
Proof.
  intros H. rewrite <- isNeighbors_iff in H. unfold kernelEntry, af_ij. cbv zeta.
  destruct (isNeighbors _ _ _); [contradiction H; reflexivity|]. reflexivity.
Qed.

(** ** The claims on the products *)

(** C2: for a pair whose first side lists every element once, the exact
    product adds to the output row of an element i of that side exactly the
    sum over the elements j of the second side of
    2 (a(i,j) v(i) - a(i,j) v(j)), and leaves the rows of all other elements
    as they were.  The entry a(i,j) is fixed for every j: it is zero when
    the two segments have an end point in common, that is when the two
    elements are identical, or one follows the other (in either direction),
    or the two have the same next point; and it is
    l(i) l(j) / dist(mid(i), mid(j))^(beta - alpha) in every other case.
    On a curve where no two points have the same next point, the entry is
    zero exactly for identical or adjacent elements. *)
Theorem C2_exact_near_field
    (t : BlockClusterTree) (pair : ClusterPair) (v_hat result : MatrixXd) (i : nat) :
  NoDup (clusterIndices (cluster1 pair)) ->
  In i (clusterIndices (cluster1 pair)) ->
  AfFullProduct t pair v_hat result i
  = Vec.add (result i)
      (Vsum (map (fun j => Vec.scale 2
                    (Vec.sub (Vec.scale (kernelEntry t i j) (v_hat i))
                             (Vec.scale (kernelEntry t i j) (v_hat j))))
                 (clusterIndices (cluster2 pair))))
  /\ (forall r, ~ In r (clusterIndices (cluster1 pair)) ->
                AfFullProduct t pair v_hat result r = result r)
  /\ (forall j, identicalOrAdjacent (curves t) i j -> kernelEntry t i j = 0)
  /\ (forall j, Next (curves t) (GetCurvePoint (curves t) i)
                = Next (curves t) (GetCurvePoint (curves t) j) ->
                kernelEntry t i j = 0)
  /\ (forall j, ~ shareEndpoint (curves t) i j ->
                kernelEntry t i j
                = segmentLength (curves t) i * segmentLength (curves t) j
                  / pow (norm (Vec.sub (segmentMidpoint (curves t) i)
                                       (segmentMidpoint (curves t) j)))
                        (beta t - alpha t))
  /\ (forall j, shareEndpoint (curves t) i j \/ ~ shareEndpoint (curves t) i j)
  /\ ((forall p q, Next (curves t) p = Next (curves t) q -> p = q) ->
      forall j, shareEndpoint (curves t) i j <-> identicalOrAdjacent (curves t) i j).
Proof.
  intros Hnd Hin. split; [|split; [|split; [|split; [|split; [|split]]]]].
  - rewrite AfFullProduct_rows, Vsum_pick by assumption.
    unfold fullContribution. rewrite Vsum_doubled_differences. reflexivity.
  - intros r Hr. rewrite AfFullProduct_rows, Vsum_skip by assumption.
    apply add_zero_r.
  - intros j Hj. apply kernelEntry_shared. left. exact Hj.
  - intros j Hj. apply kernelEntry_shared. right. exact Hj.
  - intros j Hj. apply kernelEntry_apart, Hj.
  - intros j.
    destruct (isNeighbors (curves t) (GetCurvePoint (curves t) i)
                (GetCurvePoint (curves t) j)) eqn:Hn.
    + left. apply isNeighbors_iff, Hn.
    + right. rewrite <- isNeighbors_iff, Hn. discriminate.
  - intros Hinj j. unfold shareEndpoint. split; [|tauto].
    intros [H|H]; [exact H|]. left. apply Hinj, H.
Qed.

(** *** Closed forms of the direct products *)

Lemma massSum_Rsum (w : list R) : massSum w = Rsum w.
Proof.
  unfold massSum. assert (H : forall a, fold_left Rplus w a = a + Rsum w).
  { induction w as [|x w IH]; intros a; simpl; [ring|]. rewrite IH. ring. }
  rewrite H. ring.
Qed.

Lemma vector_fold {A : Type} (g : A -> Vector3) (l : list A) :
  forall b, fold_left (fun acc x => Vec.add acc (g x)) l b = Vec.add b (Vsum (map g l)).
Proof.
  induction l as [|x l IH]; intros b; simpl.
  - rewrite add_zero_r. reflexivity.
  - rewrite IH. apply add_assoc.
Qed.

Lemma AfApproxProduct_rows (t : BlockClusterTree) (pair : ClusterPair)
    (v_hat result : MatrixXd) (r : nat) :
  AfApproxProduct t pair v_hat result r
  = Vec.add (result r) (approxRowTotal t pair v_hat r).
Proof.
  unfold AfApproxProduct, approxRowTotal. cbv zeta.
  rewrite (fold_left_ext _
    (fun res k => AddToRow res (indexAt (clusterIndices (cluster1 pair)) k)
                    (approxContribution t pair v_hat k))).
  - apply AddToRow_fold.
  - intros res k. unfold approxContribution, weightedSum, SelectRow.
    rewrite vector_fold, massSum_Rsum. f_equal. f_equal. f_equal. f_equal.
    destruct (Vsum _); vec.
Qed.

Lemma AfFullProduct_rowTotal (t : BlockClusterTree) (pair : ClusterPair)
    (v_hat result : MatrixXd) (r : nat) :
  AfFullProduct t pair v_hat result r = Vec.add (result r) (fullRowTotal t pair v_hat r).
Proof. apply AfFullProduct_rows. Qed.

Lemma accumulating_fold {A : Type} (F : A -> MatrixXd -> MatrixXd)
    (C : A -> nat -> Vector3) (l : list A) :
  (forall x b r, F x b r = Vec.add (b r) (C x r)) ->
  forall b r, fold_left (fun b x => F x b) l b r
              = Vec.add (b r) (Vsum (map (fun x => C x r) l)).
Proof.
  intros HF. induction l as [|x l IH]; intros b r; simpl.
  - rewrite add_zero_r. reflexivity.
  - rewrite IH, HF. apply add_assoc.
Qed.

Lemma MultiplyAdmissible_rows (t : BlockClusterTree) (v_hat b_hat : MatrixXd) (r : nat) :
  MultiplyAdmissible t v_hat b_hat r
  = Vec.add (b_hat r)
            (Vsum (map (fun p => approxRowTotal t p v_hat r) (admissiblePairs t))).
Proof.
  unfold MultiplyAdmissible.
  apply (accumulating_fold (fun p b => AfApproxProduct t p v_hat b)
           (fun p r' => approxRowTotal t p v_hat r')).
  intros p b r'. apply AfApproxProduct_rows.
Qed.

Lemma MultiplyInadmissible_rows (t : BlockClusterTree) (v_hat b_hat : MatrixXd) (r : nat) :
  MultiplyInadmissible t v_hat b_hat r
  = Vec.add (b_hat r)
            (Vsum (map (fun p => fullRowTotal t p v_hat r) (inadmissiblePairs t))).
Proof.
  unfold MultiplyInadmissible.
  apply (accumulating_fold (fun p b => AfFullProduct t p v_hat b)
           (fun p r' => fullRowTotal t p v_hat r')).
  intros p b r'. apply AfFullProduct_rowTotal.
Qed.

(** *** Linearity of the direct products *)

Lemma Vsum_linear {A : Type} (c : R) (h f g : A -> Vector3) (l : list A) :
  (forall x, h x = Vec.add (f x) (Vec.scale c (g x))) ->
  Vsum (map h l) = Vec.add (Vsum (map f l)) (Vec.scale c (Vsum (map g l))).
Proof.
  intros H. induction l as [|x l IH]; simpl.
  - vec.
  - rewrite IH, H. vec.
Qed.

Lemma pick_linear (b : bool) (c : R) (x y : Vector3) :
  (if b then Vec.add x (Vec.scale c y) else Vec.zero)
  = Vec.add (if b then x else Vec.zero) (Vec.scale c (if b then y else Vec.zero)).
Proof. destruct b; [reflexivity|vec]. Qed.

Lemma fullContribution_linear (t : BlockClusterTree) (pair : ClusterPair)
    (v1 v2 : MatrixXd) (c : R) (i : nat) :
  fullContribution t pair (axpy v1 c v2) i
  = Vec.add (fullContribution t pair v1 i) (Vec.scale c (fullContribution t pair v2 i)).
Proof.
  unfold fullContribution.
  rewrite (Vsum_linear c _
             (fun j => Vec.scale (kernelEntry t i j) (v1 j))
             (fun j => Vec.scale (kernelEntry t i j) (v2 j))).
  - unfold axpy. vec.
  - intros j. unfold axpy. vec.
Qed.

Lemma fullRowTotal_linear (t : BlockClusterTree) (pair : ClusterPair)
    (v1 v2 : MatrixXd) (c : R) (r : nat) :
  fullRowTotal t pair (axpy v1 c v2) r
  = Vec.add (fullRowTotal t pair v1 r) (Vec.scale c (fullRowTotal t pair v2 r)).
Proof.
  unfold fullRowTotal. apply Vsum_linear. intros i.
  rewrite fullContribution_linear. apply pick_linear.
Qed.

Lemma weightedSum_linear (pair : ClusterPair) (v1 v2 : MatrixXd) (c : R) :
  weightedSum pair (axpy v1 c v2)
  = Vec.add (weightedSum pair v1) (Vec.scale c (weightedSum pair v2)).
Proof.
  unfold weightedSum. apply Vsum_linear. intros j. unfold axpy. vec.
Qed.

Lemma approxContribution_linear (t : BlockClusterTree) (pair : ClusterPair)
    (v1 v2 : MatrixXd) (c : R) (k : nat) :
  approxContribution t pair (axpy v1 c v2) k
  = Vec.add (approxContribution t pair v1 k)
            (Vec.scale c (approxContribution t pair v2 k)).
Proof.
  unfold approxContribution. rewrite weightedSum_linear. unfold axpy. vec.
Qed.

Lemma approxRowTotal_linear (t : BlockClusterTree) (pair : ClusterPair)
    (v1 v2 : MatrixXd) (c : R) (r : nat) :
  approxRowTotal t pair (axpy v1 c v2) r
  = Vec.add (approxRowTotal t pair v1 r) (Vec.scale c (approxRowTotal t pair v2 r)).
Proof.
  unfold approxRowTotal. apply Vsum_linear. intros k.
  rewrite approxContribution_linear. apply pick_linear.
Qed.

Lemma MultiplyInadmissible_linear (t : BlockClusterTree) (v1 v2 : MatrixXd) (c : R) (r : nat) :
  MultiplyInadmissible t (axpy v1 c v2) zeroMatrix r
  = Vec.add (MultiplyInadmissible t v1 zeroMatrix r)
            (Vec.scale c (MultiplyInadmissible t v2 zeroMatrix r)).
Proof.
  rewrite !MultiplyInadmissible_rows.
  rewrite (Vsum_linear c _ (fun p => fullRowTotal t p v1 r)
             (fun p => fullRowTotal t p v2 r)).
  - unfold zeroMatrix. vec.
  - intros p. apply fullRowTotal_linear.
Qed.

Lemma MultiplyAdmissible_linear (t : BlockClusterTree) (v1 v2 : MatrixXd) (c : R) (r : nat) :
  MultiplyAdmissible t (axpy v1 c v2) zeroMatrix r
  = Vec.add (MultiplyAdmissible t v1 zeroMatrix r)
            (Vec.scale c (MultiplyAdmissible t v2 zeroMatrix r)).
Proof.
  rewrite !MultiplyAdmissible_rows.
  rewrite (Vsum_linear c _ (fun p => approxRowTotal t p v1 r)
             (fun p => approxRowTotal t p v2 r)).
  - unfold zeroMatrix. vec.
  - intros p. apply approxRowTotal_linear.
Qed.

(** *** Induction on the hierarchy *)

Lemma BVHNode3D_children_ind (P : BVHNode3D -> Prop) :
  (forall n, Forall P (children n) -> P n) -> forall n, P n.
Proof.
  intros H. fix IH 1. intros n. apply H.
  destruct n as [a ne ch com m lf vi ci cm vb fm]. simpl.
  revert ch. fix IHl 1. intros [|c ch]; constructor.
  - apply IH.
  - apply IHl.
Qed.

Lemma subnodes_trans (n : BVHNode3D) :
  forall m, In m (subnodes n) -> incl (subnodes m) (subnodes n).
Proof.
  induction n as [n IH] using BVHNode3D_children_ind. intros m Hm.
  rewrite subnodes_unfold in Hm. destruct Hm as [<-|Hm]; [apply incl_refl|].
  apply in_flat_map in Hm. destruct Hm as [c [Hc Hm]].
  rewrite Forall_forall in IH.
  eapply incl_tran; [apply (IH c Hc m Hm)|apply subnodes_child, Hc].
Qed.

Lemma child_in_tree (root n c : BVHNode3D) :
  In n (subnodes root) -> In c (children n) -> In c (subnodes root).
Proof.
  intros Hn Hc. apply (subnodes_trans root n Hn).
  apply (subnodes_child n c Hc), subnodes_self.
Qed.

(** *** The stored pairs are pairs of nodes of the hierarchy *)

Lemma split_pairs_in_tree (root : BVHNode3D) (t : BlockClusterTree) :
  Forall (pairInTree root) (unresolvedPairs t) ->
  Forall (pairInTree root) (admissiblePairs t) ->
  Forall (pairInTree root) (inadmissiblePairs t) ->
  Forall (pairInTree root) (unresolvedPairs (splitInadmissibleNodes t))
  /\ Forall (pairInTree root) (admissiblePairs (splitInadmissibleNodes t))
  /\ Forall (pairInTree root) (inadmissiblePairs (splitInadmissibleNodes t)).
Proof.
  intros Hu Ha Hi. repeat split.
  - apply Forall_forall. intros q Hq.
    apply in_split_unresolved in Hq. destruct Hq as [p [Hp [_ [Hc1 Hc2]]]].
    rewrite Forall_forall in Hu. destruct (Hu p Hp) as [H1 H2].
    split; [apply (child_in_tree root _ _ H1 Hc1)|apply (child_in_tree root _ _ H2 Hc2)].
  - rewrite split_admissible. apply Forall_app. split; [exact Ha|].
    apply Forall_forall. intros p Hp. apply filter_In in Hp.
    rewrite Forall_forall in Hu. apply Hu. tauto.
  - rewrite split_inadmissible. apply Forall_app. split; [exact Hi|].
    apply Forall_forall. intros p Hp. apply filter_In in Hp.
    rewrite Forall_forall in Hu. apply Hu. tauto.
Qed.

Lemma classifyLoop_pairs_in_tree (root : BVHNode3D) (fuel : nat) :
  forall t t',
    classifyLoop fuel t = Some t' ->
    Forall (pairInTree root) (unresolvedPairs t) ->
    Forall (pairInTree root) (admissiblePairs t) ->
    Forall (pairInTree root) (inadmissiblePairs t) ->
    Forall (pairInTree root) (admissiblePairs t')
    /\ Forall (pairInTree root) (inadmissiblePairs t').
Proof.
  induction fuel as [|fuel IH]; intros t t' Hloop Hu Ha Hi; simpl in Hloop.
  - destruct (unresolvedPairs t); [|discriminate]. injection Hloop as <-. tauto.
  - destruct (unresolvedPairs t) eqn:Heq; [injection Hloop as <-; tauto|].
    rewrite <- Heq in Hu.
    destruct (split_pairs_in_tree root t Hu Ha Hi) as [Hu' [Ha' Hi']].
    eapply IH; eassumption.
Qed.

Lemma classifyLoop_params (fuel : nat) :
  forall t t',
    classifyLoop fuel t = Some t' ->
    separationCoeff t' = separationCoeff t /\ tree_root t' = tree_root t
    /\ curves t' = curves t /\ alpha t' = alpha t /\ beta t' = beta t.
Proof.
  induction fuel as [|fuel IH]; intros t t' Hloop; simpl in Hloop.
  - destruct (unresolvedPairs t); [|discriminate]. injection Hloop as <-. tauto.
  - destruct (unresolvedPairs t); [injection Hloop as <-; tauto|].
    specialize (IH _ _ Hloop). pose proof (split_params t). intuition congruence.
Qed.

Lemma constructed_in_tree (cg : PolyCurveGroup) (root : BVHNode3D)
    (sepCoeff a b e : R) (fuel : nat) (t : BlockClusterTree) :
  BlockClusterTree_new fuel cg root sepCoeff a b e = Some t ->
  tree_root t = root
  /\ Forall (pairInTree root) (admissiblePairs t)
  /\ Forall (pairInTree root) (inadmissiblePairs t).
Proof.
  intros Hnew. split.
  - apply classifyLoop_params in Hnew. simpl in Hnew. tauto.
  - eapply classifyLoop_pairs_in_tree; [exact Hnew| | |]; simpl; constructor.
    + split; apply subnodes_self.
    + constructor.
Qed.

(** *** The passes of [MultiplyAf] respect linear combinations *)

Lemma SetVIs_unfold (n : BVHNode3D) (v : VectorXd) (s : MVFields) :
  SetVIs n v s
  = if IsLeaf n then set_V_I s (nodeAddr n) (totalMass n * v (VertexIndex n))
    else fold_left
           (fun s child =>
              let s' := SetVIs child v s in
              set_V_I s' (nodeAddr n) (V_I s' (nodeAddr n) + V_I s' (nodeAddr child)))
           (children n) (set_V_I s (nodeAddr n) 0).
Proof. destruct n; reflexivity. Qed.

Lemma PropagateBIs_unfold (n : BVHNode3D) (parent_BI : R) (sb : MVFields * VectorXd) :
  PropagateBIs n parent_BI sb
  = let s := set_B_I (fst sb) (nodeAddr n) (parent_BI + aIJ_VJ (fst sb) (nodeAddr n)) in
    if IsLeaf n then (s, upd (snd sb) (VertexIndex n) (B_I s (nodeAddr n)))
    else fold_left
           (fun sb child => PropagateBIs child (B_I (fst sb) (nodeAddr n)) sb)
           (children n) (s, snd sb).
Proof. destruct n; reflexivity. Qed.

Lemma addrs_self (n : BVHNode3D) : In (nodeAddr n) (addrs n).
Proof. unfold addrs. apply in_map, subnodes_self. Qed.

Lemma addrs_child (n c : BVHNode3D) : In c (children n) -> incl (addrs c) (addrs n).
Proof.
  intros Hc a Ha. unfold addrs in *. apply in_map_iff in Ha.
  destruct Ha as [m [<- Hm]]. apply in_map. eapply subnodes_child; eassumption.
Qed.

Section Combination.

Variable c : R.
Variable A : list nat.

Lemma combines_upd (f1 f2 f12 : nat -> R) (a : nat) (x1 x2 x12 : R) :
  combines c A f1 f2 f12 -> x12 = x1 + c * x2 ->
  combines c A (upd f1 a x1) (upd f2 a x2) (upd f12 a x12).
Proof.
  intros Hf Hx a' Ha'. unfold upd. destruct (Nat.eqb a' a); [exact Hx|apply Hf, Ha'].
Qed.

Lemma set_V_I_combine (s1 s2 s12 : MVFields) (a : nat) (x1 x2 x12 : R) :
  storesCombine c A s1 s2 s12 -> x12 = x1 + c * x2 ->
  storesCombine c A (set_V_I s1 a x1) (set_V_I s2 a x2) (set_V_I s12 a x12).
Proof.
  intros [HV [HB Ha]] Hx. repeat split; simpl; try assumption.
  apply combines_upd; assumption.
Qed.

Lemma set_B_I_combine (s1 s2 s12 : MVFields) (a : nat) (x1 x2 x12 : R) :
  storesCombine c A s1 s2 s12 -> x12 = x1 + c * x2 ->
  storesCombine c A (set_B_I s1 a x1) (set_B_I s2 a x2) (set_B_I s12 a x12).
Proof.
  intros [HV [HB Ha]] Hx. repeat split; simpl; try assumption.
  apply combines_upd; assumption.
Qed.

Lemma set_aIJ_VJ_combine (s1 s2 s12 : MVFields) (a : nat) (x1 x2 x12 : R) :
  storesCombine c A s1 s2 s12 -> x12 = x1 + c * x2 ->
  storesCombine c A (set_aIJ_VJ s1 a x1) (set_aIJ_VJ s2 a x2) (set_aIJ_VJ s12 a x12).
Proof.
  intros [HV [HB Ha]] Hx. repeat split; simpl; try assumption.
  apply combines_upd; assumption.
Qed.

Variables v1 v2 v12 : VectorXd.
Hypothesis Hv : vectorsCombine c v1 v2 v12.

Lemma SetVIs_combine (n : BVHNode3D) :
  incl (addrs n) A ->
  forall s1 s2 s12,
    storesCombine c A s1 s2 s12 ->
    storesCombine c A (SetVIs n v1 s1) (SetVIs n v2 s2) (SetVIs n v12 s12).
Proof.
  induction n as [n IH] using BVHNode3D_children_ind.
  intros Hincl s1 s2 s12 Hs. rewrite !SetVIs_unfold.
  destruct (IsLeaf n).
  { apply set_V_I_combine; [exact Hs|]. rewrite Hv. ring. }
  assert (Hn : In (nodeAddr n) A) by apply Hincl, addrs_self.
  assert (Hch : forall ch, In ch (children n) -> incl (addrs ch) A).
  { intros ch Hc. eapply incl_tran; [apply addrs_child, Hc|exact Hincl]. }
  assert (H0 : storesCombine c A (set_V_I s1 (nodeAddr n) 0)
                 (set_V_I s2 (nodeAddr n) 0) (set_V_I s12 (nodeAddr n) 0)).
  { apply set_V_I_combine; [exact Hs|ring]. }
  revert H0. generalize (set_V_I s1 (nodeAddr n) 0) (set_V_I s2 (nodeAddr n) 0)
                        (set_V_I s12 (nodeAddr n) 0).
  clear Hs s1 s2 s12.
  induction (children n) as [|ch cs IHcs]; intros s1 s2 s12 Hs; simpl; [exact Hs|].
  apply IHcs.
  - inversion IH; assumption.
  - intros ch' Hc'. apply Hch. right. exact Hc'.
  - inversion IH as [|? ? Hc _]; subst.
    specialize (Hc (Hch ch (or_introl eq_refl)) _ _ _ Hs).
    apply set_V_I_combine; [exact Hc|].
    destruct Hc as [HV _].
    rewrite (HV _ Hn), (HV (nodeAddr ch)); [ring|].
    apply (Hch ch (or_introl eq_refl)), addrs_self.
Qed.

Lemma PropagateBIs_combine (n : BVHNode3D) :
  incl (addrs n) A ->
  forall P1 P2 P12 s1 s2 s12 b1 b2 b12,
    P12 = P1 + c * P2 ->
    storesCombine c A s1 s2 s12 ->
    vectorsCombine c b1 b2 b12 ->
    storesCombine c A (fst (PropagateBIs n P1 (s1, b1)))
                      (fst (PropagateBIs n P2 (s2, b2)))
                      (fst (PropagateBIs n P12 (s12, b12)))
    /\ vectorsCombine c (snd (PropagateBIs n P1 (s1, b1)))
                        (snd (PropagateBIs n P2 (s2, b2)))
                        (snd (PropagateBIs n P12 (s12, b12))).
Proof.
  induction n as [n IH] using BVHNode3D_children_ind.
  intros Hincl P1 P2 P12 s1 s2 s12 b1 b2 b12 HP Hs Hb.
  rewrite !PropagateBIs_unfold. cbv zeta. cbn [fst snd].
  assert (Hn : In (nodeAddr n) A) by apply Hincl, addrs_self.
  assert (H0 : storesCombine c A
                 (set_B_I s1 (nodeAddr n) (P1 + aIJ_VJ s1 (nodeAddr n)))
                 (set_B_I s2 (nodeAddr n) (P2 + aIJ_VJ s2 (nodeAddr n)))
                 (set_B_I s12 (nodeAddr n) (P12 + aIJ_VJ s12 (nodeAddr n)))).
  { apply set_B_I_combine; [exact Hs|].
    destruct Hs as [_ [_ Ha]]. rewrite (Ha _ Hn), HP. ring. }
  destruct (IsLeaf n).
  { cbn [fst snd]. split; [exact H0|].
    intros r. unfold upd. destruct (Nat.eqb r (VertexIndex n)); [|apply Hb].
    destruct H0 as [_ [HB _]]. apply HB, Hn. }
  assert (Hch : forall ch, In ch (children n) -> incl (addrs ch) A).
  { intros ch Hc. eapply incl_tran; [apply addrs_child, Hc|exact Hincl]. }
  revert H0 Hb.
  generalize (set_B_I s1 (nodeAddr n) (P1 + aIJ_VJ s1 (nodeAddr n)))
             (set_B_I s2 (nodeAddr n) (P2 + aIJ_VJ s2 (nodeAddr n)))
             (set_B_I s12 (nodeAddr n) (P12 + aIJ_VJ s12 (nodeAddr n))).
  clear Hs s1 s2 s12 HP. revert b1 b2 b12.
  induction (children n) as [|ch cs IHcs]; intros b1 b2 b12 s1 s2 s12 Hs Hb;
    cbn [fold_left fst snd]; [split; assumption|].
  inversion IH as [|? ? Hc Hcs]; subst.
  specialize (Hc (Hch ch (or_introl eq_refl))
                (B_I s1 (nodeAddr n)) (B_I s2 (nodeAddr n)) (B_I s12 (nodeAddr n))
                s1 s2 s12 b1 b2 b12).
  destruct Hc as [Hs' Hb']; [destruct Hs as [_ [HB _]]; apply HB, Hn|exact Hs|exact Hb|].
  destruct (PropagateBIs ch (B_I s1 (nodeAddr n)) (s1, b1)) as [s1' b1'].
  destruct (PropagateBIs ch (B_I s2 (nodeAddr n)) (s2, b2)) as [s2' b2'].
  destruct (PropagateBIs ch (B_I s12 (nodeAddr n)) (s12, b12)) as [s12' b12'].
  apply IHcs; try assumption.
  intros ch' Hc'. apply Hch. right. exact Hc'.
Qed.

End Combination.

Lemma accumulateFarField_combine (c : R) (A : list nat) (t : BlockClusterTree) :
  Forall (fun p => In (nodeAddr (cluster1 p)) A /\ In (nodeAddr (cluster2 p)) A)
         (admissiblePairs t) ->
  forall s1 s2 s12,
    storesCombine c A s1 s2 s12 ->
    storesCombine c A (accumulateFarField t s1) (accumulateFarField t s2)
                      (accumulateFarField t s12).
Proof.
  unfold accumulateFarField.
  induction 1 as [|p ps [H1 H2] _ IH]; intros s1 s2 s12 Hs; simpl; [exact Hs|].
  apply IH. apply set_aIJ_VJ_combine; [exact Hs|].
  destruct Hs as [HV [_ Ha]]. rewrite (Ha _ H1), (HV _ H2). ring.
Qed.

Lemma zeroed_fold (ns : list BVHNode3D) :
  forall s a,
    let s' := fold_left
                (fun s n => set_aIJ_VJ (set_B_I (set_V_I s (nodeAddr n) 0) (nodeAddr n) 0)
                                       (nodeAddr n) 0) ns s in
    (In a (map nodeAddr ns) -> V_I s' a = 0 /\ B_I s' a = 0 /\ aIJ_VJ s' a = 0)
    /\ (~ In a (map nodeAddr ns) ->
        V_I s' a = V_I s a /\ B_I s' a = B_I s a /\ aIJ_VJ s' a = aIJ_VJ s a).
Proof.
  induction ns as [|n ns IH]; intros s a; cbn [fold_left map].
  - split; [contradiction|tauto].
  - specialize (IH (set_aIJ_VJ (set_B_I (set_V_I s (nodeAddr n) 0) (nodeAddr n) 0)
                               (nodeAddr n) 0) a).
    cbv zeta in IH. destruct IH as [IHin IHout]. split.
    + intros [Ha|Ha].
      * destruct (in_dec Nat.eq_dec a (map nodeAddr ns)) as [Hin|Hout]; [auto|].
        destruct (IHout Hout) as [-> [-> ->]]. subst a. simpl. unfold upd.
        rewrite Nat.eqb_refl. tauto.
      * auto.
    + intros Ha. destruct IHout as [-> [-> ->]]; [simpl in Ha; tauto|].
      simpl. unfold upd. destruct (Nat.eqb_spec a (nodeAddr n)) as [->|_]; [|tauto].
      simpl in Ha. tauto.
Qed.

Lemma recursivelyZeroMVFields_zero (root : BVHNode3D) (s : MVFields) (a : nat) :
  In a (addrs root) ->
  V_I (recursivelyZeroMVFields root s) a = 0
  /\ B_I (recursivelyZeroMVFields root s) a = 0
  /\ aIJ_VJ (recursivelyZeroMVFields root s) a = 0.
Proof. intros Ha. apply (proj1 (zeroed_fold (subnodes root) s a)), Ha. Qed.

Lemma recursivelyZeroMVFields_combine (c : R) (root : BVHNode3D) (s1 s2 s12 : MVFields) :
  storesCombine c (addrs root) (recursivelyZeroMVFields root s1)
    (recursivelyZeroMVFields root s2) (recursivelyZeroMVFields root s12).
Proof.
  repeat split; intros a Ha;
    destruct (recursivelyZeroMVFields_zero root s1 a Ha) as [V1 [B1 A1]];
    destruct (recursivelyZeroMVFields_zero root s2 a Ha) as [V2 [B2 A2]];
    destruct (recursivelyZeroMVFields_zero root s12 a Ha) as [V3 [B3 A3]];
    first [rewrite V1, V2, V3|rewrite B1, B2, B3|rewrite A1, A2, A3]; ring.
Qed.

Lemma pairs_addrs (root : BVHNode3D) (ps : list ClusterPair) :
  Forall (pairInTree root) ps ->
  Forall (fun p => In (nodeAddr (cluster1 p)) (addrs root)
                   /\ In (nodeAddr (cluster2 p)) (addrs root)) ps.
Proof.
  apply Forall_impl. intros p [H1 H2]. unfold addrs. split; apply in_map; assumption.
Qed.

(** The result of [MultiplyAf] is linear in its argument, whatever the
    scratch fields held before the three calls. *)
Lemma MultiplyAf_combine (c : R) (t : BlockClusterTree) (v1 v2 v12 : VectorXd)
    (s1 s2 s12 : MVFields) :
  Forall (pairInTree (tree_root t)) (admissiblePairs t) ->
  vectorsCombine c v1 v2 v12 ->
  vectorsCombine c (fst (MultiplyAf t v1 s1)) (fst (MultiplyAf t v2 s2))
                   (fst (MultiplyAf t v12 s12)).
Proof.
  intros Hp Hv i. unfold MultiplyAf, SetBIs. cbn [fst snd].
  pose proof (recursivelyZeroMVFields_combine c (tree_root t) s1 s2 s12) as H0.
  pose proof (SetVIs_combine c _ v1 v2 v12 Hv (tree_root t) (incl_refl _) _ _ _ H0) as H1.
  pose proof (accumulateFarField_combine c _ t (pairs_addrs _ _ Hp) _ _ _ H1) as H2.
  destruct (PropagateBIs_combine c (addrs (tree_root t)) (tree_root t) (incl_refl _)
              0 0 0 _ _ _ setZero setZero setZero ltac:(ring) H2) as [_ Hb].
  - intros r. unfold setZero. ring.
  - rewrite (Hb i). ring.
Qed.

Lemma MultiplyAf_any_store (t : BlockClusterTree) (v : VectorXd) (s s' : MVFields) (i : nat) :
  Forall (pairInTree (tree_root t)) (admissiblePairs t) ->
  fst (MultiplyAf t v s) i = fst (MultiplyAf t v s') i.
Proof.
  intros Hp.
  rewrite (MultiplyAf_combine 0 t v v v s' s s Hp); [ring|].
  intros r. ring.
Qed.

(** *** The propagation product, row by row *)

Lemma MultiplyAdmissibleFast_rows (t : BlockClusterTree) (v_hat b_hat : MatrixXd)
    (s : MVFields) (r : nat) :
  let s0 := snd (MultiplyAf t setOnes s) in
  let s1 := snd (MultiplyAf t (col 0 v_hat) s0) in
  let s2 := snd (MultiplyAf t (col 1 v_hat) s1) in
  fst (MultiplyAdmissibleFast t v_hat b_hat s) r
  = Vec.scale 2
      (Vec.sub (Vec.scale (fst (MultiplyAf t setOnes s) r) (v_hat r))
               (mkVector3 (fst (MultiplyAf t (col 0 v_hat) s0) r)
                          (fst (MultiplyAf t (col 1 v_hat) s1) r)
                          (fst (MultiplyAf t (col 2 v_hat) s2) r))).
Proof.
  intros s0 s1 s2. unfold MultiplyAdmissibleFast.
  destruct (MultiplyAf t setOnes s) as [h_f s0'] eqn:E0. cbn [fst snd] in *.
  subst s0. cbn [seq fold_left fst snd].
  destruct (MultiplyAf t (col 0 v_hat) s0') as [r0 s1'] eqn:E1. cbn [fst snd] in *.
  subst s1.
  destruct (MultiplyAf t (col 1 v_hat) s1') as [r1 s2'] eqn:E2. cbn [fst snd] in *.
  subst s2.
  destruct (MultiplyAf t (col 2 v_hat) s2') as [r2 s3'] eqn:E3. cbn [fst snd] in *.
  reflexivity.
Qed.

Lemma col_axpy (k : nat) (v1 v2 : MatrixXd) (c : R) :
  vectorsCombine c (col k v1) (col k v2) (col k (axpy v1 c v2)).
Proof. intros r. unfold col, axpy. destruct k as [|[|k]]; reflexivity. Qed.

Lemma MultiplyAdmissibleFast_linear (t : BlockClusterTree) (v1 v2 : MatrixXd) (c : R)
    (b1 b2 b12 : MatrixXd) (s : MVFields) (r : nat) :
  Forall (pairInTree (tree_root t)) (admissiblePairs t) ->
  fst (MultiplyAdmissibleFast t (axpy v1 c v2) b12 s) r
  = Vec.add (fst (MultiplyAdmissibleFast t v1 b1 s) r)
            (Vec.scale c (fst (MultiplyAdmissibleFast t v2 b2 s) r)).
Proof.
  intros Hp. rewrite !MultiplyAdmissibleFast_rows. cbv zeta.
  set (s0 := snd (MultiplyAf t setOnes s)).
  rewrite (MultiplyAf_combine c t _ _ _
             (snd (MultiplyAf t setOnes s))
             (snd (MultiplyAf t setOnes s)) s0 Hp (col_axpy 0 v1 v2 c) r).
  rewrite (MultiplyAf_combine c t _ _ _
             (snd (MultiplyAf t (col 0 v1) s0))
             (snd (MultiplyAf t (col 0 v2) s0))
             (snd (MultiplyAf t (col 0 (axpy v1 c v2)) s0)) Hp (col_axpy 1 v1 v2 c) r).
  rewrite (MultiplyAf_combine c t _ _ _
             (snd (MultiplyAf t (col 1 v1) (snd (MultiplyAf t (col 0 v1) s0))))
             (snd (MultiplyAf t (col 1 v2) (snd (MultiplyAf t (col 0 v2) s0))))
             (snd (MultiplyAf t (col 1 (axpy v1 c v2))
                     (snd (MultiplyAf t (col 0 (axpy v1 c v2)) s0))))
             Hp (col_axpy 2 v1 v2 c) r).
  subst s0. unfold axpy. vec_fields.
Qed.

(** C10: the propagation product overwrites the output buffer, so its
    result does not depend on what the buffer held, while the monopole
    product and the exact product add their contributions to what the
    buffer holds; hence the latter two compose by accumulation into one
    output, and running the propagation product on such a buffer discards
    what was accumulated. *)
Theorem C10_overwrite_versus_accumulate
    (t : BlockClusterTree) (v_hat b_hat b_hat' : MatrixXd) (s : MVFields) (r : nat) :
  fst (MultiplyAdmissibleFast t v_hat b_hat s) r
  = fst (MultiplyAdmissibleFast t v_hat b_hat' s) r
  /\ MultiplyAdmissible t v_hat b_hat r
     = Vec.add (b_hat r) (MultiplyAdmissible t v_hat zeroMatrix r)
  /\ MultiplyInadmissible t v_hat b_hat r
     = Vec.add (b_hat r) (MultiplyInadmissible t v_hat zeroMatrix r)
  /\ MultiplyInadmissible t v_hat (MultiplyAdmissible t v_hat b_hat) r
     = Vec.add (b_hat r)
               (Vec.add (MultiplyAdmissible t v_hat zeroMatrix r)
                        (MultiplyInadmissible t v_hat zeroMatrix r)).
Proof.
  split; [|split; [|split]].
  - rewrite !MultiplyAdmissibleFast_rows. reflexivity.
  - rewrite !MultiplyAdmissible_rows. unfold zeroMatrix. vec.
  - rewrite !MultiplyInadmissible_rows. unfold zeroMatrix. vec.
  - rewrite !MultiplyInadmissible_rows, !MultiplyAdmissible_rows.
    unfold zeroMatrix. vec.
Qed.

(** C7: in exact arithmetic every product is linear in the input field: on
    a zero output buffer, the product of v1 + c v2 is the product of v1
    plus c times the product of v2, for the exact product over the
    inadmissible pairs, for the monopole product over the admissible pairs
    and for the propagation product, on every tree the constructor
    returns. *)
Theorem C7_products_linear
    (cg : PolyCurveGroup) (root : BVHNode3D) (sepCoeff a b e : R)
    (fuel : nat) (t : BlockClusterTree)
    (v1 v2 : MatrixXd) (c : R) (s : MVFields) (r : nat) :
  BlockClusterTree_new fuel cg root sepCoeff a b e = Some t ->
  MultiplyInadmissible t (axpy v1 c v2) zeroMatrix r
  = Vec.add (MultiplyInadmissible t v1 zeroMatrix r)
            (Vec.scale c (MultiplyInadmissible t v2 zeroMatrix r))
  /\ MultiplyAdmissible t (axpy v1 c v2) zeroMatrix r
     = Vec.add (MultiplyAdmissible t v1 zeroMatrix r)
               (Vec.scale c (MultiplyAdmissible t v2 zeroMatrix r))
  /\ fst (MultiplyAdmissibleFast t (axpy v1 c v2) zeroMatrix s) r
     = Vec.add (fst (MultiplyAdmissibleFast t v1 zeroMatrix s) r)
               (Vec.scale c (fst (MultiplyAdmissibleFast t v2 zeroMatrix s) r)).
Proof.
  intros Hnew. split; [apply MultiplyInadmissible_linear|].
  split; [apply MultiplyAdmissible_linear|].
  apply MultiplyAdmissibleFast_linear.
  destruct (constructed_in_tree _ _ _ _ _ _ _ _ Hnew) as [-> [Ha _]]. exact Ha.
Qed.

(** *** The classifier treats a pair and the exchanged pair alike *)

Lemma norm_sub_sym (a b : Vector3) : norm (Vec.sub a b) = norm (Vec.sub b a).
Proof. unfold norm, Vec.sub. simpl. f_equal. ring. Qed.

Lemma isPairAdmissible_swap (p : ClusterPair) (theta : R) :
  isPairAdmissible (swapPair p) theta = isPairAdmissible p theta.
Proof.
  unfold isPairAdmissible, swapPair. cbn [cluster1 cluster2].
  rewrite (Nat.eqb_sym (nodeAddr (cluster2 p))).
  destruct (Nat.eqb _ _); [reflexivity|].
  rewrite (norm_sub_sym (centerOfMass (cluster2 p))).
  rewrite (Rmax_comm (v2x (viewspaceBounds (cluster2 p) _))).
  rewrite (Rmax_comm (v2y (viewspaceBounds (cluster2 p) _))). reflexivity.
Qed.

Lemma ruleOf_swap (p : ClusterPair) (theta : R) :
  ruleOf theta (swapPair p) = ruleOf theta p.
Proof.
  unfold ruleOf. rewrite isPairAdmissible_swap.
  unfold hasEmptySide, isPairSmallEnough, swapPair. cbn [cluster1 cluster2].
  rewrite (orb_comm (NumElements (cluster2 p) =? 0)%Z).
  rewrite (andb_comm (NumElements (cluster2 p) =? 1)%Z).
  rewrite (orb_comm (NumElements (cluster2 p) <=? 1)%Z).
  rewrite (Z.add_comm (NumElements (cluster2 p))). reflexivity.
Qed.

Lemma swapPair_involutive (p : ClusterPair) : swapPair (swapPair p) = p.
Proof. destruct p; reflexivity. Qed.

Lemma Permutation_filter {A : Type} (f : A -> bool) (l l' : list A) :
  Permutation l l' -> Permutation (filter f l) (filter f l').
Proof.
  induction 1 as [|x l l' _ IH|x y l|l l' l'' _ IH1 _ IH2]; simpl.
  - constructor.
  - destruct (f x); [constructor|]; exact IH.
  - destruct (f x), (f y); try apply Permutation_refl. constructor.
  - eapply Permutation_trans; eassumption.
Qed.

Lemma map_swap_filter (f : ClusterPair -> bool) (l : list ClusterPair) :
  (forall p, f (swapPair p) = f p) ->
  map swapPair (filter f l) = filter f (map swapPair l).
Proof.
  intros Hf. rewrite filter_map_swap. f_equal.
  apply filter_ext. intros p. symmetry. apply Hf.
Qed.

Lemma swapClosed_filter (f : ClusterPair -> bool) (l : list ClusterPair) :
  (forall p, f (swapPair p) = f p) -> swapClosed l -> swapClosed (filter f l).
Proof.
  intros Hf H. unfold swapClosed. rewrite map_swap_filter by exact Hf.
  apply Permutation_filter, H.
Qed.

Lemma swapClosed_app (l l' : list ClusterPair) :
  swapClosed l -> swapClosed l' -> swapClosed (l ++ l').
Proof. unfold swapClosed. intros H H'. rewrite map_app. apply Permutation_app; assumption. Qed.

Lemma Permutation_flat_map_pointwise {A B : Type} (f g : A -> list B) (l : list A) :
  (forall x, Permutation (f x) (g x)) -> Permutation (flat_map f l) (flat_map g l).
Proof.
  intros H. induction l as [|x l IH]; simpl; [constructor|].
  apply Permutation_app; [apply H|exact IH].
Qed.

Lemma list_prod_flip {A B : Type} (l1 : list A) (l2 : list B) :
  Permutation (map (fun ab => (snd ab, fst ab)) (list_prod l1 l2)) (list_prod l2 l1).
Proof.
  induction l1 as [|x l1 IH]; simpl.
  - induction l2 as [|y l2 IHl2]; simpl; [constructor|exact IHl2].
  - rewrite map_app, map_map. cbn [fst snd].
    eapply Permutation_trans; [apply Permutation_app_head, IH|].
    clear IH. induction l2 as [|y l2 IHl2]; simpl; [constructor|].
    constructor.
    eapply Permutation_trans; [apply Permutation_app_swap_app|].
    apply Permutation_app_head, IHl2.
Qed.

Lemma childrenProduct_swap (p : ClusterPair) :
  Permutation (map swapPair (childrenProduct p)) (childrenProduct (swapPair p)).
Proof.
  unfold childrenProduct, swapPair at 2. cbn [cluster1 cluster2].
  rewrite map_map.
  eapply Permutation_trans;
    [|apply Permutation_map, (list_prod_flip (children (cluster1 p)) (children (cluster2 p)))].
  rewrite map_map. apply Permutation_refl.
Qed.

Lemma map_flat_map {A B C : Type} (g : B -> C) (f : A -> list B) (l : list A) :
  map g (flat_map f l) = flat_map (fun x => map g (f x)) l.
Proof.
  induction l as [|x l IH]; simpl; [reflexivity|]. rewrite map_app, IH. reflexivity.
Qed.

Lemma flat_map_of_map {A B C : Type} (g : A -> B) (f : B -> list C) (l : list A) :
  flat_map f (map g l) = flat_map (fun x => f (g x)) l.
Proof.
  induction l as [|x l IH]; simpl; [reflexivity|]. rewrite IH. reflexivity.
Qed.

Lemma split_swapClosed (t : BlockClusterTree) :
  swapClosed (unresolvedPairs t) ->
  swapClosed (admissiblePairs t) ->
  swapClosed (inadmissiblePairs t) ->
  swapClosed (unresolvedPairs (splitInadmissibleNodes t))
  /\ swapClosed (admissiblePairs (splitInadmissibleNodes t))
  /\ swapClosed (inadmissiblePairs (splitInadmissibleNodes t)).
Proof.
  intros Hu Ha Hi. split; [|split].
  - rewrite split_unresolved. unfold swapClosed.
    rewrite map_flat_map.
    eapply Permutation_trans;
      [apply Permutation_flat_map_pointwise; intros p; apply childrenProduct_swap|].
    rewrite <- (flat_map_of_map swapPair childrenProduct).
    apply Permutation_flat_map.
    apply swapClosed_filter; [|exact Hu].
    intros p. unfold goesSubdivide. rewrite ruleOf_swap. reflexivity.
  - rewrite split_admissible. apply swapClosed_app; [exact Ha|].
    apply swapClosed_filter; [|exact Hu].
    intros p. unfold goesAdmissible. rewrite ruleOf_swap. reflexivity.
  - rewrite split_inadmissible. apply swapClosed_app; [exact Hi|].
    apply swapClosed_filter; [|exact Hu].
    intros p. unfold goesInadmissible. rewrite ruleOf_swap. reflexivity.
Qed.

Lemma classifyLoop_swapClosed (fuel : nat) :
  forall t t',
    classifyLoop fuel t = Some t' ->
    swapClosed (unresolvedPairs t) ->
    swapClosed (admissiblePairs t) ->
    swapClosed (inadmissiblePairs t) ->
    swapClosed (admissiblePairs t') /\ swapClosed (inadmissiblePairs t').
Proof.
  induction fuel as [|fuel IH]; intros t t' Hloop Hu Ha Hi; simpl in Hloop.
  - destruct (unresolvedPairs t); [|discriminate]. injection Hloop as <-. tauto.
  - destruct (unresolvedPairs t) eqn:Heq; [injection Hloop as <-; tauto|].
    rewrite <- Heq in Hu.
    destruct (split_swapClosed t Hu Ha Hi) as [Hu' [Ha' Hi']].
    eapply IH; eassumption.
Qed.

Lemma constructed_swapClosed (cg : PolyCurveGroup) (root : BVHNode3D)
    (sepCoeff a b e : R) (fuel : nat) (t : BlockClusterTree) :
  BlockClusterTree_new fuel cg root sepCoeff a b e = Some t ->
  swapClosed (admissiblePairs t) /\ swapClosed (inadmissiblePairs t).
Proof.
  intros Hnew.
  eapply classifyLoop_swapClosed; [exact Hnew| | |]; simpl;
    unfold swapClosed; simpl; apply Permutation_refl.
Qed.

(** *** Sums over exchanged pairs, and one-hot fields *)

Lemma Vsum_permutation (l l' : list Vector3) : Permutation l l' -> Vsum l = Vsum l'.
Proof.
  induction 1 as [|x l l' _ IH|x y l|l l' l'' _ IH1 _ IH2]; simpl.
  - reflexivity.
  - rewrite IH. reflexivity.
  - rewrite <- !add_assoc. f_equal. vec.
  - congruence.
Qed.

Lemma Vsum_swapClosed (F : ClusterPair -> Vector3) (ps : list ClusterPair) :
  swapClosed ps -> Vsum (map (fun p => F (swapPair p)) ps) = Vsum (map F ps).
Proof.
  intros H. rewrite <- (map_map swapPair F).
  apply Vsum_permutation, Permutation_map, H.
Qed.

Lemma Vsum_scaled {A : Type} (g : A -> R) (u : Vector3) (l : list A) :
  Vsum (map (fun x => Vec.scale (g x) u) l) = Vec.scale (Rsum (map g l)) u.
Proof.
  induction l as [|x l IH]; simpl; [vec|]. rewrite IH. vec.
Qed.

Lemma Rsum_indicator (r : nat) (l : list nat) :
  Rsum (map (fun x => if Nat.eqb r x then 1 else 0) l) = INR (count_occ Nat.eq_dec l r).
Proof.
  induction l as [|x l IH]; [reflexivity|]. cbn [map Rsum fold_right count_occ].
  fold (Rsum (map (fun x => if Nat.eqb r x then 1 else 0) l)). rewrite IH.
  destruct (Nat.eq_dec x r) as [->|Hne].
  - rewrite Nat.eqb_refl, S_INR. ring.
  - destruct (Nat.eqb_spec r x) as [->|_]; [contradiction Hne; reflexivity|ring].
Qed.

Lemma kernelEntry_sym (t : BlockClusterTree) (i j : nat) :
  kernelEntry t i j = kernelEntry t j i.
Proof.
  unfold kernelEntry, af_ij. cbv zeta.
  set (p := GetCurvePoint (curves t) i). set (q := GetCurvePoint (curves t) j).
  assert (Hn : isNeighbors (curves t) p q = isNeighbors (curves t) q p).
  { apply eq_true_iff_eq. unfold isNeighbors.
    rewrite !orb_true_iff, !point_eqb_eq. intuition congruence. }
  rewrite Hn. destruct (isNeighbors (curves t) q p); [reflexivity|].
  rewrite (norm_sub_sym (Vec.divs (Vec.add (Position (curves t) p) _) 2)). f_equal.
  apply Rmult_comm.
Qed.

Lemma a_IJ_swap (t : BlockClusterTree) (p : ClusterPair) :
  a_IJ t (swapPair p) = a_IJ t p.
Proof.
  unfold a_IJ, swapPair. cbn [cluster1 cluster2].
  rewrite (norm_sub_sym (centerOfMass (cluster2 p))). reflexivity.
Qed.

Lemma oneHot_other (i j : nat) (u : Vector3) : i <> j -> oneHot i u j = Vec.zero.
Proof.
  intros H. unfold oneHot. destruct (Nat.eqb_spec j i) as [->|_]; [contradiction H|];
    reflexivity.
Qed.

Lemma fullContribution_oneHot (t : BlockClusterTree) (p : ClusterPair)
    (i j : nat) (u : Vector3) :
  i <> j ->
  fullContribution t p (oneHot i u) j
  = Vec.scale (-2 * (INR (count_occ Nat.eq_dec (clusterIndices (cluster2 p)) i)
                     * kernelEntry t j i)) u.
Proof.
  intros Hij. unfold fullContribution. rewrite (oneHot_other i j u Hij).
  rewrite (Vsum_ext _ (fun l => Vec.scale (kernelEntry t j i
                                           * (if Nat.eqb i l then 1 else 0)) u)).
  - rewrite Vsum_scaled, Rsum_scale, Rsum_indicator. vec.
  - intros l _. unfold oneHot. rewrite (Nat.eqb_sym l i).
    destruct (Nat.eqb_spec i l) as [<-|_]; vec.
Qed.

Lemma fullRowTotal_oneHot (t : BlockClusterTree) (p : ClusterPair)
    (i j : nat) (u : Vector3) :
  i <> j ->
  fullRowTotal t p (oneHot i u) j
  = Vec.scale (-2 * (INR (count_occ Nat.eq_dec (clusterIndices (cluster2 p)) i)
                     * kernelEntry t j i)
               * INR (count_occ Nat.eq_dec (clusterIndices (cluster1 p)) j)) u.
Proof.
  intros Hij. unfold fullRowTotal.
  rewrite (Vsum_ext _
    (fun i' => Vec.scale
                 (-2 * (INR (count_occ Nat.eq_dec (clusterIndices (cluster2 p)) i)
                        * kernelEntry t j i)
                  * (if Nat.eqb j i' then 1 else 0)) u)).
  - rewrite Vsum_scaled, Rsum_scale, Rsum_indicator. reflexivity.
  - intros i' _. destruct (Nat.eqb_spec j i') as [<-|_].
    + rewrite (fullContribution_oneHot t p i j u Hij). vec.
    + vec.
Qed.

Lemma fullRowTotal_swap (t : BlockClusterTree) (p : ClusterPair)
    (i j : nat) (u : Vector3) :
  i <> j ->
  fullRowTotal t (swapPair p) (oneHot j u) i = fullRowTotal t p (oneHot i u) j.
Proof.
  intros Hij. rewrite !fullRowTotal_oneHot by congruence.
  unfold swapPair. cbn [cluster1 cluster2]. rewrite (kernelEntry_sym t i j).
  f_equal. ring.
Qed.

Lemma weightedSum_oneHot (p : ClusterPair) (i : nat) (u : Vector3) :
  weightedSum p (oneHot i u) = Vec.scale (massOf (cluster2 p) i) u.
Proof.
  unfold weightedSum, massOf. rewrite <- Vsum_scaled. apply Vsum_ext.
  intros k _. unfold oneHot. destruct (Nat.eqb _ i); vec.
Qed.

Lemma approxRowTotal_oneHot (t : BlockClusterTree) (p : ClusterPair)
    (i j : nat) (u : Vector3) :
  i <> j ->
  approxRowTotal t p (oneHot i u) j
  = Vec.scale (-2 * (a_IJ t p * massOf (cluster2 p) i) * massOf (cluster1 p) j) u.
Proof.
  intros Hij. unfold approxRowTotal, massOf at 2.
  rewrite <- Rsum_scale, <- Vsum_scaled. apply Vsum_ext.
  intros k _. rewrite (Nat.eqb_sym j).
  destruct (Nat.eqb_spec (indexAt (clusterIndices (cluster1 p)) k) j) as [He|_].
  - unfold approxContribution. rewrite weightedSum_oneHot, He, (oneHot_other i j u Hij).
    vec.
  - vec.
Qed.

Lemma approxRowTotal_swap (t : BlockClusterTree) (p : ClusterPair)
    (i j : nat) (u : Vector3) :
  i <> j ->
  approxRowTotal t (swapPair p) (oneHot j u) i = approxRowTotal t p (oneHot i u) j.
Proof.
  intros Hij. rewrite !approxRowTotal_oneHot by congruence.
  rewrite a_IJ_swap. unfold swapPair. cbn [cluster1 cluster2]. f_equal. ring.
Qed.

(** C8: on every tree the constructor returns, the operator the full
    product applies is symmetric: for two different elements i and j
    (adjacent or not) and any 3-vector u, the output at j for the field
    that is u at i and zero elsewhere equals the output at i for the field
    that is u at j and zero elsewhere. *)
Theorem C8_full_product_symmetric
    (cg : PolyCurveGroup) (root : BVHNode3D) (sepCoeff a b e : R)
    (fuel : nat) (t : BlockClusterTree) (i j : nat) (u : Vector3) :
  BlockClusterTree_new fuel cg root sepCoeff a b e = Some t ->
  i <> j ->
  fullMultiply t (oneHot i u) j = fullMultiply t (oneHot j u) i.
Proof.
  intros Hnew Hij. destruct (constructed_swapClosed _ _ _ _ _ _ _ _ Hnew) as [Ha Hi].
  unfold fullMultiply. rewrite !MultiplyInadmissible_rows, !MultiplyAdmissible_rows.
  rewrite <- (Vsum_swapClosed (fun p => approxRowTotal t p (oneHot j u) i) _ Ha).
  rewrite <- (Vsum_swapClosed (fun p => fullRowTotal t p (oneHot j u) i) _ Hi).
  rewrite (Vsum_ext (fun p => approxRowTotal t (swapPair p) (oneHot j u) i)
                    (fun p => approxRowTotal t p (oneHot i u) j))
    by (intros p _; apply approxRowTotal_swap, Hij).
  rewrite (Vsum_ext (fun p => fullRowTotal t (swapPair p) (oneHot j u) i)
                    (fun p => fullRowTotal t p (oneHot i u) j))
    by (intros p _; apply fullRowTotal_swap, Hij).
  reflexivity.
Qed.

(** *** The upward pass *)

Lemma leaves_unfold (n : BVHNode3D) :
  leaves n = if IsLeaf n then [n] else flat_map leaves (children n).
Proof. destruct n; reflexivity. Qed.

Lemma addrs_unfold (n : BVHNode3D) :
  addrs n = nodeAddr n :: flat_map addrs (children n).
Proof.
  unfold addrs at 1. rewrite subnodes_unfold. cbn [map]. f_equal.
  apply map_flat_map.
Qed.

Lemma Rsum_flat_map {A B : Type} (g : B -> R) (f : A -> list B) (l : list A) :
  Rsum (map g (flat_map f l)) = Rsum (map (fun x => Rsum (map g (f x))) l).
Proof.
  induction l as [|x l IH]; simpl; [reflexivity|].
  rewrite map_app, Rsum_app, IH. reflexivity.
Qed.

Lemma NoDup_app_parts {A : Type} (l1 l2 : list A) :
  NoDup (l1 ++ l2) ->
  NoDup l1 /\ NoDup l2 /\ (forall x, In x l1 -> ~ In x l2).
Proof.
  induction l1 as [|x l1 IH]; simpl; intros H.
  - split; [constructor|]. split; [exact H|]. intros x [].
  - inversion H as [|? ? Hx Hnd]; subst. destruct (IH Hnd) as [H1 [H2 H3]].
    split; [|split; [exact H2|]].
    + constructor; [|exact H1]. intros Hin. apply Hx, in_or_app. left. exact Hin.
    + intros y [<-|Hy]; [|apply H3, Hy].
      intros Hin. apply Hx, in_or_app. right. exact Hin.
Qed.

Section UpwardPass.

Variable v : VectorXd.

Lemma upward_children (a0 : nat) (cs : list BVHNode3D) :
  Forall (upwardDone v) cs ->
  NoDup (a0 :: flat_map addrs cs) ->
  Forall (fun c => Forall (fun m => IsLeaf m = true -> children m = []) (subnodes c)) cs ->
  forall s,
    V_I (fold_left (upwardStep v a0) cs s) a0
    = V_I s a0 + Rsum (map (fun c => upwardSum c v) cs)
    /\ (forall c m, In c cs -> In m (subnodes c) ->
                    V_I (fold_left (upwardStep v a0) cs s) (nodeAddr m) = upwardSum m v)
    /\ (forall a, a <> a0 -> ~ In a (flat_map addrs cs) ->
                  V_I (fold_left (upwardStep v a0) cs s) a = V_I s a)
    /\ B_I (fold_left (upwardStep v a0) cs s) = B_I s
    /\ aIJ_VJ (fold_left (upwardStep v a0) cs s) = aIJ_VJ s.
Proof.
  induction cs as [|c cs IH]; intros Hdone Hnd Hleaf s; cbn [fold_left map flat_map].
  - simpl. repeat split; try reflexivity; [ring|contradiction].
  - inversion Hdone as [|? ? Hc Hcs]; subst.
    inversion Hleaf as [|? ? Hlc Hlcs]; subst.
    inversion Hnd as [|? ? Ha0 Hnd']; subst. cbn [flat_map] in Ha0, Hnd'.
    destruct (NoDup_app_parts _ _ Hnd') as [Hndc [Hndcs Hdisj]].
    destruct (Hc Hndc Hlc s) as [HcV [HcO [HcB HcA]]].
    assert (Ha0c : ~ In a0 (addrs c)).
    { intros Hin. apply Ha0, in_or_app. left. exact Hin. }
    assert (Hnd0 : NoDup (a0 :: flat_map addrs cs)).
    { constructor; [|exact Hndcs]. intros Hin. apply Ha0, in_or_app. right. exact Hin. }
    set (s2 := upwardStep v a0 s c).
    assert (Hs2 : forall a, V_I s2 a
                            = if Nat.eqb a a0 then V_I s a0 + upwardSum c v
                              else V_I (SetVIs c v s) a).
    { intros a. unfold s2, upwardStep. cbn [set_V_I V_I]. unfold upd.
      destruct (Nat.eqb a a0); [|reflexivity].
      rewrite (HcO a0 Ha0c), (HcV c (subnodes_self c)). reflexivity. }
    destruct (IH Hcs Hnd0 Hlcs s2) as [IH0 [IHV [IHO [IHB IHA]]]].
    split; [|split; [|split; [|split]]].
    + rewrite IH0, Hs2, Nat.eqb_refl. simpl. ring.
    + intros c' m [<-|Hc'] Hm; [|apply (IHV c' m Hc' Hm)].
      assert (Hma : In (nodeAddr m) (addrs c)) by (apply in_map, Hm).
      rewrite IHO.
      * rewrite Hs2. destruct (Nat.eqb_spec (nodeAddr m) a0) as [He|_];
          [rewrite He in Hma; contradiction|]. apply HcV, Hm.
      * intros He. rewrite He in Hma. contradiction.
      * apply Hdisj, Hma.
    + intros a Hne Hout. rewrite IHO; [|exact Hne|].
      * rewrite Hs2. destruct (Nat.eqb_spec a a0) as [He|_]; [contradiction|].
        apply HcO. intros Hin. apply Hout, in_or_app. left. exact Hin.
      * intros Hin. apply Hout, in_or_app. right. exact Hin.
    + rewrite IHB. unfold s2, upwardStep. cbn [set_V_I B_I]. exact HcB.
    + rewrite IHA. unfold s2, upwardStep. cbn [set_V_I aIJ_VJ]. exact HcA.
Qed.

Lemma SetVIs_upward (n : BVHNode3D) : upwardDone v n.
Proof.
  induction n as [n IH] using BVHNode3D_children_ind.
  intros Hnd Hleaf s. rewrite SetVIs_unfold.
  pose proof (Forall_subnodes_self _ _ Hleaf) as Hn.
  destruct (IsLeaf n) eqn:Hl.
  - assert (Hsub : subnodes n = [n]).
    { rewrite subnodes_unfold, (Hn Hl). reflexivity. }
    assert (Haddr : addrs n = [nodeAddr n]) by (unfold addrs; rewrite Hsub; reflexivity).
    rewrite Hsub, Haddr. cbn [set_V_I V_I B_I aIJ_VJ].
    repeat split; try reflexivity.
    + intros m [<-|[]]. unfold upd. rewrite Nat.eqb_refl.
      unfold upwardSum. rewrite leaves_unfold, Hl. simpl. ring.
    + intros a Ha. unfold upd.
      destruct (Nat.eqb_spec a (nodeAddr n)) as [->|_]; [|reflexivity].
      contradiction Ha. left. reflexivity.
  - rewrite addrs_unfold in Hnd.
    assert (Hleafc : Forall (fun c => Forall (fun m => IsLeaf m = true -> children m = [])
                                             (subnodes c)) (children n)).
    { apply Forall_forall. intros c Hc. eapply Forall_subnodes_child; eassumption. }
    destruct (upward_children (nodeAddr n) (children n) IH Hnd Hleafc
                (set_V_I s (nodeAddr n) 0)) as [H0 [HV [HO [HB HA]]]].
    change (fold_left _ (children n) (set_V_I s (nodeAddr n) 0))
      with (fold_left (upwardStep v (nodeAddr n)) (children n) (set_V_I s (nodeAddr n) 0)).
    split; [|split; [|split]].
    + intros m Hm. rewrite subnodes_unfold in Hm. destruct Hm as [<-|Hm].
      * rewrite H0. cbn [set_V_I V_I]. unfold upd. rewrite Nat.eqb_refl.
        unfold upwardSum at 2. rewrite leaves_unfold, Hl, Rsum_flat_map.
        unfold upwardSum. ring.
      * apply in_flat_map in Hm. destruct Hm as [c [Hc Hm]]. apply (HV c m Hc Hm).
    + intros a Ha. rewrite addrs_unfold in Ha. rewrite HO.
      * cbn [set_V_I V_I]. unfold upd.
        destruct (Nat.eqb_spec a (nodeAddr n)) as [->|_]; [|reflexivity].
        contradiction Ha. left. reflexivity.
      * intros ->. apply Ha. left. reflexivity.
      * intros Hin. apply Ha. right. exact Hin.
    + rewrite HB. reflexivity.
    + rewrite HA. reflexivity.
Qed.

End UpwardPass.

(** *** The loop over the admissible pairs *)

Lemma accumulateFarField_spec (t : BlockClusterTree) (s : MVFields) :
  (forall a, aIJ_VJ (accumulateFarField t s) a
             = aIJ_VJ s a
               + Rsum (map (fun p => if Nat.eqb (nodeAddr (cluster1 p)) a
                                     then a_IJ t p * V_I s (nodeAddr (cluster2 p))
                                     else 0)
                           (admissiblePairs t)))
  /\ V_I (accumulateFarField t s) = V_I s
  /\ B_I (accumulateFarField t s) = B_I s.
Proof.
  unfold accumulateFarField. revert s.
  induction (admissiblePairs t) as [|p ps IH]; intros s; cbn [fold_left map Rsum fold_right].
  - repeat split. intros a. ring.
  - destruct (IH (set_aIJ_VJ s (nodeAddr (cluster1 p))
                    (aIJ_VJ s (nodeAddr (cluster1 p))
                     + a_IJ t p * V_I s (nodeAddr (cluster2 p))))) as [Ha [HV HB]].
    split; [|split; [exact HV|exact HB]].
    intros a. rewrite Ha. cbn [set_aIJ_VJ aIJ_VJ V_I]. unfold upd.
    rewrite (Nat.eqb_sym a). fold (Rsum (map (fun p0 => if Nat.eqb (nodeAddr (cluster1 p0)) a
                                     then a_IJ t p0 * V_I s (nodeAddr (cluster2 p0))
                                     else 0) ps)).
    destruct (Nat.eqb_spec (nodeAddr (cluster1 p)) a) as [->|_]; ring.
Qed.

(** *** The downward pass *)

Lemma leafIndices_unfold (n : BVHNode3D) :
  leafIndices n
  = if IsLeaf n then [VertexIndex n] else flat_map leafIndices (children n).
Proof.
  unfold leafIndices at 1. rewrite leaves_unfold. destruct (IsLeaf n); [reflexivity|].
  apply map_flat_map.
Qed.

Lemma covers_iff (n : BVHNode3D) (r : nat) : covers n r = true <-> In r (leafIndices n).
Proof.
  unfold covers. rewrite existsb_exists. split.
  - intros [x [Hx He]]. apply Nat.eqb_eq in He. subst. exact Hx.
  - intros H. exists r. split; [exact H|apply Nat.eqb_refl].
Qed.

Lemma covers_false (n : BVHNode3D) (r : nat) : ~ In r (leafIndices n) -> covers n r = false.
Proof.
  intros H. destruct (covers n r) eqn:E; [|reflexivity].
  apply covers_iff in E. contradiction.
Qed.

Lemma leafIndices_subnode (n : BVHNode3D) :
  Forall (fun m => IsLeaf m = true -> children m = []) (subnodes n) ->
  forall m, In m (subnodes n) -> incl (leafIndices m) (leafIndices n).
Proof.
  induction n as [n IH] using BVHNode3D_children_ind. intros Hleaf m Hm.
  rewrite subnodes_unfold in Hm. destruct Hm as [<-|Hm]; [apply incl_refl|].
  apply in_flat_map in Hm. destruct Hm as [c [Hc Hm]].
  pose proof (Forall_subnodes_self _ _ Hleaf) as Hn. cbv beta in Hn.
  rewrite (leafIndices_unfold n). destruct (IsLeaf n).
  - rewrite (Hn eq_refl) in Hc. contradiction.
  - rewrite Forall_forall in IH. intros r Hr. apply in_flat_map. exists c.
    split; [exact Hc|]. apply (IH c Hc (Forall_subnodes_child _ n c Hc Hleaf) m Hm), Hr.
Qed.

Lemma pathSum_outside (f : nat -> R) (n : BVHNode3D) (r : nat) :
  Forall (fun m => IsLeaf m = true -> children m = []) (subnodes n) ->
  ~ In r (leafIndices n) -> pathSum f n r = 0.
Proof.
  intros Hleaf Hr. unfold pathSum.
  rewrite (Rsum_ext _ (fun _ => 0)); [apply Rsum_zero|].
  intros m Hm. rewrite covers_false; [reflexivity|].
  intros Hin. apply Hr. eapply leafIndices_subnode; eassumption.
Qed.

Lemma pathSum_unfold (f : nat -> R) (n : BVHNode3D) (r : nat) :
  pathSum f n r
  = (if covers n r then f (nodeAddr n) else 0)
    + Rsum (map (fun c => pathSum f c r) (children n)).
Proof.
  unfold pathSum at 1. rewrite subnodes_unfold. cbn [map Rsum fold_right].
  f_equal. apply Rsum_flat_map.
Qed.

Lemma downward_children (a0 : nat) (Q : R) (cs : list BVHNode3D) :
  Forall downwardDone cs ->
  NoDup (a0 :: flat_map addrs cs) ->
  Forall (fun c => Forall (fun m => IsLeaf m = true -> children m = []) (subnodes c)) cs ->
  NoDup (flat_map leafIndices cs) ->
  forall s b,
    B_I s a0 = Q ->
    (forall r, In r (flat_map leafIndices cs) ->
               snd (propagateChildren a0 cs (s, b)) r
               = Q + Rsum (map (fun c => pathSum (aIJ_VJ s) c r) cs))
    /\ (forall r, ~ In r (flat_map leafIndices cs) ->
                  snd (propagateChildren a0 cs (s, b)) r = b r)
    /\ (forall a, ~ In a (flat_map addrs cs) ->
                  B_I (fst (propagateChildren a0 cs (s, b))) a = B_I s a)
    /\ V_I (fst (propagateChildren a0 cs (s, b))) = V_I s
    /\ aIJ_VJ (fst (propagateChildren a0 cs (s, b))) = aIJ_VJ s.
Proof.
  induction cs as [|c cs IH]; intros Hdone Hnd Hleaf Hidx.
  - intros s b HQ. cbn. repeat split; try reflexivity. intros r [].
  - inversion Hdone as [|? ? Hc Hcs]; subst.
    inversion Hleaf as [|? ? Hlc Hlcs]; subst.
    inversion Hnd as [|? ? Ha0 Hnd']; subst. cbn [flat_map] in Ha0, Hnd', Hidx.
    intros s b HQ.
    destruct (NoDup_app_parts _ _ Hnd') as [Hndc [Hndcs Hdisj]].
    destruct (NoDup_app_parts _ _ Hidx) as [Hic [Hics Hidisj]].
    assert (Ha0c : ~ In a0 (addrs c)).
    { intros Hin. apply Ha0, in_or_app. left. exact Hin. }
    assert (Hnd0 : NoDup (a0 :: flat_map addrs cs)).
    { constructor; [|exact Hndcs]. intros Hin. apply Ha0, in_or_app. right. exact Hin. }
    unfold propagateChildren. cbn [fold_left fst]. rewrite HQ.
    destruct (Hc Hndc Hlc Hic Q s b) as [HcIn [HcOut [HcB [HcV HcA]]]].
    destruct (PropagateBIs c Q (s, b)) as [s1 b1] eqn:E1. cbn [fst snd] in *.
    assert (HQ1 : B_I s1 a0 = Q) by (rewrite (HcB a0 Ha0c); exact HQ).
    destruct (IH Hcs Hnd0 Hlcs Hics s1 b1 HQ1) as [IHIn [IHOut [IHB [IHV IHA]]]].
    unfold propagateChildren in IHIn, IHOut, IHB, IHV, IHA.
    assert (Hzero : forall r, ~ In r (flat_map leafIndices cs) ->
                              Rsum (map (fun c' => pathSum (aIJ_VJ s) c' r) cs) = 0).
    { intros r Hr. rewrite (Rsum_ext _ (fun _ => 0)); [apply Rsum_zero|].
      intros c' Hc'. apply pathSum_outside.
      - rewrite Forall_forall in Hlcs. apply Hlcs, Hc'.
      - intros Hin. apply Hr, in_flat_map. exists c'. split; assumption. }
    split; [|split; [|split; [|split]]].
    + intros r Hr. cbn [map Rsum fold_right].
      fold (Rsum (map (fun c' => pathSum (aIJ_VJ s) c' r) cs)).
      apply in_app_or in Hr. destruct Hr as [Hr|Hr].
      * rewrite (IHOut r (Hidisj r Hr)), (HcIn r Hr), (Hzero r (Hidisj r Hr)). ring.
      * assert (Hrc : ~ In r (leafIndices c)).
        { intros Hin. apply (Hidisj r Hin), Hr. }
        rewrite (IHIn r Hr), HcA, (pathSum_outside _ c r Hlc Hrc). ring.
    + intros r Hr. rewrite IHOut, HcOut; [reflexivity| |];
        intros Hin; apply Hr, in_or_app; [left|right]; exact Hin.
    + intros a Ha. rewrite IHB, HcB; [reflexivity| |];
        intros Hin; apply Ha; cbn [flat_map]; apply in_or_app; [left|right]; exact Hin.
    + rewrite IHV. exact HcV.
    + rewrite IHA. exact HcA.
Qed.

Lemma PropagateBIs_downward (n : BVHNode3D) : downwardDone n.
Proof.
  induction n as [n IH] using BVHNode3D_children_ind.
  intros Hnd Hleaf Hidx P s b. rewrite PropagateBIs_unfold. cbv zeta. cbn [fst snd].
  pose proof (Forall_subnodes_self _ _ Hleaf) as Hn. cbv beta in Hn.
  rewrite leafIndices_unfold in Hidx |- *. rewrite addrs_unfold in Hnd |- *.
  destruct (IsLeaf n) eqn:Hl.
  - cbn [fst snd set_B_I B_I V_I aIJ_VJ].
    split; [|split; [|split; [|split]]]; try reflexivity.
    + intros r [<-|[]]. unfold upd. rewrite !Nat.eqb_refl.
      rewrite pathSum_unfold, (Hn eq_refl).
      rewrite (proj2 (covers_iff n (VertexIndex n))).
      * simpl. ring.
      * rewrite leafIndices_unfold, Hl. left. reflexivity.
    + intros r Hr. unfold upd.
      destruct (Nat.eqb_spec r (VertexIndex n)) as [->|_]; [|reflexivity].
      contradiction Hr. left. reflexivity.
    + intros a Ha. unfold upd.
      destruct (Nat.eqb_spec a (nodeAddr n)) as [->|_]; [|reflexivity].
      contradiction Ha. left. reflexivity.
  - assert (Hleafc : Forall (fun c => Forall (fun m => IsLeaf m = true -> children m = [])
                                             (subnodes c)) (children n)).
    { apply Forall_forall. intros c Hc. eapply Forall_subnodes_child; eassumption. }
    set (s1 := set_B_I s (nodeAddr n) (P + aIJ_VJ s (nodeAddr n))).
    assert (HQ : B_I s1 (nodeAddr n) = P + aIJ_VJ s (nodeAddr n)).
    { unfold s1. cbn [set_B_I B_I]. unfold upd. rewrite Nat.eqb_refl. reflexivity. }
    destruct (downward_children (nodeAddr n) _ (children n) IH Hnd Hleafc Hidx s1 b HQ)
      as [HIn [HOut [HB [HV HA]]]].
    unfold propagateChildren in HIn, HOut, HB, HV, HA.
    split; [|split; [|split; [|split]]].
    + intros r Hr. rewrite (HIn r Hr), pathSum_unfold.
      rewrite (proj2 (covers_iff n r)); [unfold s1; cbn [set_B_I aIJ_VJ]; ring|].
      rewrite leafIndices_unfold, Hl. exact Hr.
    + exact HOut.
    + intros a Ha. rewrite HB.
      * unfold s1. cbn [set_B_I B_I]. unfold upd.
        destruct (Nat.eqb_spec a (nodeAddr n)) as [->|_]; [|reflexivity].
        contradiction Ha. left. reflexivity.
      * intros Hin. apply Ha. right. exact Hin.
    + rewrite HV. reflexivity.
    + rewrite HA. reflexivity.
Qed.

(** *** [MultiplyAf] computes the far field *)

Lemma Rsum_pick_node (x : BVHNode3D) (r : nat) (X : R) (M : list BVHNode3D) :
  In x M -> NoDup (map nodeAddr M) ->
  Rsum (map (fun m => if covers m r
                      then (if Nat.eqb (nodeAddr x) (nodeAddr m) then X else 0)
                      else 0) M)
  = if covers x r then X else 0.
Proof.
  induction M as [|m M IH]; intros Hx Hnd; [contradiction|].
  inversion Hnd as [|? ? Hm HndM]; subst. cbn [map Rsum fold_right].
  fold (Rsum (map (fun m0 => if covers m0 r
                      then (if Nat.eqb (nodeAddr x) (nodeAddr m0) then X else 0)
                      else 0) M)).
  destruct Hx as [->|Hx].
  - rewrite Nat.eqb_refl.
    rewrite (Rsum_ext _ (fun _ => 0)); [rewrite Rsum_zero; destruct (covers x r); ring|].
    intros m' Hm'. destruct (Nat.eqb_spec (nodeAddr x) (nodeAddr m')) as [He|_].
    + contradiction Hm. rewrite He. apply in_map, Hm'.
    + destruct (covers m' r); ring.
  - rewrite (IH Hx HndM).
    destruct (Nat.eqb_spec (nodeAddr x) (nodeAddr m)) as [He|_].
    + contradiction Hm. rewrite <- He. apply in_map, Hx.
    + destruct (covers m r); ring.
Qed.

Lemma pathSum_pairs (t : BlockClusterTree) (root : BVHNode3D) (X : ClusterPair -> R)
    (r : nat) (ps : list ClusterPair) :
  NoDup (addrs root) ->
  Forall (pairInTree root) ps ->
  Rsum (map (fun m => if covers m r
                      then Rsum (map (fun p => if Nat.eqb (nodeAddr (cluster1 p)) (nodeAddr m)
                                               then X p else 0) ps)
                      else 0) (subnodes root))
  = Rsum (map (fun p => if covers (cluster1 p) r then X p else 0) ps).
Proof.
  intros Hnd. induction 1 as [|p ps [Hp _] _ IH]; cbn [map Rsum fold_right].
  - rewrite (Rsum_ext _ (fun _ => 0)); [apply Rsum_zero|].
    intros m _. destruct (covers m r); reflexivity.
  - fold (Rsum (map (fun p0 => if covers (cluster1 p0) r then X p0 else 0) ps)).
    rewrite <- IH, <- (Rsum_pick_node (cluster1 p) r (X p) (subnodes root) Hp Hnd).
    rewrite <- Rsum_plus. apply Rsum_ext. intros m _.
    fold (Rsum (map (fun p0 => if Nat.eqb (nodeAddr (cluster1 p0)) (nodeAddr m)
                               then X p0 else 0) ps)).
    destruct (covers m r); ring.
Qed.

Lemma MultiplyAf_farField (t : BlockClusterTree) (v : VectorXd) (s : MVFields) (r : nat) :
  wellFormedHierarchy (tree_root t) ->
  Forall (pairInTree (tree_root t)) (admissiblePairs t) ->
  fst (MultiplyAf t v s) r = fullMasses (tree_root t) r * farField t v r.
Proof.
  intros [Hnd Hleaf _ _ _ Hidx] Hp. unfold MultiplyAf, SetBIs. cbn [fst snd]. f_equal.
  set (root := tree_root t) in *.
  set (s0 := recursivelyZeroMVFields root s).
  destruct (SetVIs_upward v root Hnd Hleaf s0) as [HV [_ [_ HA1]]].
  set (s1 := SetVIs root v s0) in *.
  destruct (accumulateFarField_spec t s1) as [HA2 _].
  set (s2 := accumulateFarField t s1) in *.
  destruct (PropagateBIs_downward root Hnd Hleaf Hidx 0 s2 setZero) as [HIn [HOut _]].
  assert (Hb : snd (PropagateBIs root 0 (s2, setZero)) r = pathSum (aIJ_VJ s2) root r).
  { destruct (in_dec Nat.eq_dec r (leafIndices root)) as [Hr|Hr].
    - rewrite (HIn r Hr). ring.
    - rewrite (HOut r Hr), (pathSum_outside _ root r Hleaf Hr). reflexivity. }
  rewrite Hb. unfold pathSum, farField.
  rewrite <- (pathSum_pairs t root (fun p => a_IJ t p * upwardSum (cluster2 p) v) r
                _ Hnd Hp).
  apply Rsum_ext. intros m Hm. destruct (covers m r); [|reflexivity].
  rewrite HA2, HA1.
  destruct (recursivelyZeroMVFields_zero root s (nodeAddr m)) as [_ [_ Hz]].
  { unfold addrs. apply in_map, Hm. }
  fold s0 in Hz. rewrite Hz, Rplus_0_l. apply Rsum_ext. intros p Hpin.
  destruct (Nat.eqb _ _); [|reflexivity]. f_equal.
  rewrite Forall_forall in Hp. destruct (Hp p Hpin) as [_ H2]. apply HV, H2.
Qed.

(** *** The monopole product on a well-formed hierarchy *)

Lemma Rsum_permutation (l l' : list R) : Permutation l l' -> Rsum l = Rsum l'.
Proof.
  induction 1 as [|x l l' _ IH|x y l|l l' l'' _ IH1 _ IH2]; simpl;
    [reflexivity|rewrite IH; reflexivity|ring|congruence].
Qed.

Lemma positions_as_elements {B : Type} (m : nat -> R) (l : list nat) :
  forall G : nat -> R -> B,
    map (fun k => G (indexAt l k) (massAt (map m l) k)) (seq 0 (length (map m l)))
    = map (fun x => G x (m x)) l.
Proof.
  induction l as [|x l IH]; intros G; [reflexivity|].
  cbn [map length seq]. f_equal.
  rewrite <- seq_shift, map_map. apply IH.
Qed.

Lemma leaves_subnode (n : BVHNode3D) :
  Forall (fun m => IsLeaf m = true -> children m = []) (subnodes n) ->
  forall m, In m (subnodes n) -> incl (leaves m) (leaves n).
Proof.
  induction n as [n IH] using BVHNode3D_children_ind. intros Hleaf m Hm.
  rewrite subnodes_unfold in Hm. destruct Hm as [<-|Hm]; [apply incl_refl|].
  apply in_flat_map in Hm. destruct Hm as [c [Hc Hm]].
  pose proof (Forall_subnodes_self _ _ Hleaf) as Hn. cbv beta in Hn.
  rewrite (leaves_unfold n). destruct (IsLeaf n).
  - rewrite (Hn eq_refl) in Hc. contradiction.
  - rewrite Forall_forall in IH. intros l Hl. apply in_flat_map. exists c.
    split; [exact Hc|]. apply (IH c Hc (Forall_subnodes_child _ n c Hc Hleaf) m Hm), Hl.
Qed.

Lemma NoDup_flat_map_part {A B : Type} (f : A -> list B) (l : list A) (x : A) :
  In x l -> NoDup (flat_map f l) -> NoDup (f x).
Proof.
  induction l as [|y l IH]; intros Hx Hnd; [contradiction|]. cbn [flat_map] in Hnd.
  destruct (NoDup_app_parts _ _ Hnd) as [H1 [H2 _]].
  destruct Hx as [->|Hx]; [exact H1|apply IH; assumption].
Qed.

Lemma NoDup_leafIndices_subnode (n : BVHNode3D) :
  Forall (fun m => IsLeaf m = true -> children m = []) (subnodes n) ->
  NoDup (leafIndices n) ->
  forall m, In m (subnodes n) -> NoDup (leafIndices m).
Proof.
  induction n as [n IH] using BVHNode3D_children_ind. intros Hleaf Hnd m Hm.
  rewrite subnodes_unfold in Hm. destruct Hm as [<-|Hm]; [exact Hnd|].
  apply in_flat_map in Hm. destruct Hm as [c [Hc Hm]].
  pose proof (Forall_subnodes_self _ _ Hleaf) as Hn. cbv beta in Hn.
  rewrite (leafIndices_unfold n) in Hnd. destruct (IsLeaf n).
  - rewrite (Hn eq_refl) in Hc. contradiction.
  - rewrite Forall_forall in IH.
    apply (IH c Hc (Forall_subnodes_child _ n c Hc Hleaf)
             (NoDup_flat_map_part _ _ c Hc Hnd) m Hm).
Qed.

Section WellFormed.

Variable t : BlockClusterTree.
Hypothesis Hwf : wellFormedHierarchy (tree_root t).

Lemma upwardSum_elements (n : BVHNode3D) (w : VectorXd) :
  In n (subnodes (tree_root t)) ->
  upwardSum n w = Rsum (map (fun x => fullMasses (tree_root t) x * w x) (clusterIndices n)).
Proof.
  intros Hn. destruct Hwf as [_ Hleaf Hidx _ Hmass _].
  rewrite Forall_forall in Hidx.
  rewrite (Rsum_permutation _ _ (Permutation_map _ (Hidx n Hn))).
  unfold leafIndices, upwardSum. rewrite map_map. apply Rsum_ext.
  intros l Hl. rewrite Forall_forall in Hmass. rewrite (Hmass l); [reflexivity|].
  eapply leaves_subnode; eassumption.
Qed.

Lemma masses_upwardSum (n : BVHNode3D) :
  In n (subnodes (tree_root t)) ->
  Rsum (clusterMasses n) = upwardSum n setOnes.
Proof.
  intros Hn. rewrite (upwardSum_elements n setOnes Hn).
  destruct Hwf as [_ _ _ Hm _ _]. rewrite Forall_forall in Hm. rewrite (Hm n Hn).
  apply Rsum_ext. intros x _. unfold setOnes. ring.
Qed.

Lemma weightedSum_coord (p : ClusterPair) (v : MatrixXd) (k : nat) :
  In (cluster2 p) (subnodes (tree_root t)) ->
  Vec.coord k (weightedSum p v) = upwardSum (cluster2 p) (col k v).
Proof.
  intros Hn. rewrite (upwardSum_elements _ _ Hn). unfold weightedSum.
  destruct Hwf as [_ _ _ Hm _ _]. rewrite Forall_forall in Hm. rewrite (Hm _ Hn).
  rewrite (positions_as_elements (fullMasses (tree_root t))
             (clusterIndices (cluster2 p)) (fun x w => Vec.scale w (v x))).
  rewrite coord_Vsum, map_map. apply Rsum_ext. intros x _.
  unfold col. destruct k as [|[|k]]; reflexivity.
Qed.

Lemma approxRowTotal_elements (p : ClusterPair) (v : MatrixXd) (r : nat) :
  In (cluster1 p) (subnodes (tree_root t)) ->
  approxRowTotal t p v r
  = if covers (cluster1 p) r
    then Vec.scale (fullMasses (tree_root t) r * 2)
           (Vec.sub (Vec.scale (a_IJ t p * Rsum (clusterMasses (cluster2 p))) (v r))
                    (Vec.scale (a_IJ t p) (weightedSum p v)))
    else Vec.zero.
Proof.
  intros Hn. unfold approxRowTotal, approxContribution.
  destruct Hwf as [_ Hleaf Hidx Hm _ Hnd].
  rewrite Forall_forall in Hm, Hidx. rewrite (Hm _ Hn).
  rewrite (positions_as_elements (fullMasses (tree_root t))
             (clusterIndices (cluster1 p))
             (fun x w => if Nat.eqb r x
                         then Vec.scale (w * 2)
                                (Vec.sub (Vec.scale (a_IJ t p
                                            * Rsum (clusterMasses (cluster2 p))) (v x))
                                         (Vec.scale (a_IJ t p) (weightedSum p v)))
                         else Vec.zero)).
  rewrite (Vsum_permutation _ _ (Permutation_map _ (Hidx _ Hn))).
  destruct (covers (cluster1 p) r) eqn:Hc.
  - apply covers_iff in Hc.
    rewrite (Vsum_pick (fun x => Vec.scale (fullMasses (tree_root t) x * 2) _) r); auto.
    eapply NoDup_leafIndices_subnode; eassumption.
  - apply Vsum_skip. intros Hin. apply covers_iff in Hin. congruence.
Qed.

Lemma approxRowTotal_coord (p : ClusterPair) (v : MatrixXd) (r k : nat) :
  pairInTree (tree_root t) p ->
  Vec.coord k (approxRowTotal t p v r)
  = (2 * fullMasses (tree_root t) r * Vec.coord k (v r))
    * (if covers (cluster1 p) r then a_IJ t p * upwardSum (cluster2 p) setOnes else 0)
    + (- 2 * fullMasses (tree_root t) r)
      * (if covers (cluster1 p) r then a_IJ t p * upwardSum (cluster2 p) (col k v) else 0).
Proof.
  intros [H1 H2]. rewrite (approxRowTotal_elements p v r H1).
  rewrite <- (weightedSum_coord p v k H2), <- (masses_upwardSum _ H2).
  destruct (covers (cluster1 p) r).
  - destruct k as [|[|k]]; unfold Vec.coord, Vec.scale, Vec.sub; cbn [vx vy vz]; ring.
  - destruct k as [|[|k]]; unfold Vec.coord, Vec.zero; cbn [vx vy vz]; ring.
Qed.

Hypothesis Hpairs : Forall (pairInTree (tree_root t)) (admissiblePairs t).

Lemma MultiplyAdmissible_coord (v : MatrixXd) (r k : nat) :
  Vec.coord k (MultiplyAdmissible t v zeroMatrix r)
  = 2 * (fullMasses (tree_root t) r * farField t setOnes r * Vec.coord k (v r)
         - fullMasses (tree_root t) r * farField t (col k v) r).
Proof.
  rewrite MultiplyAdmissible_rows.
  replace (Vec.coord k (Vec.add (zeroMatrix r)
             (Vsum (map (fun p => approxRowTotal t p v r) (admissiblePairs t)))))
    with (Vec.coord k (Vsum (map (fun p => approxRowTotal t p v r) (admissiblePairs t))))
    by (unfold zeroMatrix; destruct k as [|[|k]];
        unfold Vec.coord, Vec.add, Vec.zero; cbn [vx vy vz]; ring).
  rewrite coord_Vsum, map_map.
  rewrite (Rsum_ext _
    (fun p => (2 * fullMasses (tree_root t) r * Vec.coord k (v r))
              * (if covers (cluster1 p) r
                 then a_IJ t p * upwardSum (cluster2 p) setOnes else 0)
              + (- 2 * fullMasses (tree_root t) r)
                * (if covers (cluster1 p) r
                   then a_IJ t p * upwardSum (cluster2 p) (col k v) else 0))).
  - rewrite Rsum_plus, !Rsum_scale. unfold farField. ring.
  - intros p Hp. apply approxRowTotal_coord.
    rewrite Forall_forall in Hpairs. apply Hpairs, Hp.
Qed.

Lemma MultiplyAdmissibleFast_coord (v b_hat : MatrixXd) (s : MVFields) (r k : nat) :
  (k < 3)%nat ->
  Vec.coord k (fst (MultiplyAdmissibleFast t v b_hat s) r)
  = 2 * (fullMasses (tree_root t) r * farField t setOnes r * Vec.coord k (v r)
         - fullMasses (tree_root t) r * farField t (col k v) r).
Proof.
  intros Hk. rewrite MultiplyAdmissibleFast_rows. cbv zeta.
  rewrite !(MultiplyAf_farField t _ _ r Hwf Hpairs).
  destruct k as [|[|[|k]]]; [| | |lia];
    unfold Vec.coord, Vec.scale, Vec.sub; cbn [vx vy vz]; reflexivity.
Qed.

End WellFormed.

(** C3: on a well-formed hierarchy, and in exact arithmetic, the
    propagation product (the row sums from the all-ones vector, the three
    columns through the upward and downward passes, then
    2 (diag(h_f) v - raw)) gives, whatever the output buffer and the
    scratch fields held, the output of the monopole product over the
    admissible pairs on a zero buffer. *)
Theorem C3_propagation_equals_monopole
    (cg : PolyCurveGroup) (root : BVHNode3D) (sepCoeff a b e : R)
    (fuel : nat) (t : BlockClusterTree)
    (v_hat b_hat : MatrixXd) (s : MVFields) (r : nat) :
  BlockClusterTree_new fuel cg root sepCoeff a b e = Some t ->
  wellFormedHierarchy root ->
  fst (MultiplyAdmissibleFast t v_hat b_hat s) r
  = MultiplyAdmissible t v_hat zeroMatrix r.
Proof.
  intros Hnew Hwf.
  destruct (constructed_in_tree _ _ _ _ _ _ _ _ Hnew) as [Hroot [Ha _]].
  rewrite <- Hroot in Hwf, Ha.
  apply Vector3_coords. intros k Hk.
  rewrite (MultiplyAdmissibleFast_coord t Hwf Ha v_hat b_hat s r k Hk).
  rewrite (MultiplyAdmissible_coord t Hwf Ha v_hat r k). reflexivity.
Qed.

(** ** Zero distance between two centers of mass *)

Lemma norm_self (c : Vector3) : norm (Vec.sub c c) = 0.
Proof.
  unfold norm, Vec.sub. cbn [vx vy vz].
  replace ((vx c - vx c) * (vx c - vx c) + (vy c - vy c) * (vy c - vy c)
           + (vz c - vz c) * (vz c - vz c)) with 0 by ring.
  apply sqrt_0.
Qed.

Lemma isPairAdmissible_checked_ok (pair : ClusterPair) (theta : R) :
  isPairAdmissible_checked pair theta = Ok (isPairAdmissible pair theta).
Proof.
  unfold isPairAdmissible_checked, isPairAdmissible.
  destruct (Nat.eqb _ _); reflexivity.
Qed.

Lemma a_IJ_checked_sound (t : BlockClusterTree) (pair : ClusterPair) (x : R) :
  a_IJ_checked t pair = Ok x -> a_IJ t pair = x.
Proof.
  unfold a_IJ_checked, a_IJ, pow_checked, pow, div_checked, bind. cbv zeta.
  destruct (Req_dec_T _ 0) as [Hz|Hnz].
  - destruct (Rlt_dec 0 (beta t - alpha t)).
    + destruct (Req_dec_T 0 0); [discriminate|]. congruence.
    + destruct (Req_dec_T (beta t - alpha t) 0); [|discriminate].
      destruct (Req_dec_T 1 0); [discriminate|]. congruence.
  - destruct (Req_dec_T (Rpower _ _) 0); [discriminate|]. congruence.
Qed.

Lemma a_IJ_checked_coincident (t : BlockClusterTree) (pair : ClusterPair) :
  centerOfMass (cluster1 pair) = centerOfMass (cluster2 pair) ->
  0 < beta t - alpha t ->
  a_IJ_checked t pair = DivideByZero.
Proof.
  intros Hc Hs. unfold a_IJ_checked, pow_checked, div_checked, bind. cbv zeta.
  rewrite Hc, norm_self.
  destruct (Req_dec_T 0 0) as [_|Hne]; [|contradiction Hne; reflexivity].
  destruct (Rlt_dec 0 (beta t - alpha t)); [|contradiction].
  destruct (Req_dec_T 0 0) as [_|Hne]; [reflexivity|contradiction Hne; reflexivity].
Qed.

Lemma isPairAdmissible_coincident (pair : ClusterPair) (theta : R) :
  ~ sameReference pair ->
  centerOfMass (cluster1 pair) = centerOfMass (cluster2 pair) ->
  isPairAdmissible pair theta = Rltb (maxExtent pair) 0.
Proof.
  intros Hd Hc. unfold isPairAdmissible, sameReference in *. cbv zeta.
  destruct (Nat.eqb_spec (nodeAddr (cluster1 pair)) (nodeAddr (cluster2 pair)));
    [contradiction|].
  rewrite maxExtent_code, Hc, norm_self, Rmult_0_r. reflexivity.
Qed.

(** C6, as the code has it: for two distinct clusters whose centers of
    mass coincide and a positive kernel power beta - alpha, the far-field
    scalar a_IJ = 1 / dist^(beta - alpha) divides by zero, unguarded; the
    admissibility test has no power and no quotient, so nothing is divided
    there: it compares the largest extent with theta times zero. *)
Theorem C6_zero_distance
    (t : BlockClusterTree) (pair : ClusterPair) (theta : R) :
  ~ sameReference pair ->
  centerOfMass (cluster1 pair) = centerOfMass (cluster2 pair) ->
  0 < beta t - alpha t ->
  a_IJ_checked t pair = DivideByZero
  /\ isPairAdmissible_checked pair theta = Ok (Rltb (maxExtent pair) 0).
Proof.
  intros Hd Hc Hs. split.
  - apply a_IJ_checked_coincident; assumption.
  - rewrite isPairAdmissible_checked_ok. f_equal.
    apply isPairAdmissible_coincident; assumption.
Qed.

(** C6, as the specification words it, does not hold: no pair makes the
    admissibility test divide by zero, so none does in the test and in
    a_IJ at once.  For the two leaves of the instance that share a center
    of mass the test answers false without dividing, while a_IJ divides by
    zero. *)
Lemma C6_admissibility_test_never_divides :
  isPairAdmissible_checked Example.twins 1 = Ok false
  /\ a_IJ_checked Example.tree Example.twins = DivideByZero
  /\ ~ exists (t : BlockClusterTree) (pair : ClusterPair) (theta : R),
        ~ sameReference pair
        /\ centerOfMass (cluster1 pair) = centerOfMass (cluster2 pair)
        /\ isPairAdmissible_checked pair theta = DivideByZero
        /\ a_IJ_checked t pair = DivideByZero.
Proof.
  split; [|split].
  - rewrite isPairAdmissible_checked_ok. f_equal.
    rewrite isPairAdmissible_coincident;
      [|unfold sameReference; simpl; lia|reflexivity].
    unfold maxExtent, Rltb. cbn. unfold Rmax.
    repeat destruct (Rle_dec _ _); destruct (Rlt_dec _ _); try reflexivity; lra.
  - apply a_IJ_checked_coincident; [reflexivity|simpl; lra].
  - intros [t [pair [theta [_ [_ [H _]]]]]].
    rewrite isPairAdmissible_checked_ok in H. discriminate.
Qed.

(** ** The instance *)

Lemma splitInadmissibleNodes_filters (t : BlockClusterTree) :
  splitInadmissibleNodes t
  = set_pairs t
      (admissiblePairs t ++ filter (goesAdmissible (separationCoeff t)) (unresolvedPairs t))
      (flat_map childrenProduct
         (filter (goesSubdivide (separationCoeff t)) (unresolvedPairs t)))
      (inadmissiblePairs t
         ++ filter (goesInadmissible (separationCoeff t)) (unresolvedPairs t)).
Proof. unfold splitInadmissibleNodes. rewrite fold_splitBody. reflexivity. Qed.

Module ExampleFacts.

Import Example.

Lemma rule_root : ruleOf 1 (mkClusterPair root root) = Subdivide.
Proof. reflexivity. Qed.

Lemma rule_AA : ruleOf 1 AA = SmallInadmissible.
Proof. reflexivity. Qed.

Lemma rule_BB : ruleOf 1 BB = SmallInadmissible.
Proof. reflexivity. Qed.

Lemma far_apart (x y : R) :
  x <> y -> 0 < 1 * norm (Vec.sub (mkVector3 x 0 0) (mkVector3 y 0 0)).
Proof.
  intros Hxy. rewrite Rmult_1_l. apply sqrt_lt_R0. unfold Vec.sub. cbn [vx vy vz].
  assert (0 < (x - y) * (x - y)) by nra. nra.
Qed.

Lemma admissible_AB : isPairAdmissible AB 1 = true.
Proof.
  apply isPairAdmissible_true_iff. split; [unfold sameReference; simpl; lia|].
  unfold maxExtent, centroidDistance. cbn.
  unfold Rmax. repeat destruct (Rle_dec _ _); try lra;
    apply (far_apart (3 / 2) 4); lra.
Qed.

Lemma admissible_BA : isPairAdmissible BA 1 = true.
Proof.
  apply isPairAdmissible_true_iff. split; [unfold sameReference; simpl; lia|].
  unfold maxExtent, centroidDistance. cbn.
  unfold Rmax. repeat destruct (Rle_dec _ _); try lra;
    apply (far_apart 4 (3 / 2)); lra.
Qed.

Lemma rule_AB : ruleOf 1 AB = Admissible.
Proof. unfold ruleOf. rewrite admissible_AB. reflexivity. Qed.

Lemma rule_BA : ruleOf 1 BA = Admissible.
Proof. unfold ruleOf. rewrite admissible_BA. reflexivity. Qed.

Ltac tree_fields :=
  cbn [initialTree set_pairs curves tree_root alpha beta separationCoeff epsilon
       nVerts constraintsSet mode admissiblePairs unresolvedPairs inadmissiblePairs
       filter app].

Lemma constructed : BlockClusterTree_new 2 curve root 1 2 4 0 = Some tree.
Proof.
  unfold BlockClusterTree_new.
  change (classifyLoop 2 (initialTree curve root 1 2 4 0))
    with (classifyLoop 1 (splitInadmissibleNodes (initialTree curve root 1 2 4 0))).
  rewrite splitInadmissibleNodes_filters. tree_fields.
  unfold goesAdmissible, goesSubdivide, goesInadmissible. rewrite rule_root.
  cbn [isRule orb flat_map app]. rewrite app_nil_r.
  change (childrenProduct (mkClusterPair root root)) with [AA; AB; BA; BB].
  cbn [classifyLoop unresolvedPairs].
  rewrite splitInadmissibleNodes_filters. tree_fields.
  unfold goesAdmissible, goesSubdivide, goesInadmissible.
  rewrite rule_AA, rule_AB, rule_BA, rule_BB.
  cbn [isRule orb flat_map app]. reflexivity.
Qed.

Lemma partitioned : partitionedHierarchy root.
Proof.
  unfold partitionedHierarchy. cbn [subnodes root A B A1 L0 L1 L2 L3 L4 inner leaf
    children flat_map app].
  repeat (apply Forall_cons;
          [intros H; first [apply Permutation_refl|simpl in H; lia]|]).
  apply Forall_nil.
Qed.

Lemma shrinking : shrinkingHierarchy root.
Proof.
  unfold shrinkingHierarchy. cbn [subnodes root A B A1 L0 L1 L2 L3 L4 inner leaf
    children flat_map app].
  repeat (apply Forall_cons; [repeat (apply Forall_cons; [simpl; lia|]); apply Forall_nil|]).
  apply Forall_nil.
Qed.

Ltac distinct :=
  repeat (constructor; [simpl; intuition discriminate|]); constructor.

Lemma indices_distinct : NoDup (clusterIndices root).
Proof. simpl. distinct. Qed.

Lemma wellFormed : wellFormedHierarchy root.
Proof.
  constructor.
  - unfold addrs. simpl. distinct.
  - cbn [subnodes root A B A1 L0 L1 L2 L3 L4 inner leaf children flat_map app].
    repeat (apply Forall_cons; [simpl; intros H; first [reflexivity|discriminate]|]).
    apply Forall_nil.
  - cbn [subnodes root A B A1 L0 L1 L2 L3 L4 inner leaf children flat_map app].
    repeat (apply Forall_cons; [apply Permutation_refl|]). apply Forall_nil.
  - cbn [subnodes root A B A1 L0 L1 L2 L3 L4 inner leaf children flat_map app].
    repeat (apply Forall_cons; [reflexivity|]). apply Forall_nil.
  - simpl. repeat (apply Forall_cons; [reflexivity|]). apply Forall_nil.
  - simpl. distinct.
Qed.

(** The entry of the elements 0 and 2: unit lengths, midpoints at distance
    2, power beta - alpha = 2. *)
Example kernel_0_2 : kernelEntry tree 0 2 = 1 / 4.
Proof.
  rewrite kernelEntry_apart.
  - unfold segmentLength, segmentMidpoint, norm, Vec.sub, Vec.add, Vec.divs.
    cbn [tree curves curve GetCurvePoint Next Position pCurve pIndex vx vy vz
         alpha beta INR].
    replace ((0 - 1) * (0 - 1) + (0 - 0) * (0 - 0) + (0 - 0) * (0 - 0)) with (1 * 1)
      by ring.
    replace ((1 + 1 - (1 + 1 + 1)) * (1 + 1 - (1 + 1 + 1)) + (0 - 0) * (0 - 0)
             + (0 - 0) * (0 - 0)) with (1 * 1) by ring.
    replace (((0 + 1) / 2 - (1 + 1 + (1 + 1 + 1)) / 2)
             * ((0 + 1) / 2 - (1 + 1 + (1 + 1 + 1)) / 2)
             + ((0 + 0) / 2 - (0 + 0) / 2) * ((0 + 0) / 2 - (0 + 0) / 2)
             + ((0 + 0) / 2 - (0 + 0) / 2) * ((0 + 0) / 2 - (0 + 0) / 2))
      with (2 * 2) by field.
    rewrite !sqrt_square by lra.
    unfold pow. destruct (Req_dec_T 2 0) as [H|_]; [lra|].
    replace (4 - 2) with (INR 2) by (simpl; ring).
    rewrite Rpower_pow by lra. simpl. field.
  - unfold shareEndpoint, identicalOrAdjacent. simpl. intuition discriminate.
Qed.

(** The elements 0 and 1 follow each other: their entry is zero. *)
Example kernel_0_1 : kernelEntry tree 0 1 = 0.
Proof. apply kernelEntry_shared. left. right. left. reflexivity. Qed.

End ExampleFacts.

(** ** The claims at the instance *)

Lemma C1_witness :
  BlockClusterTree_new 2%nat Example.curve Example.root 1 2 4 0 = Some Example.tree
  /\ partitionedHierarchy Example.root
  /\ NoDup (clusterIndices Example.root)
  /\ In 0%nat (clusterIndices Example.root)
  /\ In 3%nat (clusterIndices Example.root)
  /\ (representations (0, 3)%nat (admissiblePairs Example.tree)
      + representations (0, 3)%nat (inadmissiblePairs Example.tree)
      + representations (0, 3)%nat
          (droppedPairs 2%nat (initialTree Example.curve Example.root 1 2 4 0)) = 1)%nat.
Proof.
  assert (H0 : In 0%nat (clusterIndices Example.root)) by (simpl; tauto).
  assert (H3 : In 3%nat (clusterIndices Example.root)) by (simpl; tauto).
  repeat (split; [first [exact ExampleFacts.constructed|exact ExampleFacts.partitioned
                        |exact ExampleFacts.indices_distinct|assumption]|]).
  exact (proj1 (C1_blocks_partition_index_pairs Example.curve Example.root 1 2 4 0 2%nat
                  Example.tree 0%nat 3%nat ExampleFacts.constructed ExampleFacts.partitioned
                  ExampleFacts.indices_distinct H0 H3)).
Defined.

Lemma C2_witness :
  NoDup (clusterIndices (cluster1 Example.AA))
  /\ In 0%nat (clusterIndices (cluster1 Example.AA))
  /\ AfFullProduct Example.tree Example.AA (oneHot 2%nat Example.unitX) zeroMatrix 0%nat
     = Vec.add (zeroMatrix 0%nat)
         (Vsum (map (fun j => Vec.scale 2
                       (Vec.sub (Vec.scale (kernelEntry Example.tree 0%nat j)
                                           (oneHot 2%nat Example.unitX 0%nat))
                                (Vec.scale (kernelEntry Example.tree 0%nat j)
                                           (oneHot 2%nat Example.unitX j))))
                    (clusterIndices (cluster2 Example.AA)))).
Proof.
  assert (Hnd : NoDup (clusterIndices (cluster1 Example.AA))).
  { simpl. ExampleFacts.distinct. }
  assert (Hin : In 0%nat (clusterIndices (cluster1 Example.AA))) by (simpl; tauto).
  split; [exact Hnd|]. split; [exact Hin|].
  exact (proj1 (C2_exact_near_field Example.tree Example.AA (oneHot 2%nat Example.unitX)
                  zeroMatrix 0%nat Hnd Hin)).
Defined.

Lemma C4_witness :
  countsFitInt (mkClusterPair Example.root Example.root)
  /\ exists r : Rule,
       appliesRule 1 (mkClusterPair Example.root Example.root) r
       /\ (forall r', appliesRule 1 (mkClusterPair Example.root Example.root) r' -> r' = r)
       /\ splitBody (initialTree Example.curve Example.root 1 2 4 0, [])
                    (mkClusterPair Example.root Example.root)
          = ruleEffect r (initialTree Example.curve Example.root 1 2 4 0) []
              (mkClusterPair Example.root Example.root).
Proof.
  assert (Hfit : countsFitInt (mkClusterPair Example.root Example.root)).
  { unfold countsFitInt, fitsInt, INT_MIN, INT_MAX. simpl. lia. }
  split; [exact Hfit|].
  exact (C4_rules_in_priority_order (initialTree Example.curve Example.root 1 2 4 0) []
           (mkClusterPair Example.root Example.root) Hfit).
Defined.

(** C4, as the claim words it, fails where the [int] sum of the two counts
    overflows: the pair of a node of 2^30 elements with itself has no empty
    side, is no pair of singletons, is not admissible and has 2^31 elements
    together, so that only the rule of subdivision applies; but the sum of
    line 69 is -2^31, the pair passes [isPairSmallEnough], and the loop body
    stores it as inadmissible. *)
Lemma C4_combined_count_overflows :
  appliesRule 1 Instances.hugePair Subdivide
  /\ splitBody (initialTree Example.curve Instances.hugeNode 1 2 4 0, [])
               Instances.hugePair
     = ruleEffect SmallInadmissible (initialTree Example.curve Instances.hugeNode 1 2 4 0)
         [] Instances.hugePair
  /\ ~ (forall (t : BlockClusterTree) (nextPairs : list ClusterPair) (pair : ClusterPair),
          exists r : Rule,
            appliesRule (separationCoeff t) pair r
            /\ splitBody (t, nextPairs) pair = ruleEffect r t nextPairs pair).
Proof.
  assert (Hr : appliesRule 1 Instances.hugePair Subdivide).
  { apply rule5.
    - unfold someSideEmpty. simpl. lia.
    - unfold bothSingletons. simpl. lia.
    - reflexivity.
    - unfold smallEnough. simpl. lia. }
  assert (Hb : splitBody (initialTree Example.curve Instances.hugeNode 1 2 4 0, [])
                 Instances.hugePair
               = ruleEffect SmallInadmissible
                   (initialTree Example.curve Instances.hugeNode 1 2 4 0)
                   [] Instances.hugePair) by reflexivity.
  split; [exact Hr|]. split; [exact Hb|].
  intros H.
  destruct (H (initialTree Example.curve Instances.hugeNode 1 2 4 0) []
              Instances.hugePair) as [r [Ha He]].
  assert (Hsub : r = Subdivide).
  { apply (appliesRule_deterministic 1 Instances.hugePair); [exact Ha|exact Hr]. }
  subst r. rewrite Hb in He.
  apply (f_equal (fun x => length (inadmissiblePairs (fst x)))) in He.
  simpl in He. discriminate.
Qed.

Lemma C3_witness :
  BlockClusterTree_new 2%nat Example.curve Example.root 1 2 4 0 = Some Example.tree
  /\ wellFormedHierarchy Example.root
  /\ fst (MultiplyAdmissibleFast Example.tree (oneHot 3%nat Example.unitX) zeroMatrix
            Example.zeroFields) 0%nat
     = MultiplyAdmissible Example.tree (oneHot 3%nat Example.unitX) zeroMatrix 0%nat.
Proof.
  split; [exact ExampleFacts.constructed|]. split; [exact ExampleFacts.wellFormed|].
  exact (C3_propagation_equals_monopole Example.curve Example.root 1 2 4 0 2%nat
           Example.tree (oneHot 3%nat Example.unitX) zeroMatrix Example.zeroFields 0%nat
           ExampleFacts.constructed ExampleFacts.wellFormed).
Defined.

Lemma C6_witness :
  ~ sameReference Example.twins
  /\ centerOfMass (cluster1 Example.twins) = centerOfMass (cluster2 Example.twins)
  /\ 0 < beta Example.tree - alpha Example.tree
  /\ a_IJ_checked Example.tree Example.twins = DivideByZero
  /\ isPairAdmissible_checked Example.twins 1
     = Ok (Rltb (maxExtent Example.twins) 0).
Proof.
  assert (Hd : ~ sameReference Example.twins) by (unfold sameReference; simpl; lia).
  assert (Hs : 0 < beta Example.tree - alpha Example.tree) by (simpl; lra).
  split; [exact Hd|]. split; [reflexivity|]. split; [exact Hs|].
  exact (C6_zero_distance Example.tree Example.twins 1 Hd eq_refl Hs).
Defined.

Lemma C7_witness :
  BlockClusterTree_new 2%nat Example.curve Example.root 1 2 4 0 = Some Example.tree
  /\ fst (MultiplyAdmissibleFast Example.tree
            (axpy (oneHot 0%nat Example.unitX) 2 (oneHot 3%nat Example.unitX)) zeroMatrix
            Example.zeroFields) 0%nat
     = Vec.add
         (fst (MultiplyAdmissibleFast Example.tree (oneHot 0%nat Example.unitX) zeroMatrix
                 Example.zeroFields) 0%nat)
         (Vec.scale 2
            (fst (MultiplyAdmissibleFast Example.tree (oneHot 3%nat Example.unitX) zeroMatrix
                    Example.zeroFields) 0%nat)).
Proof.
  split; [exact ExampleFacts.constructed|].
  exact (proj2 (proj2 (C7_products_linear Example.curve Example.root 1 2 4 0 2%nat
                         Example.tree (oneHot 0%nat Example.unitX) (oneHot 3%nat Example.unitX)
                         2 Example.zeroFields 0%nat ExampleFacts.constructed))).
Defined.

Lemma C8_witness :
  BlockClusterTree_new 2%nat Example.curve Example.root 1 2 4 0 = Some Example.tree
  /\ 0%nat <> 3%nat
  /\ fullMultiply Example.tree (oneHot 0%nat Example.unitX) 3%nat
     = fullMultiply Example.tree (oneHot 3%nat Example.unitX) 0%nat.
Proof.
  assert (Hne : 0%nat <> 3%nat) by lia.
  split; [exact ExampleFacts.constructed|]. split; [exact Hne|].
  exact (C8_full_product_symmetric Example.curve Example.root 1 2 4 0 2%nat Example.tree
           0%nat 3%nat Example.unitX ExampleFacts.constructed Hne).
Defined.

Lemma C9_witness :
  shrinkingHierarchy Example.root
  /\ (1 <= 5)%nat
  /\ (NumElements Example.root <= Z.of_nat 5)%Z
  /\ exists t : BlockClusterTree,
       BlockClusterTree_new 5%nat Example.curve Example.root 1 2 4 0 = Some t
       /\ unresolvedPairs t = [].
Proof.
  assert (H1 : (1 <= 5)%nat) by lia.
  assert (H2 : (NumElements Example.root <= Z.of_nat 5)%Z) by (simpl; lia).
  split; [exact ExampleFacts.shrinking|]. split; [exact H1|]. split; [exact H2|].
  exact (proj1 (C9_classification_terminates Example.curve Example.root 1 2 4 0 5%nat
                  ExampleFacts.shrinking H1 H2)).
Defined.

(** * Further properties of the classifier *)

Lemma classifyLoop_done (fuel : nat) (t : BlockClusterTree) :
  unresolvedPairs t = [] -> classifyLoop fuel t = Some t.
Proof. intros H. destruct fuel; simpl; rewrite H; reflexivity. Qed.

Lemma classifyLoop_step (fuel : nat) (t : BlockClusterTree) :
  unresolvedPairs t <> [] ->
  classifyLoop (S fuel) t = classifyLoop fuel (splitInadmissibleNodes t).
Proof. intros H. simpl. destruct (unresolvedPairs t); [contradiction H|]; reflexivity. Qed.

Lemma first_round (cg : PolyCurveGroup) (root : BVHNode3D) (sepCoeff a b e : R) :
  splitInadmissibleNodes (initialTree cg root sepCoeff a b e)
  = set_pairs (initialTree cg root sepCoeff a b e)
      (filter (goesAdmissible sepCoeff) [mkClusterPair root root])
      (flat_map childrenProduct (filter (goesSubdivide sepCoeff) [mkClusterPair root root]))
      (filter (goesInadmissible sepCoeff) [mkClusterPair root root]).
Proof. rewrite splitInadmissibleNodes_filters. reflexivity. Qed.

Lemma ruleOf_root_empty (theta : R) (root : BVHNode3D) :
  NumElements root = 0%Z -> ruleOf theta (mkClusterPair root root) = Drop.
Proof.
  intros H. unfold ruleOf, hasEmptySide. cbn [cluster1 cluster2]. rewrite H. reflexivity.
Qed.

Lemma ruleOf_root_small (theta : R) (root : BVHNode3D) :
  (1 <= NumElements root <= 4)%Z ->
  goesInadmissible theta (mkClusterPair root root) = true
  /\ goesAdmissible theta (mkClusterPair root root) = false
  /\ goesSubdivide theta (mkClusterPair root root) = false.
Proof.
  intros H. unfold goesInadmissible, goesAdmissible, goesSubdivide, ruleOf,
    hasEmptySide, isPairAdmissible, isPairSmallEnough.
  cbn [cluster1 cluster2]. rewrite Nat.eqb_refl.
  destruct (Z.eqb_spec (NumElements root) 0); [lia|]. cbn [orb].
  destruct (Z.eqb_spec (NumElements root) 1); cbn [andb]; [repeat split|].
  destruct (Z.leb_spec (NumElements root) 1); [lia|]. cbn [orb].
  rewrite wrapInt_fits by (unfold fitsInt, INT_MIN, INT_MAX; lia).
  destruct (Z.leb_spec (NumElements root + NumElements root) 8); [|lia].
  repeat split.
Qed.

(** X1: a root without elements is dropped in the first round: the
    constructor returns after one round with both collections empty, and
    then the two direct products leave every output buffer as it is. *)
Theorem X1_empty_hierarchy
    (cg : PolyCurveGroup) (root : BVHNode3D) (sepCoeff a b e : R) (fuel : nat) :
  NumElements root = 0%Z ->
  exists t : BlockClusterTree,
    BlockClusterTree_new (S fuel) cg root sepCoeff a b e = Some t
    /\ admissiblePairs t = [] /\ inadmissiblePairs t = []
    /\ (forall v_hat b_hat r,
          MultiplyInadmissible t v_hat b_hat r = b_hat r
          /\ MultiplyAdmissible t v_hat b_hat r = b_hat r).
Proof.
  intros H0.
  exists (set_pairs (initialTree cg root sepCoeff a b e) [] [] []).
  split; [|split; [reflexivity|split; [reflexivity|]]].
  - unfold BlockClusterTree_new. rewrite classifyLoop_step by (simpl; discriminate).
    rewrite first_round. unfold goesAdmissible, goesSubdivide, goesInadmissible.
    cbn [filter]. rewrite (ruleOf_root_empty sepCoeff root H0). cbn.
    apply classifyLoop_done. reflexivity.
  - intros v_hat b_hat r. split; reflexivity.
Qed.

(** X2: a root with one to four elements is never subdivided and, being
    paired with itself, never admissible: whatever the separation
    coefficient, the constructor stores the single inadmissible pair
    (root, root) after one round.  The full product is then the direct
    double loop over all elements: at an element i of a root that lists
    every element once it is the sum over all j of
    2 (a(i,j) v(i) - a(i,j) v(j)). *)
Theorem X2_small_hierarchy_is_brute_force
    (cg : PolyCurveGroup) (root : BVHNode3D) (sepCoeff a b e : R) (fuel : nat)
    (v_hat : MatrixXd) (i : nat) :
  (1 <= NumElements root <= 4)%Z ->
  NoDup (clusterIndices root) ->
  In i (clusterIndices root) ->
  exists t : BlockClusterTree,
    BlockClusterTree_new (S fuel) cg root sepCoeff a b e = Some t
    /\ admissiblePairs t = []
    /\ inadmissiblePairs t = [mkClusterPair root root]
    /\ fullMultiply t v_hat i
       = Vsum (map (fun j => Vec.scale 2
                      (Vec.sub (Vec.scale (kernelEntry t i j) (v_hat i))
                               (Vec.scale (kernelEntry t i j) (v_hat j))))
                   (clusterIndices root)).
Proof.
  intros Hn Hnd Hi.
  destruct (ruleOf_root_small sepCoeff root Hn) as [HI [HA HS]].
  exists (set_pairs (initialTree cg root sepCoeff a b e) [] [] [mkClusterPair root root]).
  split; [|split; [reflexivity|split; [reflexivity|]]].
  - unfold BlockClusterTree_new. rewrite classifyLoop_step by (simpl; discriminate).
    rewrite first_round. cbn [filter]. rewrite HI, HA, HS. cbn [flat_map].
    apply classifyLoop_done. reflexivity.
  - unfold fullMultiply. rewrite MultiplyInadmissible_rows, MultiplyAdmissible_rows.
    cbn [set_pairs admissiblePairs inadmissiblePairs map Vsum fold_right].
    unfold fullRowTotal. cbn [cluster1 cluster2].
    rewrite (Vsum_pick _ i _ Hnd Hi). unfold fullContribution. cbn [cluster2].
    rewrite Vsum_doubled_differences. unfold zeroMatrix. vec.
Qed.

Lemma ruleOf_cases (theta : R) (p : ClusterPair) :
  match ruleOf theta p with
  | Drop => someSideEmpty p
  | SingletonInadmissible => ~ someSideEmpty p /\ bothSingletons p
  | Admissible =>
      ~ someSideEmpty p /\ ~ bothSingletons p /\ isPairAdmissible p theta = true
  | SmallInadmissible =>
      ~ someSideEmpty p /\ ~ bothSingletons p /\ isPairAdmissible p theta = false
      /\ smallEnoughInt p
  | Subdivide =>
      ~ someSideEmpty p /\ ~ bothSingletons p /\ isPairAdmissible p theta = false
      /\ ~ smallEnoughInt p
  end.
Proof.
  unfold ruleOf.
  destruct (hasEmptySide p) eqn:He; [apply hasEmptySide_iff, He|].
  assert (Hne : ~ someSideEmpty p).
  { rewrite <- hasEmptySide_iff, He. discriminate. }
  destruct (_ && _)%bool eqn:Hs.
  { split; [exact Hne|]. apply andb_true_iff in Hs. rewrite !Z.eqb_eq in Hs. exact Hs. }
  assert (Hns : ~ bothSingletons p).
  { unfold bothSingletons. rewrite <- !Z.eqb_eq, <- andb_true_iff, Hs. discriminate. }
  destruct (isPairAdmissible p theta) eqn:Ha; [tauto|].
  destruct (isPairSmallEnough p) eqn:Hm.
  - repeat (split; [first [assumption|reflexivity]|]). apply isPairSmallEnough_iff, Hm.
  - repeat (split; [first [assumption|reflexivity]|]).
    rewrite <- isPairSmallEnough_iff, Hm. discriminate.
Qed.

Lemma goesAdmissible_stored (theta : R) (p : ClusterPair) :
  goesAdmissible theta p = true -> storedAdmissible theta p.
Proof.
  unfold goesAdmissible. intros H. pose proof (ruleOf_cases theta p) as Ha.
  destruct (ruleOf theta p); try discriminate.
  destruct Ha as [He [Hs Hadm]]. apply isPairAdmissible_true_iff in Hadm.
  unfold storedAdmissible. tauto.
Qed.

Lemma goesInadmissible_stored (theta : R) (p : ClusterPair) :
  goesInadmissible theta p = true -> storedInadmissible theta p.
Proof.
  unfold goesInadmissible. intros H. pose proof (ruleOf_cases theta p) as Ha.
  destruct (ruleOf theta p); try discriminate; unfold storedInadmissible; tauto.
Qed.

Lemma classifyLoop_stored (theta : R) (fuel : nat) :
  forall t t',
    classifyLoop fuel t = Some t' ->
    separationCoeff t = theta ->
    Forall (storedAdmissible theta) (admissiblePairs t) ->
    Forall (storedInadmissible theta) (inadmissiblePairs t) ->
    Forall (storedAdmissible theta) (admissiblePairs t')
    /\ Forall (storedInadmissible theta) (inadmissiblePairs t').
Proof.
  induction fuel as [|fuel IH]; intros t t' Hloop Hth Ha Hi; simpl in Hloop.
  - destruct (unresolvedPairs t); [|discriminate]. injection Hloop as <-. tauto.
  - destruct (unresolvedPairs t) eqn:Heq; [injection Hloop as <-; tauto|].
    clear Heq. apply (IH _ _ Hloop).
    + rewrite (proj1 (split_params t)). exact Hth.
    + rewrite split_admissible, Hth. apply Forall_app. split; [exact Ha|].
      apply Forall_forall. intros p Hp. apply filter_In in Hp.
      apply goesAdmissible_stored. tauto.
    + rewrite split_inadmissible, Hth. apply Forall_app. split; [exact Hi|].
      apply Forall_forall. intros p Hp. apply filter_In in Hp.
      apply goesInadmissible_stored. tauto.
Qed.

(** X3: what the constructor stores.  Every admissible pair has elements on
    both sides, is not a pair of two singletons, pairs two different nodes
    and passes the separation test; every inadmissible pair has elements on
    both sides and is a pair of two singletons, or a pair that fails the
    separation test and passes the small-enough test of the code: a side
    with at most one element, or an [int] sum of the two counts of at most
    8.  Where the combined count is in the range of [int] that is: a side
    with at most one element or at most eight elements together.  So a
    diagonal block (a node with itself) is never approximated, and no
    stored pair has an empty side. *)
Theorem X3_stored_pairs
    (cg : PolyCurveGroup) (root : BVHNode3D) (sepCoeff a b e : R)
    (fuel : nat) (t : BlockClusterTree) :
  BlockClusterTree_new fuel cg root sepCoeff a b e = Some t ->
  Forall (storedAdmissible sepCoeff) (admissiblePairs t)
  /\ Forall (storedInadmissible sepCoeff) (inadmissiblePairs t)
  /\ Forall (fun p => countsFitInt p -> bothSingletons p \/ smallEnough p)
            (inadmissiblePairs t).
Proof.
  intros Hnew.
  destruct (classifyLoop_stored sepCoeff fuel _ _ Hnew eq_refl
              (Forall_nil _) (Forall_nil _)) as [Ha Hi].
  split; [exact Ha|]. split; [exact Hi|].
  apply Forall_forall. intros p Hp Hfit. rewrite Forall_forall in Hi.
  destruct (Hi p Hp) as [_ [Hs|[_ Hsm]]]; [left; exact Hs|right].
  apply (smallEnoughInt_fits p Hfit), Hsm.
Qed.

(** X4: the classifier treats a pair and the pair with its sides exchanged
    alike, so each collection the constructor returns is a rearrangement of
    itself with all pairs exchanged: (J, I) is stored as admissible exactly
    when (I, J) is, and likewise as inadmissible. *)
Theorem X4_collections_closed_under_exchange
    (cg : PolyCurveGroup) (root : BVHNode3D) (sepCoeff a b e : R)
    (fuel : nat) (t : BlockClusterTree) :
  BlockClusterTree_new fuel cg root sepCoeff a b e = Some t ->
  Permutation (map swapPair (admissiblePairs t)) (admissiblePairs t)
  /\ Permutation (map swapPair (inadmissiblePairs t)) (inadmissiblePairs t)
  /\ (forall p, In p (admissiblePairs t) <-> In (swapPair p) (admissiblePairs t))
  /\ (forall p, In p (inadmissiblePairs t) <-> In (swapPair p) (inadmissiblePairs t)).
Proof.
  intros Hnew. destruct (constructed_swapClosed _ _ _ _ _ _ _ _ Hnew) as [Ha Hi].
  assert (Hfw : forall ps, swapClosed ps -> forall p, In p ps -> In (swapPair p) ps).
  { intros ps Hps p Hp. apply (Permutation_in _ Hps). apply in_map, Hp. }
  assert (Hin : forall ps, swapClosed ps -> forall p, In p ps <-> In (swapPair p) ps).
  { intros ps Hps p. split; [apply Hfw, Hps|].
    intros Hp. apply (Hfw ps Hps) in Hp. rewrite swapPair_involutive in Hp. exact Hp. }
  split; [exact Ha|]. split; [exact Hi|]. split; apply Hin; assumption.
Qed.

(** X5: the constructor only stores pairs of nodes of the hierarchy it was
    given, and keeps that hierarchy as its root: both sides of every
    admissible and of every inadmissible pair are the root or one of its
    descendants. *)
Theorem X5_stored_pairs_point_into_hierarchy
    (cg : PolyCurveGroup) (root : BVHNode3D) (sepCoeff a b e : R)
    (fuel : nat) (t : BlockClusterTree) (p : ClusterPair) :
  BlockClusterTree_new fuel cg root sepCoeff a b e = Some t ->
  In p (admissiblePairs t ++ inadmissiblePairs t) ->
  tree_root t = root
  /\ In (cluster1 p) (subnodes root) /\ In (cluster2 p) (subnodes root).
Proof.
  intros Hnew Hp. destruct (constructed_in_tree _ _ _ _ _ _ _ _ Hnew) as [Hr [Ha Hi]].
  split; [exact Hr|]. rewrite Forall_forall in Ha, Hi.
  apply in_app_or in Hp. destruct Hp as [Hp|Hp]; [apply (Ha p Hp)|apply (Hi p Hp)].
Qed.

Lemma droppedPairs_in_tree (root : BVHNode3D) (fuel : nat) :
  forall t, Forall (pairInTree root) (unresolvedPairs t) ->
            Forall (pairInTree root) (droppedPairs fuel t).
Proof.
  induction fuel as [|fuel IH]; intros t Hu; simpl.
  - destruct (unresolvedPairs t); constructor.
  - destruct (unresolvedPairs t) eqn:Heq; [constructor|]. rewrite <- Heq in *.
    apply Forall_app. split.
    + apply Forall_forall. intros p Hp. apply filter_In in Hp.
      rewrite Forall_forall in Hu. apply Hu. tauto.
    + apply IH. apply Forall_forall. intros q Hq.
      apply in_split_unresolved in Hq. destruct Hq as [p [Hp [_ [Hc1 Hc2]]]].
      rewrite Forall_forall in Hu. destruct (Hu p Hp) as [H1 H2].
      split; [apply (child_in_tree root _ _ H1 Hc1)|apply (child_in_tree root _ _ H2 Hc2)].
Qed.

Lemma list_prod_nil_r {A B : Type} (l : list A) : list_prod l (@nil B) = [].
Proof. induction l as [|x l IH]; simpl; [reflexivity|exact IH]. Qed.

Lemma representations_nothing (ij : nat * nat) (ps : list ClusterPair) :
  Forall (fun p => indexBlock p = []) ps -> representations ij ps = O.
Proof.
  induction 1 as [|p ps Hp _ IH]; [reflexivity|].
  rewrite representations_cons, IH, Hp. reflexivity.
Qed.

(** X6: in a hierarchy where, besides, a node without elements lists no
    index, dropping a pair loses nothing: once the classification has
    terminated, every ordered pair (i, j) of indices of the root lies in
    the index block of exactly one stored pair, admissible or
    inadmissible. *)
Theorem X6_partition_without_loss
    (cg : PolyCurveGroup) (root : BVHNode3D) (sepCoeff a b e : R)
    (fuel : nat) (t : BlockClusterTree) (i j : nat) :
  BlockClusterTree_new fuel cg root sepCoeff a b e = Some t ->
  partitionedHierarchy root ->
  emptyNodesListNothing root ->
  NoDup (clusterIndices root) ->
  In i (clusterIndices root) ->
  In j (clusterIndices root) ->
  (representations (i, j) (admissiblePairs t)
   + representations (i, j) (inadmissiblePairs t) = 1)%nat.
Proof.
  intros Hnew Hpart Hempty Hnd Hi Hj.
  pose proof (representations_loop (i, j) fuel _ _ Hnew) as Hloop.
  assert (Hdrop : representations (i, j)
                    (droppedPairs fuel (initialTree cg root sepCoeff a b e)) = O).
  { apply representations_nothing.
    assert (Htree : Forall (pairInTree root)
                      (droppedPairs fuel (initialTree cg root sepCoeff a b e))).
    { apply droppedPairs_in_tree. simpl. constructor; [|constructor].
      split; apply subnodes_self. }
    pose proof (droppedPairs_empty_side fuel (initialTree cg root sepCoeff a b e)) as Hside.
    rewrite Forall_forall in Htree, Hside. apply Forall_forall. intros p Hp.
    destruct (Htree p Hp) as [H1 H2]. specialize (Hside p Hp).
    apply hasEmptySide_iff in Hside. unfold emptyNodesListNothing in Hempty.
    rewrite Forall_forall in Hempty. unfold indexBlock.
    destruct Hside as [Hz|Hz].
    - rewrite (Hempty _ H1 Hz). reflexivity.
    - rewrite (Hempty _ H2 Hz). apply list_prod_nil_r. }
  assert (Hroot : Forall bothPartitioned
                    (unresolvedPairs (initialTree cg root sepCoeff a b e))).
  { constructor; [|constructor]. split; exact Hpart. }
  specialize (Hloop Hroot). rewrite Hdrop in Hloop.
  assert (Hone : (representations (i, j)
                    (unresolvedPairs (initialTree cg root sepCoeff a b e)) = 1)%nat).
  { unfold representations. cbn [initialTree unresolvedPairs flat_map].
    rewrite app_nil_r. unfold indexBlock. cbn [cluster1 cluster2].
    rewrite count_occ_list_prod.
    rewrite (proj1 (NoDup_count_occ' Nat.eq_dec _) Hnd i Hi).
    rewrite (proj1 (NoDup_count_occ' Nat.eq_dec _) Hnd j Hj). reflexivity. }
  rewrite Hone in Hloop. unfold representations in Hloop at 1 2.
  cbn [initialTree admissiblePairs inadmissiblePairs flat_map count_occ] in Hloop. lia.
Qed.

Lemma norm_nonneg (a : Vector3) : 0 <= norm a.
Proof. unfold norm. apply sqrt_pos. Qed.

(** X7: the separation test is monotone in the separation coefficient: a
    pair that is admissible for theta is admissible for every larger
    coefficient. *)
Theorem X7_admissible_for_larger_coefficient
    (pair : ClusterPair) (theta theta' : R) :
  theta <= theta' ->
  isPairAdmissible pair theta = true ->
  isPairAdmissible pair theta' = true.
Proof.
  intros Hle H. apply isPairAdmissible_true_iff in H. destruct H as [Hd Hlt].
  apply isPairAdmissible_true_iff. split; [exact Hd|].
  pose proof (norm_nonneg (Vec.sub (centerOfMass (cluster1 pair))
                                   (centerOfMass (cluster2 pair)))) as Hn.
  unfold centroidDistance in *. nra.
Qed.

Lemma classifyLoop_same_pairs (fuel : nat) :
  forall t1 t2 t1',
    classifyLoop fuel t1 = Some t1' ->
    separationCoeff t2 = separationCoeff t1 ->
    unresolvedPairs t2 = unresolvedPairs t1 ->
    admissiblePairs t2 = admissiblePairs t1 ->
    inadmissiblePairs t2 = inadmissiblePairs t1 ->
    exists t2', classifyLoop fuel t2 = Some t2'
                /\ admissiblePairs t2' = admissiblePairs t1'
                /\ inadmissiblePairs t2' = inadmissiblePairs t1'.
Proof.
  induction fuel as [|fuel IH]; intros t1 t2 t1' Hloop Hs Hu Ha Hi; simpl in Hloop |- *;
    rewrite Hu.
  - destruct (unresolvedPairs t1); [|discriminate]. injection Hloop as <-.
    exists t2. tauto.
  - destruct (unresolvedPairs t1) eqn:Heq.
    + injection Hloop as <-. exists t2. tauto.
    + apply (IH _ _ _ Hloop).
      * rewrite !(proj1 (split_params _)). exact Hs.
      * rewrite !split_unresolved, Hs, Hu, Heq. reflexivity.
      * rewrite !split_admissible, Hs, Hu, Ha, Heq. reflexivity.
      * rewrite !split_inadmissible, Hs, Hu, Hi, Heq. reflexivity.
Qed.

(** X8: the block structure depends on the hierarchy and the separation
    coefficient only: the constructor stores the same admissible and the
    same inadmissible pairs, in the same order, for any other curve,
    kernel exponents and epsilon. *)
Theorem X8_blocks_independent_of_kernel
    (cg cg' : PolyCurveGroup) (root : BVHNode3D) (sepCoeff a b e a' b' e' : R)
    (fuel : nat) (t : BlockClusterTree) :
  BlockClusterTree_new fuel cg root sepCoeff a b e = Some t ->
  exists t' : BlockClusterTree,
    BlockClusterTree_new fuel cg' root sepCoeff a' b' e' = Some t'
    /\ admissiblePairs t' = admissiblePairs t
    /\ inadmissiblePairs t' = inadmissiblePairs t.
Proof.
  intros Hnew. apply (classifyLoop_same_pairs fuel _ _ _ Hnew); reflexivity.
Qed.

(** * Further properties of the products *)

Lemma norm_zero_eq (a b : Vector3) : norm (Vec.sub a b) = 0 -> a = b.
Proof.
  unfold norm, Vec.sub. cbn [vx vy vz]. intros H.
  pose proof (Rle_0_sqr (vx a - vx b)) as Hx.
  pose proof (Rle_0_sqr (vy a - vy b)) as Hy.
  pose proof (Rle_0_sqr (vz a - vz b)) as Hz.
  unfold Rsqr in Hx, Hy, Hz.
  apply sqrt_eq_0 in H; [|lra].
  assert (Ex : (vx a - vx b) * (vx a - vx b) = 0) by lra.
  assert (Ey : (vy a - vy b) * (vy a - vy b) = 0) by lra.
  assert (Ez : (vz a - vz b) * (vz a - vz b) = 0) by lra.
  apply Rmult_integral in Ex, Ey, Ez.
  apply Vector3_eq; lra.
Qed.

Lemma kernelEntry_diagonal (t : BlockClusterTree) (i : nat) : kernelEntry t i i = 0.
Proof. apply kernelEntry_shared. left. left. reflexivity. Qed.

Lemma kernelEntry_nonneg (t : BlockClusterTree) (i j : nat) :
  segmentMidpoint (curves t) i <> segmentMidpoint (curves t) j ->
  0 <= kernelEntry t i j.
Proof.
  intros Hm. unfold kernelEntry, af_ij. cbv zeta.
  destruct (isNeighbors _ _ _); [lra|].
  fold (segmentMidpoint (curves t) i). fold (segmentMidpoint (curves t) j).
  set (d := norm (Vec.sub (segmentMidpoint (curves t) i) (segmentMidpoint (curves t) j))).
  assert (Hd : d <> 0).
  { intros H. apply Hm. apply norm_zero_eq. exact H. }
  unfold pow. destruct (Req_dec_T d 0) as [|_]; [contradiction|].
  apply Rmult_le_pos.
  - apply Rmult_le_pos; apply norm_nonneg.
  - left. apply Rinv_0_lt_compat. unfold Rpower. apply exp_pos.
Qed.

(** X9: the entries the exact product computes form a symmetric matrix with
    a zero diagonal, a(i,j) = a(j,i) and a(i,i) = 0, and an entry is not
    negative when the midpoints of the two segments differ (so that its
    divisor is not zero). *)
Theorem X9_kernel_entries
    (t : BlockClusterTree) (i j : nat) :
  kernelEntry t i j = kernelEntry t j i
  /\ kernelEntry t i i = 0
  /\ (segmentMidpoint (curves t) i <> segmentMidpoint (curves t) j ->
      0 <= kernelEntry t i j).
Proof.
  split; [apply kernelEntry_sym|]. split; [apply kernelEntry_diagonal|].
  apply kernelEntry_nonneg.
Qed.

Lemma fullContribution_const (t : BlockClusterTree) (p : ClusterPair) (u : Vector3) (i : nat) :
  fullContribution t p (constField u) i = Vec.zero.
Proof.
  unfold fullContribution, constField. rewrite Vsum_scaled. vec.
Qed.

Lemma fullRowTotal_const (t : BlockClusterTree) (p : ClusterPair) (u : Vector3) (r : nat) :
  fullRowTotal t p (constField u) r = Vec.zero.
Proof.
  unfold fullRowTotal. rewrite (Vsum_ext _ (fun _ => Vec.zero)); [apply Vsum_zero|].
  intros i _. rewrite fullContribution_const. destruct (Nat.eqb r i); reflexivity.
Qed.

Lemma Rsum_positions (w : list R) :
  Rsum (map (massAt w) (seq 0 (length w))) = Rsum w.
Proof.
  induction w as [|x w IH]; [reflexivity|].
  cbn [length seq map Rsum fold_right]. rewrite <- seq_shift, map_map.
  unfold massAt at 1. cbn [nth]. f_equal. exact IH.
Qed.

Lemma weightedSum_const (p : ClusterPair) (u : Vector3) :
  weightedSum p (constField u) = Vec.scale (Rsum (clusterMasses (cluster2 p))) u.
Proof.
  unfold weightedSum, constField. rewrite Vsum_scaled, Rsum_positions. reflexivity.
Qed.

Lemma approxRowTotal_const (t : BlockClusterTree) (p : ClusterPair) (u : Vector3) (r : nat) :
  approxRowTotal t p (constField u) r = Vec.zero.
Proof.
  unfold approxRowTotal. rewrite (Vsum_ext _ (fun _ => Vec.zero)); [apply Vsum_zero|].
  intros k _. unfold approxContribution. rewrite weightedSum_const.
  destruct (Nat.eqb _ _); [|reflexivity]. unfold constField. vec.
Qed.

(** X10: the two direct products see only differences of the input: adding
    a multiple of a constant field to the input changes nothing in what
    they add to the output buffer; in particular a constant field adds
    nothing. *)
Theorem X10_direct_products_ignore_constants
    (t : BlockClusterTree) (v_hat b_hat : MatrixXd) (c : R) (u : Vector3) (r : nat) :
  MultiplyInadmissible t (axpy v_hat c (constField u)) b_hat r
  = MultiplyInadmissible t v_hat b_hat r
  /\ MultiplyAdmissible t (axpy v_hat c (constField u)) b_hat r
     = MultiplyAdmissible t v_hat b_hat r
  /\ MultiplyInadmissible t (constField u) b_hat r = b_hat r
  /\ MultiplyAdmissible t (constField u) b_hat r = b_hat r.
Proof.
  split; [|split; [|split]].
  - rewrite !MultiplyInadmissible_rows. f_equal. apply Vsum_ext. intros p _.
    rewrite fullRowTotal_linear, fullRowTotal_const. vec.
    destruct (fullRowTotal t p v_hat r); vec.
  - rewrite !MultiplyAdmissible_rows. f_equal. apply Vsum_ext. intros p _.
    rewrite approxRowTotal_linear, approxRowTotal_const. vec.
    destruct (approxRowTotal t p v_hat r); vec.
  - rewrite MultiplyInadmissible_rows.
    rewrite (Vsum_ext _ (fun _ => Vec.zero)) by (intros p _; apply fullRowTotal_const).
    rewrite Vsum_zero. apply add_zero_r.
  - rewrite MultiplyAdmissible_rows.
    rewrite (Vsum_ext _ (fun _ => Vec.zero)) by (intros p _; apply approxRowTotal_const).
    rewrite Vsum_zero. apply add_zero_r.
Qed.

(** X11: on a tree the constructor returns, a call of the propagation
    product does not see what earlier calls left behind: its output is the
    same for all prior contents of the scratch fields of the nodes and of
    the output buffer. *)
Theorem X11_propagation_ignores_prior_state
    (cg : PolyCurveGroup) (root : BVHNode3D) (sepCoeff a b e : R)
    (fuel : nat) (t : BlockClusterTree)
    (v_hat b_hat b_hat' : MatrixXd) (s s' : MVFields) (r : nat) :
  BlockClusterTree_new fuel cg root sepCoeff a b e = Some t ->
  fst (MultiplyAdmissibleFast t v_hat b_hat s) r
  = fst (MultiplyAdmissibleFast t v_hat b_hat' s') r.
Proof.
  intros Hnew. destruct (constructed_in_tree _ _ _ _ _ _ _ _ Hnew) as [Hr [Ha _]].
  rewrite <- Hr in Ha. rewrite !MultiplyAdmissibleFast_rows. cbv zeta.
  rewrite (MultiplyAf_any_store t setOnes s s' r Ha).
  rewrite (MultiplyAf_any_store t (col 0 v_hat) _ (snd (MultiplyAf t setOnes s')) r Ha).
  rewrite (MultiplyAf_any_store t (col 1 v_hat) _
             (snd (MultiplyAf t (col 0 v_hat) (snd (MultiplyAf t setOnes s')))) r Ha).
  rewrite (MultiplyAf_any_store t (col 2 v_hat) _
             (snd (MultiplyAf t (col 1 v_hat)
                     (snd (MultiplyAf t (col 0 v_hat) (snd (MultiplyAf t setOnes s'))))))
             r Ha).
  reflexivity.
Qed.

Lemma MultiplyAf_zero (t : BlockClusterTree) (s : MVFields) (r : nat) :
  Forall (pairInTree (tree_root t)) (admissiblePairs t) ->
  fst (MultiplyAf t setZero s) r = 0.
Proof.
  intros Hp.
  assert (H : fst (MultiplyAf t setZero s) r
              = fst (MultiplyAf t setZero s) r + 1 * fst (MultiplyAf t setZero s) r).
  { apply (MultiplyAf_combine 1 t setZero setZero setZero s s s Hp).
    intros i. unfold setZero. ring. }
  lra.
Qed.

Lemma MultiplyAf_constant (t : BlockClusterTree) (k : nat) (u : Vector3)
    (s s' : MVFields) (r : nat) :
  Forall (pairInTree (tree_root t)) (admissiblePairs t) ->
  fst (MultiplyAf t (col k (constField u)) s) r
  = Vec.coord k u * fst (MultiplyAf t setOnes s') r.
Proof.
  intros Hp.
  rewrite (MultiplyAf_combine (Vec.coord k u) t setZero setOnes
             (col k (constField u)) s s' s Hp).
  - rewrite (MultiplyAf_zero t s r Hp). ring.
  - intros i. unfold col, constField, setZero, setOnes. ring.
Qed.

Lemma MultiplyAdmissibleFast_const (t : BlockClusterTree) (u : Vector3)
    (b_hat : MatrixXd) (s : MVFields) (r : nat) :
  Forall (pairInTree (tree_root t)) (admissiblePairs t) ->
  fst (MultiplyAdmissibleFast t (constField u) b_hat s) r = Vec.zero.
Proof.
  intros Hp. rewrite MultiplyAdmissibleFast_rows. cbv zeta.
  rewrite (MultiplyAf_constant t 0 u _ s r Hp).
  rewrite (MultiplyAf_constant t 1 u _ s r Hp).
  rewrite (MultiplyAf_constant t 2 u _ s r Hp).
  unfold constField, Vec.coord. vec_fields.
Qed.

(** X12: on a tree the constructor returns, the propagation product too
    sees only differences of the input: a constant field gives the zero
    output, and adding a multiple of a constant field to the input leaves
    the output as it is. *)
Theorem X12_propagation_ignores_constants
    (cg : PolyCurveGroup) (root : BVHNode3D) (sepCoeff a b e : R)
    (fuel : nat) (t : BlockClusterTree)
    (v_hat b_hat : MatrixXd) (c : R) (u : Vector3) (s : MVFields) (r : nat) :
  BlockClusterTree_new fuel cg root sepCoeff a b e = Some t ->
  fst (MultiplyAdmissibleFast t (constField u) b_hat s) r = Vec.zero
  /\ fst (MultiplyAdmissibleFast t (axpy v_hat c (constField u)) b_hat s) r
     = fst (MultiplyAdmissibleFast t v_hat b_hat s) r.
Proof.
  intros Hnew. destruct (constructed_in_tree _ _ _ _ _ _ _ _ Hnew) as [Hr [Ha _]].
  rewrite <- Hr in Ha. split; [apply MultiplyAdmissibleFast_const, Ha|].
  rewrite (MultiplyAdmissibleFast_linear t v_hat (constField u) c b_hat b_hat b_hat s r Ha).
  rewrite (MultiplyAdmissibleFast_const t u b_hat s r Ha).
  destruct (fst (MultiplyAdmissibleFast t v_hat b_hat s) r); vec.
Qed.

(** X13: the exact product writes only the rows of the elements that the
    first side of some inadmissible pair lists: every other row of the
    output buffer is left as it was.  The monopole product does the same
    for the admissible pairs whose mass vectors are not longer than their
    index lists. *)
Theorem X13_products_write_listed_rows_only
    (t : BlockClusterTree) (v_hat b_hat : MatrixXd) (r : nat) :
  (forall p, In p (inadmissiblePairs t) -> ~ In r (clusterIndices (cluster1 p))) ->
  (forall p, In p (admissiblePairs t) ->
             ~ In r (clusterIndices (cluster1 p))
             /\ (length (clusterMasses (cluster1 p))
                 <= length (clusterIndices (cluster1 p)))%nat) ->
  MultiplyInadmissible t v_hat b_hat r = b_hat r
  /\ MultiplyAdmissible t v_hat b_hat r = b_hat r.
Proof.
  intros HI HA. split.
  - rewrite MultiplyInadmissible_rows.
    rewrite (Vsum_ext _ (fun _ => Vec.zero)); [rewrite Vsum_zero; apply add_zero_r|].
    intros p Hp. apply Vsum_skip, HI, Hp.
  - rewrite MultiplyAdmissible_rows.
    rewrite (Vsum_ext _ (fun _ => Vec.zero)); [rewrite Vsum_zero; apply add_zero_r|].
    intros p Hp. destruct (HA p Hp) as [Hr Hlen]. unfold approxRowTotal.
    rewrite (Vsum_ext _ (fun _ => Vec.zero)); [apply Vsum_zero|].
    intros k Hk. apply in_seq in Hk.
    destruct (Nat.eqb_spec r (indexAt (clusterIndices (cluster1 p)) k)) as [He|_];
      [|reflexivity].
    contradiction Hr. rewrite He. unfold indexAt. apply nth_In. lia.
Qed.

(** ** The quadratic form of the exact product *)

Lemma Rsum_exchange {A B : Type} (f : A -> B -> R) (xs : list A) (ys : list B) :
  Rsum (map (fun x => Rsum (map (fun y => f x y) ys)) xs)
  = Rsum (map (fun y => Rsum (map (fun x => f x y) xs)) ys).
Proof.
  induction xs as [|x xs IH]; cbn [map Rsum fold_right].
  - rewrite Rsum_zero. reflexivity.
  - fold (Rsum (map (fun x0 => Rsum (map (fun y => f x0 y) ys)) xs)). rewrite IH.
    rewrite <- Rsum_plus. reflexivity.
Qed.

Lemma Rsum_pick (f : nat -> R) (r : nat) (l : list nat) :
  NoDup l -> In r l ->
  Rsum (map (fun x => if Nat.eqb x r then f x else 0) l) = f r.
Proof.
  induction 1 as [|x l Hx Hnd IH]; intros Hin; [contradiction|].
  cbn [map Rsum fold_right].
  fold (Rsum (map (fun x0 => if Nat.eqb x0 r then f x0 else 0) l)).
  destruct (Nat.eqb_spec x r) as [->|Hne].
  - rewrite (Rsum_ext _ (fun _ => 0)); [rewrite Rsum_zero; ring|].
    intros y Hy. destruct (Nat.eqb_spec y r) as [->|_]; [contradiction|reflexivity].
  - destruct Hin as [->|Hin]; [contradiction Hne; reflexivity|].
    rewrite IH by exact Hin. ring.
Qed.

Lemma dot_Vsum {A : Type} (a : Vector3) (g : A -> Vector3) (l : list A) :
  dot a (Vsum (map g l)) = Rsum (map (fun x => dot a (g x)) l).
Proof.
  induction l as [|x l IH]; cbn [map Vsum Rsum fold_right].
  - unfold dot, Vec.zero. cbn [vx vy vz]. ring.
  - fold (Vsum (map g l)). fold (Rsum (map (fun x0 => dot a (g x0)) l)).
    rewrite <- IH. unfold dot, Vec.add. cbn [vx vy vz]. ring.
Qed.

Lemma dot_fullContribution (t : BlockClusterTree) (p : ClusterPair)
    (v_hat : MatrixXd) (i : nat) :
  dot (v_hat i) (fullContribution t p v_hat i)
  = Rsum (map (fun j => 2 * kernelEntry t i j
                        * (dot (v_hat i) (v_hat i) - dot (v_hat i) (v_hat j)))
              (clusterIndices (cluster2 p))).
Proof.
  unfold fullContribution.
  transitivity (2 * (Rsum (map (kernelEntry t i) (clusterIndices (cluster2 p)))
                     * dot (v_hat i) (v_hat i)
                     - dot (v_hat i)
                         (Vsum (map (fun j => Vec.scale (kernelEntry t i j) (v_hat j))
                                    (clusterIndices (cluster2 p)))))).
  - unfold dot, Vec.scale, Vec.sub. cbn [vx vy vz]. ring.
  - rewrite dot_Vsum.
    rewrite (Rsum_ext (fun j => 2 * kernelEntry t i j
                                * (dot (v_hat i) (v_hat i) - dot (v_hat i) (v_hat j)))
               (fun j => (2 * dot (v_hat i) (v_hat i)) * kernelEntry t i j
                         + (-2) * dot (v_hat i) (Vec.scale (kernelEntry t i j) (v_hat j)))).
    + rewrite Rsum_plus, !Rsum_scale. ring.
    + intros j _. unfold dot, Vec.scale. cbn [vx vy vz]. ring.
Qed.

Lemma energy_fullRowTotal (t : BlockClusterTree) (p : ClusterPair)
    (v_hat : MatrixXd) (N : nat) :
  (forall i, In i (clusterIndices (cluster1 p)) -> (i < N)%nat) ->
  Rsum (map (fun r => dot (v_hat r) (fullRowTotal t p v_hat r)) (seq 0 N))
  = blockSum (fun i j => 2 * kernelEntry t i j
                         * (dot (v_hat i) (v_hat i) - dot (v_hat i) (v_hat j))) p.
Proof.
  intros Hb. unfold fullRowTotal, blockSum.
  rewrite (Rsum_ext _
    (fun r => Rsum (map (fun i => if Nat.eqb r i
                                  then dot (v_hat r) (fullContribution t p v_hat r)
                                  else 0)
                        (clusterIndices (cluster1 p))))).
  - rewrite Rsum_exchange. apply Rsum_ext. intros i Hi.
    rewrite (Rsum_pick (fun r => dot (v_hat r) (fullContribution t p v_hat r)) i).
    + apply dot_fullContribution.
    + apply seq_NoDup.
    + apply in_seq. specialize (Hb i Hi). lia.
  - intros r _. rewrite dot_Vsum. apply Rsum_ext. intros i _.
    destruct (Nat.eqb_spec r i) as [->|_]; [reflexivity|].
    unfold dot, Vec.zero. cbn [vx vy vz]. ring.
Qed.

Lemma blockSum_swap (f : nat -> nat -> R) (p : ClusterPair) :
  blockSum f (swapPair p) = blockSum (fun i j => f j i) p.
Proof. unfold blockSum, swapPair. cbn [cluster1 cluster2]. apply Rsum_exchange. Qed.

Lemma blockSum_ext (f g : nat -> nat -> R) (p : ClusterPair) :
  (forall i j, f i j = g i j) -> blockSum f p = blockSum g p.
Proof.
  intros H. unfold blockSum. apply Rsum_ext. intros i _. apply Rsum_ext.
  intros j _. apply H.
Qed.

Lemma blockSum_plus (f g : nat -> nat -> R) (p : ClusterPair) :
  blockSum (fun i j => f i j + g i j) p = blockSum f p + blockSum g p.
Proof.
  unfold blockSum. rewrite <- Rsum_plus. apply Rsum_ext. intros i _. apply Rsum_plus.
Qed.

Lemma Rsum_swapClosed (F : ClusterPair -> R) (ps : list ClusterPair) :
  swapClosed ps -> Rsum (map (fun p => F (swapPair p)) ps) = Rsum (map F ps).
Proof.
  intros H. rewrite <- (map_map swapPair F).
  apply Rsum_permutation, Permutation_map, H.
Qed.

Lemma Rsum_nonneg {A : Type} (f : A -> R) (l : list A) :
  (forall x, In x l -> 0 <= f x) -> 0 <= Rsum (map f l).
Proof.
  induction l as [|x l IH]; intros H; cbn [map Rsum fold_right]; [lra|].
  fold (Rsum (map f l)).
  assert (0 <= f x) by (apply H; left; reflexivity).
  assert (0 <= Rsum (map f l)) by (apply IH; intros y Hy; apply H; right; exact Hy).
  lra.
Qed.

Lemma sqDist_nonneg (v_hat : MatrixXd) (i j : nat) : 0 <= sqDist v_hat i j.
Proof.
  unfold sqDist, dot.
  pose proof (Rle_0_sqr (vx (Vec.sub (v_hat i) (v_hat j)))).
  pose proof (Rle_0_sqr (vy (Vec.sub (v_hat i) (v_hat j)))).
  pose proof (Rle_0_sqr (vz (Vec.sub (v_hat i) (v_hat j)))).
  unfold Rsqr in *. lra.
Qed.

Lemma exact_energy (t : BlockClusterTree) (v_hat : MatrixXd) (N : nat) :
  swapClosed (inadmissiblePairs t) ->
  (forall p i, In p (inadmissiblePairs t) -> In i (clusterIndices (cluster1 p)) ->
               (i < N)%nat) ->
  energy N v_hat (MultiplyInadmissible t v_hat zeroMatrix)
  = Rsum (map (blockSum (fun i j => kernelEntry t i j * sqDist v_hat i j))
              (inadmissiblePairs t)).
Proof.
  intros Hsw Hb. unfold energy.
  set (g := fun i j => 2 * kernelEntry t i j
                       * (dot (v_hat i) (v_hat i) - dot (v_hat i) (v_hat j))).
  assert (H1 : Rsum (map (fun r => dot (v_hat r) (MultiplyInadmissible t v_hat zeroMatrix r))
                         (seq 0 N))
               = Rsum (map (blockSum g) (inadmissiblePairs t))).
  { rewrite (Rsum_ext _
      (fun r => Rsum (map (fun p => dot (v_hat r) (fullRowTotal t p v_hat r))
                          (inadmissiblePairs t)))).
    - rewrite Rsum_exchange. apply Rsum_ext. intros p Hp.
      apply energy_fullRowTotal. intros i Hi. apply (Hb p i Hp Hi).
    - intros r _. rewrite MultiplyInadmissible_rows, <- dot_Vsum.
      unfold zeroMatrix, dot, Vec.add, Vec.zero. cbn [vx vy vz]. ring. }
  assert (H2 : Rsum (map (blockSum g) (inadmissiblePairs t))
               = Rsum (map (blockSum (fun i j => g j i)) (inadmissiblePairs t))).
  { rewrite <- (Rsum_swapClosed (blockSum g) _ Hsw). apply Rsum_ext.
    intros p _. apply blockSum_swap. }
  rewrite H1.
  assert (H3 : Rsum (map (blockSum g) (inadmissiblePairs t))
               + Rsum (map (blockSum (fun i j => g j i)) (inadmissiblePairs t))
               = 2 * Rsum (map (blockSum (fun i j => kernelEntry t i j * sqDist v_hat i j))
                               (inadmissiblePairs t))).
  { rewrite <- Rsum_plus, <- Rsum_scale. apply Rsum_ext. intros p _.
    rewrite <- blockSum_plus. unfold blockSum.
    rewrite <- Rsum_scale. apply Rsum_ext. intros i _.
    rewrite <- Rsum_scale. apply Rsum_ext. intros j _.
    unfold g. rewrite (kernelEntry_sym t j i).
    unfold sqDist, dot, Vec.sub. cbn [vx vy vz]. ring. }
  rewrite <- H2 in H3. lra.
Qed.

(** X14: on a tree the constructor returns, the exact product defines a
    quadratic form that is a weighted sum of squared differences: with all
    listed elements below N, the sum over the rows of input row times
    output row is the sum, over the inadmissible pairs and the entries
    (i, j) of their blocks, of a(i,j) |v(i) - v(j)|^2. *)
Theorem X14_exact_quadratic_form
    (cg : PolyCurveGroup) (root : BVHNode3D) (sepCoeff a b e : R)
    (fuel : nat) (t : BlockClusterTree) (v_hat : MatrixXd) (N : nat) :
  BlockClusterTree_new fuel cg root sepCoeff a b e = Some t ->
  (forall p i, In p (inadmissiblePairs t) -> In i (clusterIndices (cluster1 p)) ->
               (i < N)%nat) ->
  energy N v_hat (MultiplyInadmissible t v_hat zeroMatrix)
  = Rsum (map (blockSum (fun i j => kernelEntry t i j * sqDist v_hat i j))
              (inadmissiblePairs t)).
Proof.
  intros Hnew Hb. destruct (constructed_swapClosed _ _ _ _ _ _ _ _ Hnew) as [_ Hi].
  apply exact_energy; assumption.
Qed.

(** X15: hence the exact product is positive semidefinite wherever its
    entries are not negative: if no two listed elements that the product
    combines have the same segment midpoint, input times output is not
    negative, for every input field. *)
Theorem X15_exact_product_positive_semidefinite
    (cg : PolyCurveGroup) (root : BVHNode3D) (sepCoeff a b e : R)
    (fuel : nat) (t : BlockClusterTree) (v_hat : MatrixXd) (N : nat) :
  BlockClusterTree_new fuel cg root sepCoeff a b e = Some t ->
  (forall p i, In p (inadmissiblePairs t) -> In i (clusterIndices (cluster1 p)) ->
               (i < N)%nat) ->
  (forall p i j, In p (inadmissiblePairs t) ->
                 In i (clusterIndices (cluster1 p)) ->
                 In j (clusterIndices (cluster2 p)) ->
                 i <> j ->
                 segmentMidpoint (curves t) i <> segmentMidpoint (curves t) j) ->
  0 <= energy N v_hat (MultiplyInadmissible t v_hat zeroMatrix).
Proof.
  intros Hnew Hb Hm. destruct (constructed_swapClosed _ _ _ _ _ _ _ _ Hnew) as [_ Hi].
  rewrite (exact_energy t v_hat N Hi Hb).
  apply Rsum_nonneg. intros p Hp. unfold blockSum.
  apply Rsum_nonneg. intros i Hin. apply Rsum_nonneg. intros j Hjn.
  apply Rmult_le_pos; [|apply sqDist_nonneg].
  destruct (Nat.eq_dec i j) as [->|Hne].
  - rewrite kernelEntry_diagonal. lra.
  - apply kernelEntry_nonneg. apply (Hm p i j Hp Hin Hjn Hne).
Qed.

(** * The accuracy validator *)

Lemma sumSquares_nonneg (B : Block) : 0 <= sumSquares B.
Proof.
  unfold sumSquares. apply Rsum_nonneg. intros x _.
  pose proof (Rle_0_sqr x) as H. unfold Rsqr in H. exact H.
Qed.

Lemma blockNorm_squared (B : Block) : blockNorm B * blockNorm B = sumSquares B.
Proof. unfold blockNorm. apply sqrt_sqrt, sumSquares_nonneg. Qed.

Lemma blockNorm_nonneg (B : Block) : 0 <= blockNorm B.
Proof. unfold blockNorm. apply sqrt_pos. Qed.

Lemma exceedsHalf_iff (normDiff normFull : R) :
  0 <= normFull ->
  (exceedsHalf normDiff normFull = true <-> normFull < 2 * normDiff).
Proof.
  intros Hf. unfold exceedsHalf, div_checked.
  destruct (Req_dec_T normFull 0) as [Hz|Hnz]; rewrite Rltb_true_iff.
  - subst. lra.
  - assert (Hpos : 0 < normFull) by lra.
    unfold Rdiv. split; intros H.
    + apply (Rmult_lt_compat_r normFull) in H; [|exact Hpos].
      rewrite Rmult_assoc, Rinv_l in H by exact Hnz. lra.
    + apply (Rmult_lt_reg_r normFull); [exact Hpos|].
      rewrite Rmult_assoc, Rinv_l by exact Hnz. lra.
Qed.

Lemma Rsum_zero_iff {A : Type} (f : A -> R) (l : list A) :
  (forall x, In x l -> 0 <= f x) ->
  (Rsum (map f l) = 0 <-> Forall (fun x => f x = 0) l).
Proof.
  induction l as [|x l IH]; intros H; cbn [map Rsum fold_right].
  - split; [constructor|reflexivity].
  - fold (Rsum (map f l)).
    assert (Hx : 0 <= f x) by (apply H; left; reflexivity).
    assert (Hl : forall y, In y l -> 0 <= f y) by (intros y Hy; apply H; right; exact Hy).
    pose proof (Rsum_nonneg f l Hl) as Hs. specialize (IH Hl). split.
    + intros E. constructor; [lra|]. apply IH. lra.
    + intros E. inversion E as [|? ? E1 E2]; subst. apply IH in E2. lra.
Qed.

Section ValidatorFacts.

Variable accumulateChildren : BVHNode3D -> list VertexBody6D.

Lemma inadmissibleNorms_sum (t : BlockClusterTree) :
  inadmissibleNorms accumulateChildren t
  = Rsum (map (fun p => sumSquares (AfFullBlock accumulateChildren t p)) (inadmissiblePairs t)).
Proof.
  unfold inadmissibleNorms.
  assert (H : forall ps acc,
             fold_left (fun totalNorm pair =>
                          totalNorm + blockNorm (AfFullBlock accumulateChildren t pair)
                                      * blockNorm (AfFullBlock accumulateChildren t pair)) ps acc
             = acc + Rsum (map (fun p => sumSquares (AfFullBlock accumulateChildren t p)) ps)).
  { induction ps as [|p ps IH]; intros acc; cbn [fold_left map Rsum fold_right]; [ring|].
    rewrite IH, blockNorm_squared. fold (Rsum (map (fun p0 => sumSquares (AfFullBlock accumulateChildren t p0)) ps)).
    ring. }
  rewrite H. ring.
Qed.

Lemma compareAdmissible_fold (t : BlockClusterTree) (ps : list ClusterPair) :
  forall printed totalError totalNorm,
    fold_left (compareAdmissible accumulateChildren t) ps (printed, totalError, totalNorm)
    = (printed
         ++ filter (fun p => exceedsHalf
                               (blockNorm (diffBlock accumulateChildren t p))
                               (blockNorm (AfFullBlock accumulateChildren t p))) ps,
       totalError
         + Rsum (map (fun p => sumSquares (diffBlock accumulateChildren t p))
                     ps),
       totalNorm + Rsum (map (fun p => sumSquares (AfFullBlock accumulateChildren t p)) ps)).
Proof.
  unfold diffBlock.
  induction ps as [|p ps IH]; intros printed totalError totalNorm;
    cbn [fold_left filter map Rsum fold_right].
  - rewrite app_nil_r. f_equal; [f_equal|]; ring.
  - unfold compareAdmissible at 2. cbv zeta. rewrite IH, !blockNorm_squared.
    fold (Rsum (map (fun p0 => sumSquares (blockSub (AfFullBlock accumulateChildren t p0)
                                                    (AfApproxBlock accumulateChildren t p0)))
                    ps)).
    fold (Rsum (map (fun p0 => sumSquares (AfFullBlock accumulateChildren t p0)) ps)).
    destruct (exceedsHalf _ _); rewrite <- ?app_assoc; (f_equal; [f_equal|]); ring.
Qed.

Lemma CompareBlocks_report (t : BlockClusterTree) :
  CompareBlocks accumulateChildren t
  = let err := sqrt (Rsum (map (fun p => sumSquares (diffBlock accumulateChildren t p))
                               (admissiblePairs t))) in
    let nrm := sqrt (Rsum (map (fun p => sumSquares (AfFullBlock accumulateChildren t p))
                               (inadmissiblePairs t ++ admissiblePairs t))) in
    mkReport
      (filter (fun p => exceedsHalf
                          (blockNorm (diffBlock accumulateChildren t p))
                          (blockNorm (AfFullBlock accumulateChildren t p))) (admissiblePairs t))
      err nrm (div_checked (100 * err) nrm).
Proof.
  unfold CompareBlocks. rewrite compareAdmissible_fold, inadmissibleNorms_sum.
  cbv zeta. cbn [app]. rewrite map_app, Rsum_app, Rplus_0_l. reflexivity.
Qed.

(** X16: the totals [CompareBlocks] reports are Frobenius norms: the total
    norm is the square root of the sum of the squares of all entries of the
    exact blocks of all stored pairs, the total error the square root of
    the sum of the squared entry differences between exact and approximate
    block over the admissible pairs only (an inadmissible pair adds no
    error).  It prints exactly the admissible pairs whose exact block has a
    norm below twice the norm of the difference. *)
Theorem X16_report_totals_are_frobenius_norms (t : BlockClusterTree) :
  totalNorm (CompareBlocks accumulateChildren t)
  = sqrt (Rsum (map (fun p => sumSquares (AfFullBlock accumulateChildren t p))
                    (inadmissiblePairs t ++ admissiblePairs t)))
  /\ totalError (CompareBlocks accumulateChildren t)
     = sqrt (Rsum (map (fun p => sumSquares (diffBlock accumulateChildren t p))
                       (admissiblePairs t)))
  /\ (forall p, In p (printedPairs (CompareBlocks accumulateChildren t)) <->
                In p (admissiblePairs t)
                /\ blockNorm (AfFullBlock accumulateChildren t p)
                   < 2 * blockNorm (diffBlock accumulateChildren t p)).
Proof.
  rewrite CompareBlocks_report. cbv zeta. cbn [totalNorm totalError printedPairs].
  split; [reflexivity|]. split; [reflexivity|].
  intros p. rewrite filter_In, exceedsHalf_iff by apply blockNorm_nonneg. tauto.
Qed.

(** X17: the last line of [CompareBlocks] divides by the total norm: the
    division is by zero exactly when every entry of the exact block of
    every stored pair is zero, in particular for a tree without stored
    pairs; otherwise, without admissible pairs, the reported relative
    error is 0. *)
Theorem X17_report_divides_by_total_norm (t : BlockClusterTree) :
  (totalRelative (CompareBlocks accumulateChildren t) = DivideByZero <->
     Forall (fun p => sumSquares (AfFullBlock accumulateChildren t p) = 0)
            (inadmissiblePairs t ++ admissiblePairs t))
  /\ (admissiblePairs t = [] ->
      totalRelative (CompareBlocks accumulateChildren t) <> DivideByZero ->
      totalRelative (CompareBlocks accumulateChildren t) = Ok 0).
Proof.
  rewrite CompareBlocks_report. cbv zeta. cbn [totalRelative].
  set (S := Rsum (map (fun p => sumSquares (AfFullBlock accumulateChildren t p))
                      (inadmissiblePairs t ++ admissiblePairs t))).
  assert (HS : 0 <= S).
  { apply Rsum_nonneg. intros p _. apply sumSquares_nonneg. }
  assert (Hz : sqrt S = 0 <-> Forall (fun p => sumSquares (AfFullBlock accumulateChildren t p) = 0)
                                     (inadmissiblePairs t ++ admissiblePairs t)).
  { rewrite <- (Rsum_zero_iff (fun p => sumSquares (AfFullBlock accumulateChildren t p)))
      by (intros p _; apply sumSquares_nonneg).
    fold S. split; intros H; [apply sqrt_eq_0; assumption|rewrite H; apply sqrt_0]. }
  split.
  - rewrite <- Hz. unfold div_checked.
    destruct (Req_dec_T (sqrt S) 0); split; intros H; try assumption; try reflexivity;
      try discriminate; contradiction.
  - intros Ha. rewrite Ha. cbn [map Rsum fold_right]. rewrite sqrt_0.
    unfold div_checked. destruct (Req_dec_T (sqrt S) 0); [intros H; contradiction H; reflexivity|].
    intros _. f_equal. unfold Rdiv. ring.
Qed.

Lemma entry_in_range {A B : Type} (f : A -> B -> R) (xs : list A) (ys : list B)
    (dx : A) (dy : B) (k l : nat) :
  (k < length xs)%nat -> (l < length ys)%nat ->
  entry (map (fun x => map (fun y => f x y) ys) xs) k l = f (nth k xs dx) (nth l ys dy).
Proof.
  intros Hk Hl. unfold entry.
  rewrite (nth_indep _ [] (map (fun y => f dx y) ys)) by (rewrite length_map; exact Hk).
  rewrite (map_nth (fun x => map (fun y => f x y) ys) xs dx k).
  rewrite (nth_indep _ 0 (f (nth k xs dx) dy)) by (rewrite length_map; exact Hl).
  apply (map_nth (fun y => f (nth k xs dx) y) ys dy l).
Qed.

Lemma entry_out_of_range {A B : Type} (f : A -> B -> R) (xs : list A) (ys : list B)
    (k l : nat) :
  (length xs <= k)%nat \/ (length ys <= l)%nat ->
  entry (map (fun x => map (fun y => f x y) ys) xs) k l = 0.
Proof.
  intros H. unfold entry.
  destruct (Nat.lt_ge_cases k (length xs)) as [Hk|Hk].
  - destruct H as [H|H]; [lia|].
    destruct xs as [|x0 xs]; [simpl in Hk; lia|].
    rewrite (nth_indep _ [] (map (fun y => f x0 y) ys)) by (rewrite length_map; exact Hk).
    rewrite (map_nth (fun x => map (fun y => f x y) ys) (x0 :: xs) x0 k).
    apply nth_overflow. rewrite length_map. exact H.
  - rewrite (nth_overflow _ []) by (rewrite length_map; exact Hk).
    destruct l; reflexivity.
Qed.

Lemma entry_transposed {A B : Type} (f : A -> B -> R) (g : B -> A -> R)
    (xs : list A) (ys : list B) (i j : nat) :
  (forall x y, g y x = f x y) ->
  entry (map (fun y => map (fun x => g y x) xs) ys) i j
  = entry (map (fun x => map (fun y => f x y) ys) xs) j i.
Proof.
  intros Hfg.
  destruct (Nat.lt_ge_cases i (length ys)) as [Hi|Hi];
    destruct (Nat.lt_ge_cases j (length xs)) as [Hj|Hj].
  - destruct xs as [|x0 xs]; [simpl in Hj; lia|].
    destruct ys as [|y0 ys]; [simpl in Hi; lia|].
    rewrite (entry_in_range g _ _ y0 x0 i j Hi Hj).
    rewrite (entry_in_range f _ _ x0 y0 j i Hj Hi). apply Hfg.
  - rewrite !entry_out_of_range by tauto. reflexivity.
  - rewrite !entry_out_of_range by tauto. reflexivity.
  - rewrite !entry_out_of_range by tauto. reflexivity.
Qed.

Lemma isNeighbors_sym (cg : PolyCurveGroup) (p q : PointOnCurve) :
  isNeighbors cg p q = isNeighbors cg q p.
Proof.
  apply eq_true_iff_eq. unfold isNeighbors.
  rewrite !orb_true_iff, !point_eqb_eq. intuition congruence.
Qed.

(** X18: the blocks of the validator for a pair with its sides exchanged
    are the transposed blocks of the pair: entry (i, j) of the exact block
    of (J, I) is entry (j, i) of the exact block of (I, J), and likewise
    for the approximate block. *)
Theorem X18_blocks_of_exchanged_pair_are_transposed
    (t : BlockClusterTree) (p : ClusterPair) (i j : nat) :
  entry (AfFullBlock accumulateChildren t (swapPair p)) i j
  = entry (AfFullBlock accumulateChildren t p) j i
  /\ entry (AfApproxBlock accumulateChildren t (swapPair p)) i j
     = entry (AfApproxBlock accumulateChildren t p) j i.
Proof.
  split.
  - unfold AfFullBlock, swapPair. cbn [cluster1 cluster2]. cbv zeta.
    apply (entry_transposed
             (fun bi bj =>
                if isNeighbors (curves t) (GetCurvePoint (curves t) (vertIndex1 bi))
                               (GetCurvePoint (curves t) (vertIndex1 bj))
                then 0
                else - mass bi * mass bj
                     / pow (norm (Vec.sub (pt_position bi) (pt_position bj)))
                           (beta t - alpha t))).
    intros x y. rewrite (isNeighbors_sym (curves t) _ (GetCurvePoint (curves t) (vertIndex1 x))).
    destruct (isNeighbors _ _ _); [reflexivity|].
    rewrite (norm_sub_sym (pt_position y)). unfold Rdiv. ring.
  - unfold AfApproxBlock. cbv zeta. rewrite a_IJ_swap.
    unfold swapPair. cbn [cluster1 cluster2].
    apply (entry_transposed (fun wi wj => - wi * a_IJ t p * wj)).
    intros x y. ring.
Qed.

(** X19: for constituents that stand for the segments of their elements
    (mass the segment length, position the segment midpoint), the exact
    block of the validator holds the negated entries of the operator the
    exact product applies: block(k, l) = - a(i_k, j_l). *)
Theorem X19_exact_block_is_negated_kernel
    (t : BlockClusterTree) (p : ClusterPair) :
  Forall (bodyOfElement (curves t)) (accumulateChildren (cluster1 p)) ->
  Forall (bodyOfElement (curves t)) (accumulateChildren (cluster2 p)) ->
  AfFullBlock accumulateChildren t p
  = map (fun bi => map (fun bj => - kernelEntry t (vertIndex1 bi) (vertIndex1 bj))
                       (accumulateChildren (cluster2 p)))
        (accumulateChildren (cluster1 p)).
Proof.
  intros H1 H2. unfold AfFullBlock. cbv zeta.
  rewrite Forall_forall in H1, H2.
  apply map_ext_in. intros bi Hi. apply map_ext_in. intros bj Hj.
  destruct (H1 bi Hi) as [Hm1 Hp1]. destruct (H2 bj Hj) as [Hm2 Hp2].
  unfold kernelEntry, af_ij. cbv zeta.
  destruct (isNeighbors _ _ _); [ring|].
  rewrite Hm1, Hm2, Hp1, Hp2. unfold segmentLength, segmentMidpoint, Rdiv. ring.
Qed.

Lemma Vsum_scaled_differences {A : Type} (c : R) (f : A -> R) (g : A -> Vector3)
    (u : Vector3) (l : list A) :
  Vsum (map (fun x => Vec.scale (c * f x) (Vec.sub u (g x))) l)
  = Vec.scale c (Vec.sub (Vec.scale (Rsum (map f l)) u)
                         (Vsum (map (fun x => Vec.scale (f x) (g x)) l))).
Proof.
  induction l as [|x l IH]; simpl; [vec|]. rewrite IH. vec.
Qed.

(** X20: when the mass vectors of the two sides hold the masses of their
    constituents, the monopole product applies the approximate block of
    the validator, negated: for position k of the first side, with element
    i, it adds to row i the sum over the positions l of the second side,
    with elements j, of 2 (- block(k, l)) (v(i) - v(j)). *)
Theorem X20_monopole_product_applies_approximate_block
    (t : BlockClusterTree) (p : ClusterPair) (v_hat result : MatrixXd) (r : nat) :
  clusterMasses (cluster1 p) = map mass (accumulateChildren (cluster1 p)) ->
  clusterMasses (cluster2 p) = map mass (accumulateChildren (cluster2 p)) ->
  AfApproxProduct t p v_hat result r
  = Vec.add (result r)
      (Vsum (map (fun k =>
                    if Nat.eqb r (indexAt (clusterIndices (cluster1 p)) k)
                    then Vsum (map (fun l =>
                                 Vec.scale
                                   (2 * - entry (AfApproxBlock accumulateChildren t p) k l)
                                   (Vec.sub
                                      (v_hat (indexAt (clusterIndices (cluster1 p)) k))
                                      (v_hat (indexAt (clusterIndices (cluster2 p)) l))))
                               (seq 0 (length (accumulateChildren (cluster2 p)))))
                    else Vec.zero)
                 (seq 0 (length (accumulateChildren (cluster1 p)))))).
Proof.
  intros H1 H2. rewrite AfApproxProduct_rows. f_equal. unfold approxRowTotal.
  rewrite H1, length_map. apply Vsum_ext. intros k Hk. apply in_seq in Hk.
  destruct (Nat.eqb _ _); [|reflexivity].
  unfold approxContribution, weightedSum. rewrite H1, H2, length_map.
  rewrite (Vsum_ext
    (fun l => Vec.scale (2 * - entry (AfApproxBlock accumulateChildren t p) k l)
                (Vec.sub (v_hat (indexAt (clusterIndices (cluster1 p)) k))
                         (v_hat (indexAt (clusterIndices (cluster2 p)) l))))
    (fun l => Vec.scale
                ((massAt (map mass (accumulateChildren (cluster1 p))) k * 2 * a_IJ t p)
                 * massAt (map mass (accumulateChildren (cluster2 p))) l)
                (Vec.sub (v_hat (indexAt (clusterIndices (cluster1 p)) k))
                         (v_hat (indexAt (clusterIndices (cluster2 p)) l))))).
  - rewrite Vsum_scaled_differences.
    rewrite <- (Rsum_positions (map mass (accumulateChildren (cluster2 p)))), length_map.
    vec.
  - intros l Hl. apply in_seq in Hl. unfold AfApproxBlock. cbv zeta.
    rewrite (entry_in_range (fun wi wj => - wi * a_IJ t p * wj) _ _ 0 0 k l)
      by (rewrite length_map; lia).
    unfold massAt. f_equal. ring.
Qed.

End ValidatorFacts.

(** * The far-field scalar on the stored pairs *)

Lemma a_IJ_checked_apart (t : BlockClusterTree) (p : ClusterPair) :
  0 < centroidDistance p ->
  a_IJ_checked t p = Ok (a_IJ t p) /\ 0 < a_IJ t p.
Proof.
  unfold centroidDistance, a_IJ_checked, a_IJ, pow_checked, pow, div_checked, bind.
  cbv zeta.
  set (d := norm (Vec.sub (centerOfMass (cluster1 p)) (centerOfMass (cluster2 p)))).
  intros Hd.
  assert (Hpos : 0 < Rpower d (beta t - alpha t)) by (unfold Rpower; apply exp_pos).
  destruct (Req_dec_T d 0) as [Hz|_]; [lra|].
  destruct (Req_dec_T (Rpower d (beta t - alpha t)) 0) as [Hz|_]; [lra|].
  split; [reflexivity|].
  apply Rdiv_lt_0_compat; lra.
Qed.

Lemma admissible_apart (cg : PolyCurveGroup) (root : BVHNode3D) (sepCoeff a b e : R)
    (fuel : nat) (t : BlockClusterTree) (p : ClusterPair) :
  BlockClusterTree_new fuel cg root sepCoeff a b e = Some t ->
  nonnegativeExtents root ->
  In p (admissiblePairs t) ->
  0 < centroidDistance p /\ 0 < sepCoeff.
Proof.
  intros Hnew Hext Hp.
  destruct (classifyLoop_stored sepCoeff fuel _ _ Hnew eq_refl
              (Forall_nil _) (Forall_nil _)) as [Hst _].
  destruct (constructed_in_tree _ _ _ _ _ _ _ _ Hnew) as [_ [Hin _]].
  rewrite Forall_forall in Hst, Hin.
  destruct (Hst p Hp) as [_ [_ [_ Hlt]]]. destruct (Hin p Hp) as [H1 _].
  unfold nonnegativeExtents in Hext. rewrite Forall_forall in Hext.
  destruct (Hext _ H1 (centerOfMass (cluster2 p))) as [Hx _].
  assert (Hmax : 0 <= maxExtent p).
  { unfold maxExtent. cbv zeta. eapply Rle_trans; [exact Hx|apply Rmax_l]. }
  assert (Hd : 0 <= centroidDistance p) by apply norm_nonneg.
  assert (Hdpos : 0 < centroidDistance p).
  { destruct Hd as [Hd|Hd]; [exact Hd|]. rewrite <- Hd, Rmult_0_r in Hlt. lra. }
  split; [exact Hdpos|].
  destruct (Rlt_le_dec 0 sepCoeff) as [Hs|Hs]; [exact Hs|].
  assert (sepCoeff * centroidDistance p <= 0) by nra. lra.
Qed.

(** X21: in a hierarchy whose viewspace extents are never negative, the
    separation test only passes at a positive distance of the centers of
    mass and for a positive separation coefficient.  So on every admissible
    pair the constructor stores, the far-field scalar 1 / dist^(beta - alpha)
    of the monopole product and of the propagation is computed without a
    zero divisor, and it is positive. *)
Theorem X21_stored_admissible_pairs_never_divide_by_zero
    (cg : PolyCurveGroup) (root : BVHNode3D) (sepCoeff a b e : R)
    (fuel : nat) (t : BlockClusterTree) (p : ClusterPair) :
  BlockClusterTree_new fuel cg root sepCoeff a b e = Some t ->
  nonnegativeExtents root ->
  In p (admissiblePairs t) ->
  0 < centroidDistance p
  /\ 0 < sepCoeff
  /\ a_IJ_checked t p = Ok (a_IJ t p)
  /\ 0 < a_IJ t p.
Proof.
  intros Hnew Hext Hp.
  destruct (admissible_apart _ _ _ _ _ _ _ _ _ Hnew Hext Hp) as [Hd Hs].
  split; [exact Hd|]. split; [exact Hs|].
  apply a_IJ_checked_apart. exact Hd.
Qed.

(** * The quadratic form of the monopole product and of the full product *)

Lemma dot_approxContribution (t : BlockClusterTree) (p : ClusterPair)
    (v_hat : MatrixXd) (k : nat) :
  dot (v_hat (indexAt (clusterIndices (cluster1 p)) k)) (approxContribution t p v_hat k)
  = Rsum (map (fun l =>
                 2 * monopoleEntry t p k l
                 * (dot (v_hat (indexAt (clusterIndices (cluster1 p)) k))
                        (v_hat (indexAt (clusterIndices (cluster1 p)) k))
                    - dot (v_hat (indexAt (clusterIndices (cluster1 p)) k))
                          (v_hat (indexAt (clusterIndices (cluster2 p)) l))))
              (seq 0 (length (clusterMasses (cluster2 p))))).
Proof.
  unfold approxContribution, weightedSum, monopoleEntry.
  set (u := v_hat (indexAt (clusterIndices (cluster1 p)) k)).
  set (w := massAt (clusterMasses (cluster1 p)) k).
  set (g := fun l => Vec.scale (massAt (clusterMasses (cluster2 p)) l)
                       (v_hat (indexAt (clusterIndices (cluster2 p)) l))).
  transitivity (2 * w * a_IJ t p
                * (Rsum (clusterMasses (cluster2 p)) * dot u u
                   - dot u (Vsum (map g (seq 0 (length (clusterMasses (cluster2 p)))))))).
  - unfold dot, Vec.scale, Vec.sub. cbn [vx vy vz]. ring.
  - rewrite dot_Vsum, <- (Rsum_positions (clusterMasses (cluster2 p))).
    rewrite (Rsum_ext
      (fun l => 2 * (w * a_IJ t p * massAt (clusterMasses (cluster2 p)) l)
                * (dot u u - dot u (v_hat (indexAt (clusterIndices (cluster2 p)) l))))
      (fun l => (2 * w * a_IJ t p * dot u u) * massAt (clusterMasses (cluster2 p)) l
                + (- (2 * w * a_IJ t p)) * dot u (g l))).
    + rewrite Rsum_plus, !Rsum_scale. ring.
    + intros l _. unfold g, dot, Vec.scale. cbn [vx vy vz]. ring.
Qed.

Lemma energy_approxRowTotal (t : BlockClusterTree) (p : ClusterPair)
    (v_hat : MatrixXd) (N : nat) :
  (forall k, (k < length (clusterMasses (cluster1 p)))%nat ->
             (indexAt (clusterIndices (cluster1 p)) k < N)%nat) ->
  Rsum (map (fun r => dot (v_hat r) (approxRowTotal t p v_hat r)) (seq 0 N))
  = positionSum
      (fun k l =>
         2 * monopoleEntry t p k l
         * (dot (v_hat (indexAt (clusterIndices (cluster1 p)) k))
                (v_hat (indexAt (clusterIndices (cluster1 p)) k))
            - dot (v_hat (indexAt (clusterIndices (cluster1 p)) k))
                  (v_hat (indexAt (clusterIndices (cluster2 p)) l)))) p.
Proof.
  intros Hb. unfold approxRowTotal, positionSum.
  rewrite (Rsum_ext _
    (fun r => Rsum (map (fun k =>
                           if Nat.eqb r (indexAt (clusterIndices (cluster1 p)) k)
                           then dot (v_hat r) (approxContribution t p v_hat k)
                           else 0)
                        (seq 0 (length (clusterMasses (cluster1 p))))))).
  - rewrite Rsum_exchange. apply Rsum_ext. intros k Hk. apply in_seq in Hk.
    rewrite <- dot_approxContribution.
    apply (Rsum_pick (fun r => dot (v_hat r) (approxContribution t p v_hat k))).
    + apply seq_NoDup.
    + apply in_seq. specialize (Hb k). lia.
  - intros r _. rewrite dot_Vsum. apply Rsum_ext. intros k _.
    destruct (Nat.eqb_spec r (indexAt (clusterIndices (cluster1 p)) k)) as [_|_];
      [reflexivity|].
    unfold dot, Vec.zero. cbn [vx vy vz]. ring.
Qed.

Lemma monopole_energy (t : BlockClusterTree) (v_hat : MatrixXd) (N : nat) :
  swapClosed (admissiblePairs t) ->
  (forall p k, In p (admissiblePairs t) ->
               (k < length (clusterMasses (cluster1 p)))%nat ->
               (indexAt (clusterIndices (cluster1 p)) k < N)%nat) ->
  energy N v_hat (MultiplyAdmissible t v_hat zeroMatrix)
  = Rsum (map (fun p => positionSum
                          (fun k l => monopoleEntry t p k l * sqDistAt v_hat p k l) p)
              (admissiblePairs t)).
Proof.
  intros Hsw Hb. unfold energy.
  set (g := fun p k l =>
              2 * monopoleEntry t p k l
              * (dot (v_hat (indexAt (clusterIndices (cluster1 p)) k))
                     (v_hat (indexAt (clusterIndices (cluster1 p)) k))
                 - dot (v_hat (indexAt (clusterIndices (cluster1 p)) k))
                       (v_hat (indexAt (clusterIndices (cluster2 p)) l)))).
  set (P := fun p => positionSum (g p) p).
  assert (H1 : Rsum (map (fun r => dot (v_hat r) (MultiplyAdmissible t v_hat zeroMatrix r))
                         (seq 0 N))
               = Rsum (map P (admissiblePairs t))).
  { rewrite (Rsum_ext _
      (fun r => Rsum (map (fun p => dot (v_hat r) (approxRowTotal t p v_hat r))
                          (admissiblePairs t)))).
    - rewrite Rsum_exchange. apply Rsum_ext. intros p Hp.
      apply energy_approxRowTotal. intros k Hk. apply (Hb p k Hp Hk).
    - intros r _. rewrite MultiplyAdmissible_rows, <- dot_Vsum.
      unfold zeroMatrix, dot, Vec.add, Vec.zero. cbn [vx vy vz]. ring. }
  assert (H2 : Rsum (map (fun p => P (swapPair p)) (admissiblePairs t))
               = Rsum (map P (admissiblePairs t))).
  { apply Rsum_swapClosed. exact Hsw. }
  assert (H3 : Rsum (map P (admissiblePairs t))
               + Rsum (map (fun p => P (swapPair p)) (admissiblePairs t))
               = 2 * Rsum (map (fun p => positionSum
                                  (fun k l => monopoleEntry t p k l * sqDistAt v_hat p k l) p)
                               (admissiblePairs t))).
  { rewrite <- Rsum_plus, <- Rsum_scale. apply Rsum_ext. intros p _.
    unfold P at 2. unfold positionSum, swapPair. cbn [cluster1 cluster2].
    rewrite Rsum_exchange. unfold P, positionSum.
    rewrite <- Rsum_plus, <- Rsum_scale. apply Rsum_ext. intros k _.
    rewrite <- Rsum_plus, <- Rsum_scale. apply Rsum_ext. intros l _.
    unfold g, monopoleEntry, sqDistAt. cbn [cluster1 cluster2].
    fold (swapPair p). rewrite a_IJ_swap.
    unfold sqDist, dot, Vec.sub. cbn [vx vy vz]. ring. }
  rewrite H1. rewrite H2 in H3. lra.
Qed.

Lemma massAt_nonneg (w : list R) (k : nat) :
  Forall (fun x => 0 <= x) w -> 0 <= massAt w k.
Proof.
  intros H. unfold massAt. destruct (nth_in_or_default k w 0) as [Hin | Heq]; [|rewrite Heq; lra].
  rewrite Forall_forall in H. apply H. exact Hin.
Qed.

Lemma energy_accumulated (t : BlockClusterTree) (v_hat : MatrixXd) (N : nat) :
  energy N v_hat (fullMultiply t v_hat)
  = energy N v_hat (MultiplyAdmissible t v_hat zeroMatrix)
    + energy N v_hat (MultiplyInadmissible t v_hat zeroMatrix).
Proof.
  unfold energy, fullMultiply. rewrite <- Rsum_plus. apply Rsum_ext. intros r _.
  rewrite !MultiplyInadmissible_rows.
  unfold zeroMatrix, dot, Vec.add, Vec.zero. cbn [vx vy vz]. ring.
Qed.

(** X22: on a tree the constructor returns, the monopole product too
    defines a weighted sum of squared differences: with the elements at
    all positions of the first mass vectors below N, the sum over the rows
    of input row times output row is the sum, over the admissible pairs
    and the positions (k, l) of their two mass vectors, of
    wf_i[k] a_IJ wf_j[l] |v(i_k) - v(j_l)|^2. *)
Theorem X22_monopole_quadratic_form
    (cg : PolyCurveGroup) (root : BVHNode3D) (sepCoeff a b e : R)
    (fuel : nat) (t : BlockClusterTree) (v_hat : MatrixXd) (N : nat) :
  BlockClusterTree_new fuel cg root sepCoeff a b e = Some t ->
  (forall p k, In p (admissiblePairs t) ->
               (k < length (clusterMasses (cluster1 p)))%nat ->
               (indexAt (clusterIndices (cluster1 p)) k < N)%nat) ->
  energy N v_hat (MultiplyAdmissible t v_hat zeroMatrix)
  = Rsum (map (fun p => positionSum
                          (fun k l => monopoleEntry t p k l * sqDistAt v_hat p k l) p)
              (admissiblePairs t)).
Proof.
  intros Hnew Hb. destruct (constructed_swapClosed _ _ _ _ _ _ _ _ Hnew) as [Ha _].
  apply monopole_energy; assumption.
Qed.

(** X23: the full product (monopole product over the admissible pairs,
    then exact product over the inadmissible ones, on a zero buffer) is
    positive semidefinite on a tree the constructor returns, in a hierarchy
    without negative extents and without negative masses, when no two
    different elements that an inadmissible pair combines have the same
    segment midpoint: input times output is not negative, for every input
    field. *)
Theorem X23_full_product_positive_semidefinite
    (cg : PolyCurveGroup) (root : BVHNode3D) (sepCoeff a b e : R)
    (fuel : nat) (t : BlockClusterTree) (v_hat : MatrixXd) (N : nat) :
  BlockClusterTree_new fuel cg root sepCoeff a b e = Some t ->
  nonnegativeExtents root ->
  nonnegativeMasses root ->
  (forall p i, In p (inadmissiblePairs t) -> In i (clusterIndices (cluster1 p)) ->
               (i < N)%nat) ->
  (forall p k, In p (admissiblePairs t) ->
               (k < length (clusterMasses (cluster1 p)))%nat ->
               (indexAt (clusterIndices (cluster1 p)) k < N)%nat) ->
  (forall p i j, In p (inadmissiblePairs t) ->
                 In i (clusterIndices (cluster1 p)) ->
                 In j (clusterIndices (cluster2 p)) ->
                 i <> j ->
                 segmentMidpoint (curves t) i <> segmentMidpoint (curves t) j) ->
  0 <= energy N v_hat (fullMultiply t v_hat).
Proof.
  intros Hnew Hext Hmass Hbi Hba Hm.
  destruct (constructed_swapClosed _ _ _ _ _ _ _ _ Hnew) as [Ha Hi].
  destruct (constructed_in_tree _ _ _ _ _ _ _ _ Hnew) as [_ [Hin _]].
  rewrite Forall_forall in Hin.
  unfold nonnegativeMasses in Hmass. rewrite Forall_forall in Hmass.
  rewrite energy_accumulated, (monopole_energy t v_hat N Ha Hba),
    (exact_energy t v_hat N Hi Hbi).
  apply Rplus_le_le_0_compat.
  - apply Rsum_nonneg. intros p Hp. unfold positionSum.
    destruct (Hin p Hp) as [H1 H2].
    destruct (admissible_apart _ _ _ _ _ _ _ _ _ Hnew Hext Hp) as [Hd _].
    destruct (a_IJ_checked_apart t p Hd) as [_ Hpos].
    apply Rsum_nonneg. intros k _. apply Rsum_nonneg. intros l _.
    apply Rmult_le_pos; [|apply sqDist_nonneg].
    unfold monopoleEntry. apply Rmult_le_pos; [apply Rmult_le_pos|].
    + apply massAt_nonneg. apply (Hmass _ H1).
    + lra.
    + apply massAt_nonneg. apply (Hmass _ H2).
  - apply Rsum_nonneg. intros p Hp. unfold blockSum.
    apply Rsum_nonneg. intros i Hii. apply Rsum_nonneg. intros j Hjj.
    apply Rmult_le_pos; [|apply sqDist_nonneg].
    destruct (Nat.eq_dec i j) as [->|Hne].
    + rewrite kernelEntry_diagonal. lra.
    + apply kernelEntry_nonneg. apply (Hm p i j Hp Hii Hjj Hne).
Qed.

(** * The further properties at the instance *)

Module InstanceFacts.

(** Every segment of the instance curve has length 1. *)
Lemma segment_unit (i : nat) : segmentLength Example.curve i = 1.
Proof.
  unfold segmentLength, norm, Vec.sub.
  cbn [Example.curve GetCurvePoint Next Position pCurve pIndex vx vy vz].
  rewrite S_INR.
  replace ((INR i - (INR i + 1)) * (INR i - (INR i + 1)) + (0 - 0) * (0 - 0)
           + (0 - 0) * (0 - 0)) with (1 * 1) by ring.
  apply sqrt_square. lra.
Qed.

(** Different segments of the instance curve have different midpoints. *)
Lemma midpoints_distinct (i j : nat) :
  i <> j -> segmentMidpoint Example.curve i <> segmentMidpoint Example.curve j.
Proof.
  intros Hne Heq. apply Hne. apply INR_eq.
  apply (f_equal vx) in Heq. revert Heq.
  unfold segmentMidpoint, Vec.divs, Vec.add.
  cbn [Example.curve GetCurvePoint Next Position pCurve pIndex vx vy vz].
  rewrite !S_INR. lra.
Qed.

Lemma bodies_of_elements (n : BVHNode3D) :
  Forall (bodyOfElement Example.curve) (elementBodies n).
Proof.
  unfold elementBodies. apply Forall_forall. intros b Hb.
  apply in_map_iff in Hb. destruct Hb as [i [<- _]].
  split; cbn [mass pt_position vertIndex1]; [symmetry; apply segment_unit|reflexivity].
Qed.

Lemma nothing_empty : emptyNodesListNothing Example.root.
Proof.
  unfold emptyNodesListNothing.
  cbn [subnodes Example.root Example.A Example.B Example.A1 Example.L0 Example.L1
       Example.L2 Example.L3 Example.L4 Example.inner Example.leaf children flat_map app].
  repeat (apply Forall_cons; [intros H; simpl in H; lia|]).
  apply Forall_nil.
Qed.

Lemma listed_below_five (p : ClusterPair) (i : nat) :
  In p (inadmissiblePairs Example.tree) -> In i (clusterIndices (cluster1 p)) ->
  (i < 5)%nat.
Proof.
  simpl. intros [<-|[<-|[]]]; simpl; lia.
Qed.

Lemma extents_nonnegative : nonnegativeExtents Example.root.
Proof.
  unfold nonnegativeExtents.
  cbn [subnodes Example.root Example.A Example.B Example.A1 Example.L0 Example.L1
       Example.L2 Example.L3 Example.L4 Example.inner Example.leaf children flat_map app].
  repeat (apply Forall_cons; [intros c; simpl; lra|]).
  apply Forall_nil.
Qed.

Lemma masses_nonnegative : nonnegativeMasses Example.root.
Proof.
  unfold nonnegativeMasses.
  cbn [subnodes Example.root Example.A Example.B Example.A1 Example.L0 Example.L1
       Example.L2 Example.L3 Example.L4 Example.inner Example.leaf children flat_map app].
  repeat (apply Forall_cons;
          [simpl; unfold Example.unitMass;
           repeat (apply Forall_cons; [lra|]); apply Forall_nil|]).
  apply Forall_nil.
Qed.

Lemma positions_below_five (p : ClusterPair) (k : nat) :
  In p (admissiblePairs Example.tree) ->
  (k < length (clusterMasses (cluster1 p)))%nat ->
  (indexAt (clusterIndices (cluster1 p)) k < 5)%nat.
Proof.
  simpl. intros [<-|[<-|[]]]; intros Hk; vm_compute in Hk;
    destruct k as [|[|[|k]]]; vm_compute; lia.
Qed.

End InstanceFacts.

Lemma X1_witness :
  NumElements Instances.emptyNode = 0%Z
  /\ exists t : BlockClusterTree,
       BlockClusterTree_new 1 Example.curve Instances.emptyNode 1 2 4 0 = Some t
       /\ admissiblePairs t = [] /\ inadmissiblePairs t = []
       /\ (forall v_hat b_hat r,
             MultiplyInadmissible t v_hat b_hat r = b_hat r
             /\ MultiplyAdmissible t v_hat b_hat r = b_hat r).
Proof.
  split; [reflexivity|].
  exact (X1_empty_hierarchy Example.curve Instances.emptyNode 1 2 4 0 0%nat eq_refl).
Defined.

Lemma X2_witness :
  (1 <= NumElements Example.A <= 4)%Z
  /\ NoDup (clusterIndices Example.A)
  /\ In 0%nat (clusterIndices Example.A)
  /\ exists t : BlockClusterTree,
       BlockClusterTree_new 1 Example.curve Example.A 1 2 4 0 = Some t
       /\ admissiblePairs t = []
       /\ inadmissiblePairs t = [mkClusterPair Example.A Example.A]
       /\ fullMultiply t (oneHot 1%nat Example.unitX) 0%nat
          = Vsum (map (fun j => Vec.scale 2
                         (Vec.sub (Vec.scale (kernelEntry t 0%nat j)
                                             (oneHot 1%nat Example.unitX 0%nat))
                                  (Vec.scale (kernelEntry t 0%nat j)
                                             (oneHot 1%nat Example.unitX j))))
                      (clusterIndices Example.A)).
Proof.
  assert (Hn : (1 <= NumElements Example.A <= 4)%Z) by (simpl; lia).
  assert (Hnd : NoDup (clusterIndices Example.A)) by (simpl; ExampleFacts.distinct).
  assert (Hin : In 0%nat (clusterIndices Example.A)) by (simpl; tauto).
  split; [exact Hn|]. split; [exact Hnd|]. split; [exact Hin|].
  exact (X2_small_hierarchy_is_brute_force Example.curve Example.A 1 2 4 0 0%nat
           (oneHot 1%nat Example.unitX) 0%nat Hn Hnd Hin).
Defined.

Lemma X3_witness :
  BlockClusterTree_new 2%nat Example.curve Example.root 1 2 4 0 = Some Example.tree
  /\ Forall (storedAdmissible 1) (admissiblePairs Example.tree)
  /\ Forall (storedInadmissible 1) (inadmissiblePairs Example.tree)
  /\ Forall (fun p => countsFitInt p -> bothSingletons p \/ smallEnough p)
            (inadmissiblePairs Example.tree).
Proof.
  split; [exact ExampleFacts.constructed|].
  exact (X3_stored_pairs Example.curve Example.root 1 2 4 0 2%nat Example.tree
           ExampleFacts.constructed).
Defined.

Lemma X4_witness :
  BlockClusterTree_new 2%nat Example.curve Example.root 1 2 4 0 = Some Example.tree
  /\ Permutation (map swapPair (admissiblePairs Example.tree)) (admissiblePairs Example.tree)
  /\ Permutation (map swapPair (inadmissiblePairs Example.tree))
                 (inadmissiblePairs Example.tree)
  /\ (forall p, In p (admissiblePairs Example.tree)
                <-> In (swapPair p) (admissiblePairs Example.tree))
  /\ (forall p, In p (inadmissiblePairs Example.tree)
                <-> In (swapPair p) (inadmissiblePairs Example.tree)).
Proof.
  split; [exact ExampleFacts.constructed|].
  exact (X4_collections_closed_under_exchange Example.curve Example.root 1 2 4 0 2%nat
           Example.tree ExampleFacts.constructed).
Defined.

Lemma X5_witness :
  BlockClusterTree_new 2%nat Example.curve Example.root 1 2 4 0 = Some Example.tree
  /\ In Example.AB (admissiblePairs Example.tree ++ inadmissiblePairs Example.tree)
  /\ tree_root Example.tree = Example.root
  /\ In (cluster1 Example.AB) (subnodes Example.root)
  /\ In (cluster2 Example.AB) (subnodes Example.root).
Proof.
  assert (Hin : In Example.AB
                  (admissiblePairs Example.tree ++ inadmissiblePairs Example.tree))
    by (simpl; tauto).
  split; [exact ExampleFacts.constructed|]. split; [exact Hin|].
  exact (X5_stored_pairs_point_into_hierarchy Example.curve Example.root 1 2 4 0 2%nat
           Example.tree Example.AB ExampleFacts.constructed Hin).
Defined.

Lemma X6_witness :
  BlockClusterTree_new 2%nat Example.curve Example.root 1 2 4 0 = Some Example.tree
  /\ partitionedHierarchy Example.root
  /\ emptyNodesListNothing Example.root
  /\ NoDup (clusterIndices Example.root)
  /\ In 1%nat (clusterIndices Example.root)
  /\ In 4%nat (clusterIndices Example.root)
  /\ (representations (1, 4)%nat (admissiblePairs Example.tree)
      + representations (1, 4)%nat (inadmissiblePairs Example.tree) = 1)%nat.
Proof.
  assert (H1 : In 1%nat (clusterIndices Example.root)) by (simpl; tauto).
  assert (H4 : In 4%nat (clusterIndices Example.root)) by (simpl; tauto).
  repeat (split; [first [exact ExampleFacts.constructed|exact ExampleFacts.partitioned
                        |exact InstanceFacts.nothing_empty
                        |exact ExampleFacts.indices_distinct|assumption]|]).
  exact (X6_partition_without_loss Example.curve Example.root 1 2 4 0 2%nat Example.tree
           1%nat 4%nat ExampleFacts.constructed ExampleFacts.partitioned
           InstanceFacts.nothing_empty ExampleFacts.indices_distinct H1 H4).
Defined.

Lemma X7_witness :
  1 <= 3
  /\ isPairAdmissible Example.AB 1 = true
  /\ isPairAdmissible Example.AB 3 = true.
Proof.
  assert (Hle : 1 <= 3) by lra.
  split; [exact Hle|]. split; [exact ExampleFacts.admissible_AB|].
  exact (X7_admissible_for_larger_coefficient Example.AB 1 3 Hle ExampleFacts.admissible_AB).
Defined.

Lemma X8_witness :
  BlockClusterTree_new 2%nat Example.curve Example.root 1 2 4 0 = Some Example.tree
  /\ exists t' : BlockClusterTree,
       BlockClusterTree_new 2%nat Example.curve Example.root 1 3 6 1 = Some t'
       /\ admissiblePairs t' = admissiblePairs Example.tree
       /\ inadmissiblePairs t' = inadmissiblePairs Example.tree.
Proof.
  split; [exact ExampleFacts.constructed|].
  exact (X8_blocks_independent_of_kernel Example.curve Example.curve Example.root
           1 2 4 0 3 6 1 2%nat Example.tree ExampleFacts.constructed).
Defined.

Lemma X11_witness :
  BlockClusterTree_new 2%nat Example.curve Example.root 1 2 4 0 = Some Example.tree
  /\ fst (MultiplyAdmissibleFast Example.tree (oneHot 3%nat Example.unitX) zeroMatrix
            Example.zeroFields) 0%nat
     = fst (MultiplyAdmissibleFast Example.tree (oneHot 3%nat Example.unitX)
              (constField Example.unitX)
              (mkMVFields (fun _ => 1) (fun _ => 2) (fun _ => 3))) 0%nat.
Proof.
  split; [exact ExampleFacts.constructed|].
  exact (X11_propagation_ignores_prior_state Example.curve Example.root 1 2 4 0 2%nat
           Example.tree (oneHot 3%nat Example.unitX) zeroMatrix (constField Example.unitX)
           Example.zeroFields (mkMVFields (fun _ => 1) (fun _ => 2) (fun _ => 3)) 0%nat
           ExampleFacts.constructed).
Defined.

Lemma X12_witness :
  BlockClusterTree_new 2%nat Example.curve Example.root 1 2 4 0 = Some Example.tree
  /\ fst (MultiplyAdmissibleFast Example.tree (constField Example.unitX) zeroMatrix
            Example.zeroFields) 0%nat = Vec.zero
  /\ fst (MultiplyAdmissibleFast Example.tree
            (axpy (oneHot 3%nat Example.unitX) 2 (constField Example.unitX)) zeroMatrix
            Example.zeroFields) 0%nat
     = fst (MultiplyAdmissibleFast Example.tree (oneHot 3%nat Example.unitX) zeroMatrix
              Example.zeroFields) 0%nat.
Proof.
  split; [exact ExampleFacts.constructed|].
  exact (X12_propagation_ignores_constants Example.curve Example.root 1 2 4 0 2%nat
           Example.tree (oneHot 3%nat Example.unitX) zeroMatrix 2 Example.unitX
           Example.zeroFields 0%nat ExampleFacts.constructed).
Defined.

Lemma X13_witness :
  (forall p, In p (inadmissiblePairs Example.tree) ->
             ~ In 7%nat (clusterIndices (cluster1 p)))
  /\ (forall p, In p (admissiblePairs Example.tree) ->
                ~ In 7%nat (clusterIndices (cluster1 p))
                /\ (length (clusterMasses (cluster1 p))
                    <= length (clusterIndices (cluster1 p)))%nat)
  /\ MultiplyInadmissible Example.tree (oneHot 3%nat Example.unitX)
       (constField Example.unitX) 7%nat = constField Example.unitX 7%nat
  /\ MultiplyAdmissible Example.tree (oneHot 3%nat Example.unitX)
       (constField Example.unitX) 7%nat = constField Example.unitX 7%nat.
Proof.
  assert (Hi : forall p, In p (inadmissiblePairs Example.tree) ->
                         ~ In 7%nat (clusterIndices (cluster1 p))).
  { simpl. intros p [<-|[<-|[]]]; simpl; intuition discriminate. }
  assert (Ha : forall p, In p (admissiblePairs Example.tree) ->
                         ~ In 7%nat (clusterIndices (cluster1 p))
                         /\ (length (clusterMasses (cluster1 p))
                             <= length (clusterIndices (cluster1 p)))%nat).
  { simpl. intros p [<-|[<-|[]]]; simpl; split; first [lia|intuition discriminate]. }
  split; [exact Hi|]. split; [exact Ha|].
  exact (X13_products_write_listed_rows_only Example.tree (oneHot 3%nat Example.unitX)
           (constField Example.unitX) 7%nat Hi Ha).
Defined.

Lemma X14_witness :
  BlockClusterTree_new 2%nat Example.curve Example.root 1 2 4 0 = Some Example.tree
  /\ (forall p i, In p (inadmissiblePairs Example.tree) ->
                  In i (clusterIndices (cluster1 p)) -> (i < 5)%nat)
  /\ energy 5 (oneHot 0%nat Example.unitX)
       (MultiplyInadmissible Example.tree (oneHot 0%nat Example.unitX) zeroMatrix)
     = Rsum (map (blockSum (fun i j => kernelEntry Example.tree i j
                                       * sqDist (oneHot 0%nat Example.unitX) i j))
                 (inadmissiblePairs Example.tree)).
Proof.
  split; [exact ExampleFacts.constructed|]. split; [exact InstanceFacts.listed_below_five|].
  exact (X14_exact_quadratic_form Example.curve Example.root 1 2 4 0 2%nat Example.tree
           (oneHot 0%nat Example.unitX) 5%nat ExampleFacts.constructed
           InstanceFacts.listed_below_five).
Defined.

Lemma X15_witness :
  BlockClusterTree_new 2%nat Example.curve Example.root 1 2 4 0 = Some Example.tree
  /\ (forall p i, In p (inadmissiblePairs Example.tree) ->
                  In i (clusterIndices (cluster1 p)) -> (i < 5)%nat)
  /\ (forall p i j, In p (inadmissiblePairs Example.tree) ->
                    In i (clusterIndices (cluster1 p)) ->
                    In j (clusterIndices (cluster2 p)) ->
                    i <> j ->
                    segmentMidpoint (curves Example.tree) i
                    <> segmentMidpoint (curves Example.tree) j)
  /\ 0 <= energy 5 (oneHot 0%nat Example.unitX)
            (MultiplyInadmissible Example.tree (oneHot 0%nat Example.unitX) zeroMatrix).
Proof.
  assert (Hm : forall p i j, In p (inadmissiblePairs Example.tree) ->
                 In i (clusterIndices (cluster1 p)) ->
                 In j (clusterIndices (cluster2 p)) ->
                 i <> j ->
                 segmentMidpoint (curves Example.tree) i
                 <> segmentMidpoint (curves Example.tree) j).
  { intros p i j _ _ _ Hne. exact (InstanceFacts.midpoints_distinct i j Hne). }
  split; [exact ExampleFacts.constructed|]. split; [exact InstanceFacts.listed_below_five|].
  split; [exact Hm|].
  exact (X15_exact_product_positive_semidefinite Example.curve Example.root 1 2 4 0 2%nat
           Example.tree (oneHot 0%nat Example.unitX) 5%nat ExampleFacts.constructed
           InstanceFacts.listed_below_five Hm).
Defined.

Lemma X19_witness :
  Forall (bodyOfElement (curves Example.tree)) (elementBodies (cluster1 Example.AB))
  /\ Forall (bodyOfElement (curves Example.tree)) (elementBodies (cluster2 Example.AB))
  /\ AfFullBlock elementBodies Example.tree Example.AB
     = map (fun bi => map (fun bj => - kernelEntry Example.tree (vertIndex1 bi)
                                                   (vertIndex1 bj))
                          (elementBodies (cluster2 Example.AB)))
           (elementBodies (cluster1 Example.AB)).
Proof.
  split; [exact (InstanceFacts.bodies_of_elements (cluster1 Example.AB))|].
  split; [exact (InstanceFacts.bodies_of_elements (cluster2 Example.AB))|].
  exact (X19_exact_block_is_negated_kernel elementBodies Example.tree Example.AB
           (InstanceFacts.bodies_of_elements (cluster1 Example.AB))
           (InstanceFacts.bodies_of_elements (cluster2 Example.AB))).
Defined.

Lemma X20_witness :
  clusterMasses (cluster1 Example.AB) = map mass (elementBodies (cluster1 Example.AB))
  /\ clusterMasses (cluster2 Example.AB) = map mass (elementBodies (cluster2 Example.AB))
  /\ AfApproxProduct Example.tree Example.AB (oneHot 3%nat Example.unitX) zeroMatrix 0%nat
     = Vec.add (zeroMatrix 0%nat)
         (Vsum (map (fun k =>
                       if Nat.eqb 0 (indexAt (clusterIndices (cluster1 Example.AB)) k)
                       then Vsum (map (fun l =>
                                    Vec.scale
                                      (2 * - entry (AfApproxBlock elementBodies Example.tree
                                                      Example.AB) k l)
                                      (Vec.sub
                                         (oneHot 3%nat Example.unitX
                                            (indexAt (clusterIndices (cluster1 Example.AB)) k))
                                         (oneHot 3%nat Example.unitX
                                            (indexAt (clusterIndices (cluster2 Example.AB)) l))))
                                  (seq 0 (length (elementBodies (cluster2 Example.AB)))))
                       else Vec.zero)
                    (seq 0 (length (elementBodies (cluster1 Example.AB)))))).
Proof.
  split; [reflexivity|]. split; [reflexivity|].
  exact (X20_monopole_product_applies_approximate_block elementBodies Example.tree
           Example.AB (oneHot 3%nat Example.unitX) zeroMatrix 0%nat eq_refl eq_refl).
Defined.

Lemma X21_witness :
  BlockClusterTree_new 2%nat Example.curve Example.root 1 2 4 0 = Some Example.tree
  /\ nonnegativeExtents Example.root
  /\ In Example.AB (admissiblePairs Example.tree)
  /\ 0 < centroidDistance Example.AB
  /\ 0 < 1
  /\ a_IJ_checked Example.tree Example.AB = Ok (a_IJ Example.tree Example.AB)
  /\ 0 < a_IJ Example.tree Example.AB.
Proof.
  assert (Hin : In Example.AB (admissiblePairs Example.tree)) by (simpl; tauto).
  split; [exact ExampleFacts.constructed|].
  split; [exact InstanceFacts.extents_nonnegative|]. split; [exact Hin|].
  exact (X21_stored_admissible_pairs_never_divide_by_zero Example.curve Example.root
           1 2 4 0 2%nat Example.tree Example.AB ExampleFacts.constructed
           InstanceFacts.extents_nonnegative Hin).
Defined.

Lemma X22_witness :
  BlockClusterTree_new 2%nat Example.curve Example.root 1 2 4 0 = Some Example.tree
  /\ (forall p k, In p (admissiblePairs Example.tree) ->
                  (k < length (clusterMasses (cluster1 p)))%nat ->
                  (indexAt (clusterIndices (cluster1 p)) k < 5)%nat)
  /\ energy 5 (oneHot 0%nat Example.unitX)
       (MultiplyAdmissible Example.tree (oneHot 0%nat Example.unitX) zeroMatrix)
     = Rsum (map (fun p => positionSum
                             (fun k l => monopoleEntry Example.tree p k l
                                         * sqDistAt (oneHot 0%nat Example.unitX) p k l) p)
                 (admissiblePairs Example.tree)).
Proof.
  split; [exact ExampleFacts.constructed|].
  split; [exact InstanceFacts.positions_below_five|].
  exact (X22_monopole_quadratic_form Example.curve Example.root 1 2 4 0 2%nat Example.tree
           (oneHot 0%nat Example.unitX) 5%nat ExampleFacts.constructed
           InstanceFacts.positions_below_five).
Defined.

Lemma X23_witness :
  BlockClusterTree_new 2%nat Example.curve Example.root 1 2 4 0 = Some Example.tree
  /\ nonnegativeExtents Example.root
  /\ nonnegativeMasses Example.root
  /\ (forall p i, In p (inadmissiblePairs Example.tree) ->
                  In i (clusterIndices (cluster1 p)) -> (i < 5)%nat)
  /\ (forall p k, In p (admissiblePairs Example.tree) ->
                  (k < length (clusterMasses (cluster1 p)))%nat ->
                  (indexAt (clusterIndices (cluster1 p)) k < 5)%nat)
  /\ (forall p i j, In p (inadmissiblePairs Example.tree) ->
                    In i (clusterIndices (cluster1 p)) ->
                    In j (clusterIndices (cluster2 p)) ->
                    i <> j ->
                    segmentMidpoint (curves Example.tree) i
                    <> segmentMidpoint (curves Example.tree) j)
  /\ 0 <= energy 5 (oneHot 0%nat Example.unitX)
            (fullMultiply Example.tree (oneHot 0%nat Example.unitX)).
Proof.
  assert (Hm : forall p i j, In p (inadmissiblePairs Example.tree) ->
                 In i (clusterIndices (cluster1 p)) ->
                 In j (clusterIndices (cluster2 p)) ->
                 i <> j ->
                 segmentMidpoint (curves Example.tree) i
                 <> segmentMidpoint (curves Example.tree) j).
  { intros p i j _ _ _ Hne. exact (InstanceFacts.midpoints_distinct i j Hne). }
  split; [exact ExampleFacts.constructed|].
  split; [exact InstanceFacts.extents_nonnegative|].
  split; [exact InstanceFacts.masses_nonnegative|].
  split; [exact InstanceFacts.listed_below_five|].
  split; [exact InstanceFacts.positions_below_five|].
  split; [exact Hm|].
  exact (X23_full_product_positive_semidefinite Example.curve Example.root 1 2 4 0 2%nat
           Example.tree (oneHot 0%nat Example.unitX) 5%nat ExampleFacts.constructed
           InstanceFacts.extents_nonnegative InstanceFacts.masses_nonnegative
           InstanceFacts.listed_below_five InstanceFacts.positions_below_five Hm).
Defined.
